(** * StrainGR variant caller: a shallow embedding of
      [strainge/variant_caller.py] and the properties of its allele
      model, reference coordinates, per-scaffold statistics and read
      filter chain. *)

From Stdlib Require Import ZArith QArith Qround Lia List Bool Ascii.
From Stdlib Require Import Reals Lra Qreals.
From Stdlib Require PrimFloat FloatOps SpecFloat.
From stdpp Require Import base option list sorting gmap strings.

Local Open Scope Z_scope.

(** ** Python exceptions

    Fallible code returns [result]: either a value or the exception the
    interpreter raises at that point. *)

Inductive exn : Type :=
  | IndexError
  | KeyError
  | AttributeError
  | ValueError
  | OverflowError
  | TypeError.

Inductive result (A : Type) : Type :=
  | Ok (a : A)
  | Raise (e : exn).

Arguments Ok {A} a.
Arguments Raise {A} e.

Definition rbind {A B} (m : result A) (k : A -> result B) : result B :=
  match m with
  | Ok a => k a
  | Raise e => Raise e
  end.

Notation "'let!' x ':=' m 'in' k" := (rbind m (fun x => k))
  (at level 10, x name, m at level 100, k at level 200).

(** ** Allele model ([class Allele(IntFlag)]) *)

Module Allele.

(** An [IntFlag] value is its integer. *)
Definition t := Z.

Definition N : t := 0.
Definition A : t := 1.
Definition C : t := 2.
Definition G : t := 4.
Definition T : t := 8.
Definition INS : t := 16.
Definition DEL : t := 32.

(** [Allele.from_str]: lookup in [__members__] by name; anything that
    is not a member name yields [N]. The base handed to it by the caller
    is one character of the read sequence, so of the member names only
    the one-letter ones can match. *)
Definition from_str (base : string) : t :=
  if decide (base = "A"%string) then A
  else if decide (base = "C"%string) then C
  else if decide (base = "G"%string) then G
  else if decide (base = "T"%string) then T
  else if decide (base = "N"%string) then N
  else if decide (base = "INS"%string) then INS
  else if decide (base = "DEL"%string) then DEL
  else N.

(** [Allele.rc] *)
Definition rc (self : t) : t :=
  if self =? A then T
  else if self =? C then G
  else if self =? G then C
  else if self =? T then A
  else self.

(** The members other than [N], in definition order: this is
    [ALLELE_MASKS], and [ALLELE_INDEX] is the position in it. *)
Definition members : list t := [A; C; G; T; INS; DEL].

(** "Exactly one bit set, and it is a base": one of A, C, G, T. *)
Definition is_base (a : t) : Prop := a = A \/ a = C \/ a = G \/ a = T.

End Allele.

(** ** numpy scalars and arrays *)

(** A [uint32] cell holds its value modulo 2^32. *)
Definition wrap32 (z : Z) : Z := z mod 2 ^ 32.

(** The result of numpy's true division of two unsigned integers: a
    zero divisor gives [nan] for 0/0 and [inf] otherwise (numpy warns, it
    does not raise). Finite quotients are kept as exact rationals. *)
Inductive npfloat : Type :=
  | Finite (q : Q)
  | Inf
  | NaN.

Definition np_true_divide (x y : Z) : npfloat :=
  if y =? 0 then (if x =? 0 then NaN else Inf)
  else Finite (inject_Z x / inject_Z y).

(** *** IEEE 754 double precision

    Where the outcome of the program depends on a rounded quotient, the
    values are [float64] as in numpy and Python: the kernel's binary64
    numbers, with their correctly rounded division and their exact
    comparison. *)

(** The [float64] nearest to an integer, ties to even: numpy's cast of an
    unsigned integer array to [float64]. Integers below 2^53 in size are
    exact. *)
Definition np_float64 (z : Z) : PrimFloat.float :=
  FloatOps.SF2Prim
    (SpecFloat.binary_normalize FloatOps.prec FloatOps.emax z 0 false).

(** The operand conversion of [int / float]: the nearest [float], or
    [OverflowError] when the integer is too large for one. *)
Definition py_float (z : Z) : result PrimFloat.float :=
  let f := np_float64 z in
  if PrimFloat.is_infinity f then Raise OverflowError else Ok f.

(** [int(x)] on a float: truncation towards zero; an infinity raises
    [OverflowError] and a [nan] raises [ValueError]. *)
Definition py_int (x : PrimFloat.float) : result Z :=
  match FloatOps.Prim2SF x with
  | SpecFloat.S754_zero _ => Ok 0
  | SpecFloat.S754_finite s m e =>
      let v := if 0 <=? e then Z.shiftl (Z.pos m) e
               else Z.shiftr (Z.pos m) (- e) in
      Ok (if s then - v else v)
  | SpecFloat.S754_infinity _ => Raise OverflowError
  | SpecFloat.S754_nan => Raise ValueError
  end.

(** The float a decimal literal [n/d] denotes when the nearest [float64]
    to the quotient is meant, as for [0.1] or [0.3]. *)
Definition float_ratio (n d : Z) : PrimFloat.float :=
  PrimFloat.div (np_float64 n) (np_float64 d).

(** Strict comparison of rationals as a boolean. *)
Definition Qltb (x y : Q) : bool := negb (Qle_bool y x).

(** Integer index into an axis of size [len]: negative indices count from
    the end, anything else out of range raises. *)
Definition np_index (len : nat) (i : Z) : result nat :=
  if (0 <=? i) && (i <? Z.of_nat len) then Ok (Z.to_nat i)
  else if (- Z.of_nat len <=? i) && (i <? 0)
       then Ok (Z.to_nat (i + Z.of_nat len))
  else Raise IndexError.

(** [a[i] += v] on a one-dimensional [uint32] array. *)
Definition np_iadd (a : list Z) (i v : Z) : result (list Z) :=
  let! k := np_index (length a) i in
  Ok (alter (fun x => wrap32 (x + v)) k a).

(** [a[i]] for an integer [i]. *)
Definition np_get {A} (a : list A) (i : Z) : result A :=
  let! k := np_index (length a) i in
  match a !! k with
  | Some x => Ok x
  | None => Raise IndexError
  end.

(** Sum along the last axis. The accumulator is 64 bits wide, which six
    32-bit cells cannot overflow. *)
Definition np_sum (row : list Z) : Z := foldr Z.add 0 row.

(** [ALLELE_MASKS] and [ALLELE_INDEX]. *)
Definition ALLELE_MASKS : list Z := Allele.members.

Definition ALLELE_INDEX (a : Allele.t) : result nat :=
  if a =? Allele.A then Ok 0%nat
  else if a =? Allele.C then Ok 1%nat
  else if a =? Allele.G then Ok 2%nat
  else if a =? Allele.T then Ok 3%nat
  else if a =? Allele.INS then Ok 4%nat
  else if a =? Allele.DEL then Ok 5%nat
  else Raise KeyError.

(** ** Reference model ([class Reference]) *)

(** A sequence record as read from the FASTA file: its [metadata['id']]
    and its bases. *)
Record Sequence : Type := mkSequence {
  metadata_id : string;
  seq_values : string
}.

(** [d[k] = v] on a dictionary kept as its items in insertion order: a
    key already present keeps its place. *)
Fixpoint dict_set {V} (d : list (string * V)) (k : string) (v : V)
  : list (string * V) :=
  match d with
  | [] => [(k, v)]
  | (k', v') :: d' =>
      if bool_decide (k' = k) then (k, v) :: d'
      else (k', v') :: dict_set d' k v
  end.

Record Reference : Type := mkReference {
  scaffolds : list (string * Sequence);
  lengths : list Z;
  ref_length : Z
}.

(** [Reference.__init__], from the records of the file. *)
Definition new_reference (records : list Sequence) : Reference :=
  let scaffolds :=
    foldl (fun d r => dict_set d (metadata_id r) r) [] records in
  let lengths :=
    map (fun kv => Z.of_nat (String.length (seq_values (snd kv))))
        scaffolds in
  {| scaffolds := scaffolds;
     lengths := lengths;
     ref_length := foldr Z.add 0 lengths |}.

(** The loop of [Reference.scaffold_coord] over
    [zip(self.scaffolds.values(), self.lengths)]; falling off the end
    returns [None]. *)
Fixpoint scaffold_coord_loop (items : list (Sequence * Z)) (offset coord : Z)
  : option (string * Z) :=
  match items with
  | [] => None
  | (scaffold, length) :: rest =>
      if coord <? offset + length
      then Some (metadata_id scaffold, coord + 1 - offset)
      else scaffold_coord_loop rest (offset + length) coord
  end.

(** [Reference.scaffold_coord] *)
Definition scaffold_coord (self : Reference) (coord : Z)
  : option (string * Z) :=
  scaffold_coord_loop (zip (map snd (scaffolds self)) (lengths self)) 0 coord.

(** [scaffold.name] where [scaffold] is a [str]: strings have no such
    attribute. *)
Definition str_name (scaffold : string) : result string :=
  Raise AttributeError.

(** The loop of [Reference.scaffold_to_genome_coord] over
    [zip(self.scaffolds, self.lengths)]: iterating the dictionary yields
    its keys. *)
Fixpoint scaffold_to_genome_coord_loop (items : list (string * Z))
         (offset : Z) (scaffold_name : string) (coord : Z)
  : result (option Z) :=
  match items with
  | [] => Ok None
  | (scaffold, length) :: rest =>
      let! name := str_name scaffold in
      if bool_decide (name = scaffold_name)
      then Ok (Some (offset + coord - 1))
      else scaffold_to_genome_coord_loop rest (offset + length)
             scaffold_name coord
  end.

(** [Reference.scaffold_to_genome_coord] *)
Definition scaffold_to_genome_coord (self : Reference)
           (scaffold_name : string) (coord : Z) : result (option Z) :=
  scaffold_to_genome_coord_loop
    (zip (map fst (scaffolds self)) (lengths self)) 0 scaffold_name coord.

(** What the docstring of [scaffold_to_genome_coord] describes: the sum
    of the lengths of the scaffolds before the named one, plus the
    1-based coordinate, minus one. *)
Fixpoint genome_coord_documented (items : list (string * Z)) (offset : Z)
         (scaffold_name : string) (coord : Z) : option Z :=
  match items with
  | [] => None
  | (name, length) :: rest =>
      if bool_decide (name = scaffold_name)
      then Some (offset + coord - 1)
      else genome_coord_documented rest (offset + length) scaffold_name coord
  end.

(** The length recorded for the first scaffold of that name. *)
Fixpoint length_of (items : list (string * Z)) (scaffold_name : string)
  : option Z :=
  match items with
  | [] => None
  | (name, length) :: rest =>
      if bool_decide (name = scaffold_name) then Some length
      else length_of rest scaffold_name
  end.

(** The (name, length) pairs of a list of records with their lengths. *)
Definition named_lengths (items : list (Sequence * Z)) : list (string * Z) :=
  map (fun it => (metadata_id (fst it), snd it)) items.

(** ** Scaffold statistics ([class ScaffoldCallData]) *)

(** A maximal run found by [utils.find_consecutive_groups]: the slice of
    the array, where it starts and how long it is. *)
Record Group : Type := mkGroup {
  g_data : list bool;
  g_start : nat;
  g_length : nat
}.

(** One position of [alleles]: [alleles[pos, 0, :]] (read counts) and
    [alleles[pos, 1, :]] (summed base qualities), one cell per member of
    [ALLELE_MASKS]. *)
Record pileup_cell : Type := mkCell {
  counts : list Z;
  quals : list Z
}.

Record ScaffoldCallData : Type := mkScaffold {
  sd_name : string;
  sd_length : Z;
  sd_read_count : Z;
  sd_refmask : list Z;
  sd_alleles : list pileup_cell;
  sd_bad : list Z;
  sd_lowmq_count : list Z;
  sd_lowmq : option (list bool);
  sd_mq_sum : list Z;
  sd_strong : option (list Z);
  sd_weak : option (list Z);
  sd_coverage : option (list Z);
  sd_high_coverage : option (list bool);
  sd_mean_coverage : npfloat;
  sd_median_coverage : npfloat;
  sd_coverage_cutoff : Q;
  sd_gaps : list Group
}.

(** [ScaffoldCallData.__init__] *)
Definition new_scaffold (name : string) (len : nat) : ScaffoldCallData :=
  {| sd_name := name;
     sd_length := Z.of_nat len;
     sd_read_count := 0;
     sd_refmask := replicate len 0;
     sd_alleles := replicate len (mkCell (replicate 6 0) (replicate 6 0));
     sd_bad := replicate len 0;
     sd_lowmq_count := replicate len 0;
     sd_lowmq := None;
     sd_mq_sum := replicate len 0;
     sd_strong := None;
     sd_weak := None;
     sd_coverage := None;
     sd_high_coverage := None;
     sd_mean_coverage := Finite 0;
     sd_median_coverage := Finite 0;
     sd_coverage_cutoff := 0;
     sd_gaps := [] |}.

(** The shape the constructor gives the arrays, kept by every update. *)
Record scaffold_shape (sd : ScaffoldCallData) : Prop := mkShape {
  shape_len : 0 <= sd_length sd;
  shape_refmask : Z.of_nat (length (sd_refmask sd)) = sd_length sd;
  shape_alleles : Z.of_nat (length (sd_alleles sd)) = sd_length sd;
  shape_bad : Z.of_nat (length (sd_bad sd)) = sd_length sd;
  shape_lowmq_count : Z.of_nat (length (sd_lowmq_count sd)) = sd_length sd;
  shape_mq_sum : Z.of_nat (length (sd_mq_sum sd)) = sd_length sd;
  shape_cells : Forall (fun c => length (counts c) = 6%nat /\
                                 length (quals c) = 6%nat) (sd_alleles sd)
}.

(** Element-wise [a + b] of two one-dimensional arrays, with numpy's
    broadcasting of an axis of size one. *)
Definition np_add (a b : list Z) : result (list Z) :=
  if (length a =? length b)%nat then Ok (zip_with Z.add a b)
  else match a, b with
       | [x], _ => Ok (map (Z.add x) b)
       | _, [y] => Ok (map (fun x => x + y) a)
       | _, _ => Raise ValueError
       end.

(** [a[mask] = 0]. A boolean mask must have the array's length. With
    [None] for the mask the assignment goes through a view with one more
    axis and reaches every cell. *)
Definition np_mask_zero (mask : option (list bool)) (a : list Z)
  : result (list Z) :=
  match mask with
  | None => Ok (map (fun _ => 0) a)
  | Some m =>
      if (length m =? length a)%nat
      then Ok (zip_with (fun (h : bool) x => if h then 0 else x) m a)
      else Raise IndexError
  end.

Fixpoint insert_sorted (x : Z) (l : list Z) : list Z :=
  match l with
  | [] => [x]
  | y :: l' => if x <=? y then x :: l else y :: insert_sorted x l'
  end.

Definition sorted (l : list Z) : list Z := foldr insert_sorted [] l.

(** [numpy.median]: the middle element of the sorted array, the mean of
    the two middle ones for an even length, [nan] for an empty array. *)
Definition np_median (a : list Z) : npfloat :=
  let s := sorted a in
  let n := length s in
  if (n =? 0)%nat then NaN
  else if Nat.even n
       then Finite ((inject_Z (nth (n / 2 - 1) s 0) +
                     inject_Z (nth (n / 2) s 0)) / 2)
       else Finite (inject_Z (nth (n / 2) s 0)).

(** Python's [max(0.5, x)]: [x] when [x > 0.5], else [0.5]; a comparison
    with [nan] is false. *)
Definition max_half (x : npfloat) : npfloat :=
  match x with
  | Finite q => if Qltb (1 # 2) q then Finite q else Finite (1 # 2)
  | Inf => Inf
  | NaN => Finite (1 # 2)
  end.

(** The default of [poisson_coverage_cutoff]'s [cutoff] argument. *)
Definition default_cutoff : Q := 9999999 # 10000000.

Section ScaffoldAlgorithms.

(** [scipy.stats.poisson.ppf q mu], the percent point function of the
    Poisson distribution: an external library function. *)
Variable poisson_ppf : Q -> Q -> Q.

(** What [numpy.divide(..., where=...)] leaves in the cells of its
    fresh output array that [where] excludes: position, then allele
    index. *)
Variable garbage : nat -> nat -> PrimFloat.float.

(** [poisson_coverage_cutoff] *)
Definition poisson_coverage_cutoff (mean : npfloat) (cutoff : Q)
  : result Q :=
  match mean with
  | Finite m =>
      if Qltb m 50 then Ok (poisson_ppf cutoff m)
      else Ok (inject_Z (Qceiling (m * (3 # 2) + 15)))
  | Inf => Raise OverflowError
  | NaN => Raise ValueError
  end.

(** [ScaffoldCallData.calculate_coverage] *)
Definition calculate_coverage (self : ScaffoldCallData)
  : result ScaffoldCallData :=
  let! coverage :=
    np_add (map (fun c => np_sum (counts c)) (sd_alleles self))
           (sd_lowmq_count self) in
  let mean_coverage := np_true_divide (np_sum coverage) (sd_length self) in
  let median_coverage := np_median coverage in
  let! coverage_cutoff :=
    poisson_coverage_cutoff (max_half median_coverage) default_cutoff in
  let high_coverage :=
    map (fun c => Qltb coverage_cutoff (inject_Z c)) coverage in
  Ok {| sd_name := sd_name self;
        sd_length := sd_length self;
        sd_read_count := sd_read_count self;
        sd_refmask := sd_refmask self;
        sd_alleles := sd_alleles self;
        sd_bad := sd_bad self;
        sd_lowmq_count := sd_lowmq_count self;
        sd_lowmq := sd_lowmq self;
        sd_mq_sum := sd_mq_sum self;
        sd_strong := sd_strong self;
        sd_weak := sd_weak self;
        sd_coverage := Some coverage;
        sd_high_coverage := Some high_coverage;
        sd_mean_coverage := mean_coverage;
        sd_median_coverage := median_coverage;
        sd_coverage_cutoff := coverage_cutoff;
        sd_gaps := sd_gaps self |}.

(** [qual_fraction] at one position: the [float64] quotient of the two
    integers where the sum is positive, whatever the output array held
    elsewhere. *)
Definition qual_fraction (i : nat) (qs : list Z) : list PrimFloat.float :=
  let qual_sum := np_sum qs in
  imap (fun a q => if 0 <? qual_sum
                   then PrimFloat.div (np_float64 q) (np_float64 qual_sum)
                   else garbage i a) qs.

(** [(evidence * ALLELE_MASKS).sum(axis=-1)] at one position. *)
Definition weak_at (qs : list Z) : Z :=
  np_sum (zip_with (fun q m => if 0 <? q then m else 0) qs ALLELE_MASKS).

(** [(confirmed * ALLELE_MASKS).sum(axis=-1)] at one position:
    [qual_fraction > min_qual_frac] compares two [float64] values. *)
Definition strong_at (min_pileup_qual : Z) (min_qual_frac : PrimFloat.float)
           (i : nat) (qs : list Z) : Z :=
  np_sum (zip_with
            (fun (qf : Z * PrimFloat.float) m =>
               if (min_pileup_qual <? fst qf)
                  && PrimFloat.ltb min_qual_frac (snd qf)
               then m else 0)
            (zip qs (qual_fraction i qs)) ALLELE_MASKS).

(** [ScaffoldCallData.call_alleles] *)
Definition call_alleles (min_pileup_qual : Z)
           (min_qual_frac : PrimFloat.float)
           (self : ScaffoldCallData) : result ScaffoldCallData :=
  let weak := map (fun c => weak_at (quals c)) (sd_alleles self) in
  let strong :=
    imap (fun i c => strong_at min_pileup_qual min_qual_frac i (quals c))
         (sd_alleles self) in
  let! weak := np_mask_zero (sd_high_coverage self) weak in
  let! strong := np_mask_zero (sd_high_coverage self) strong in
  Ok {| sd_name := sd_name self;
        sd_length := sd_length self;
        sd_read_count := sd_read_count self;
        sd_refmask := sd_refmask self;
        sd_alleles := sd_alleles self;
        sd_bad := sd_bad self;
        sd_lowmq_count := sd_lowmq_count self;
        sd_lowmq := sd_lowmq self;
        sd_mq_sum := sd_mq_sum self;
        sd_strong := Some strong;
        sd_weak := Some weak;
        sd_coverage := sd_coverage self;
        sd_high_coverage := sd_high_coverage self;
        sd_mean_coverage := sd_mean_coverage self;
        sd_median_coverage := sd_median_coverage self;
        sd_coverage_cutoff := sd_coverage_cutoff self;
        sd_gaps := sd_gaps self |}.

End ScaffoldAlgorithms.

(** *** Gap finding *)

(** An element-wise binary operation on two one-dimensional arrays, with
    numpy's broadcasting of an axis of size one. *)
Definition np_broadcast2 {A B C} (f : A -> B -> C) (a : list A) (b : list B)
  : result (list C) :=
  if (length a =? length b)%nat then Ok (zip_with f a b)
  else match a, b with
       | [x], _ => Ok (map (f x) b)
       | _, [y] => Ok (map (fun x => f x y) a)
       | _, _ => Raise ValueError
       end.

(** The runs of [l] after a run of [n] cells of value [v] that began at
    [start]. *)
Fixpoint groups_from (l : list bool) (start : nat) (v : bool) (n : nat)
  : list Group :=
  match l with
  | [] => [mkGroup (replicate n v) start n]
  | x :: l' =>
      if Bool.eqb x v then groups_from l' start v (S n)
      else mkGroup (replicate n v) start n
             :: groups_from l' (start + n) x 1
  end.

(** Modelled from the spec: [utils.find_consecutive_groups], which is not
    among the sources. "Extract maximal runs of consecutive positions of
    length >= scaledMinGap": the array is cut into its maximal runs of
    equal cells, each a [Group] with its data, start and length, and the
    runs at least [min_size] long are kept, in order. *)
Definition find_consecutive_groups (array : list bool) (min_size : Z)
  : list Group :=
  filter (fun g => min_size <= Z.of_nat (g_length g))
         match array with
         | [] => []
         | x :: l => groups_from l 0 x 1
         end.

(** [group.end]: one past the last position, as the BED track writer
    uses it. *)
Definition g_end (g : Group) : nat := (g_start g + g_length g)%nat.

Section GapFinding.

(** Modelled from the spec: [utils.lander_waterman], which is not among
    the sources: "the Lander-Waterman expected-contig-length model
    evaluated at meanCoverage", a factor computed from the mean coverage.
    It is left uninterpreted: some [float64] for each mean coverage. The
    argument stands for the mean coverage the program passes, which is
    the rounded value of this quotient and so a function of it. *)
Variable lander_waterman : npfloat -> PrimFloat.float.

(** [scale_min_gap_size]: [int(min_gap / lw) if lw > 0 else min_gap].
    The quotient is a [float64]; a [nan] or negative factor compares
    false with 0, an infinite positive one gives the quotient 0, and a
    quotient that overflows to infinity makes [int] raise. *)
Definition scale_min_gap_size (min_gap : Z) (mean_coverage : npfloat)
  : result Z :=
  let lw := lander_waterman mean_coverage in
  if PrimFloat.ltb PrimFloat.zero lw
  then let! g := py_float min_gap in
       py_int (PrimFloat.div g lw)
  else Ok min_gap.

(** [covered_array] of [find_gaps], with [self.lowmq] on the way. *)
Definition covered_array (self : ScaffoldCallData)
  : result (list bool * list bool) :=
  let depth := map (fun c => np_sum (counts c)) (sd_alleles self) in
  let! lowmq :=
    np_broadcast2 (fun l d => (1 <? l) && (d <? l))
                  (sd_lowmq_count self) depth in
  match sd_weak self with
  | None => Raise TypeError
  | Some weak =>
      let! covered := np_broadcast2 orb (map (fun w => 0 <? w) weak) lowmq in
      Ok (lowmq, covered)
  end.

(** [ScaffoldCallData.find_gaps] *)
Definition find_gaps (min_size : Z) (self : ScaffoldCallData)
  : result ScaffoldCallData :=
  let! min_size := scale_min_gap_size min_size (sd_mean_coverage self) in
  let! lc := covered_array self in
  let gaps :=
    filter (fun group => negb (existsb (fun b : bool => b) (g_data group)) = true)
           (find_consecutive_groups (snd lc) min_size) in
  Ok {| sd_name := sd_name self; sd_length := sd_length self;
        sd_read_count := sd_read_count self; sd_refmask := sd_refmask self;
        sd_alleles := sd_alleles self; sd_bad := sd_bad self;
        sd_lowmq_count := sd_lowmq_count self;
        sd_lowmq := Some (fst lc);
        sd_mq_sum := sd_mq_sum self; sd_strong := sd_strong self;
        sd_weak := sd_weak self; sd_coverage := sd_coverage self;
        sd_high_coverage := sd_high_coverage self;
        sd_mean_coverage := sd_mean_coverage self;
        sd_median_coverage := sd_median_coverage self;
        sd_coverage_cutoff := sd_coverage_cutoff self;
        sd_gaps := gaps |}.

End GapFinding.

(** Whether position [i] counts as covered: a weak call, or more than one
    low-mapping-quality read and more of them than good reads. *)
Definition covered_at (self : ScaffoldCallData) (i : nat) : option bool :=
  match sd_weak self with
  | None => None
  | Some weak =>
      match weak !! i, sd_lowmq_count self !! i, sd_alleles self !! i with
      | Some w, Some l, Some c =>
          Some ((0 <? w) || ((1 <? l) && (np_sum (counts c) <? l)))
      | _, _, _ => None
      end
  end.

(** A maximal run of [n] cells of value [val] starting at [s]: not empty,
    all cells [val], and bounded on each side by the end of the array or
    a cell of the other value. *)
Definition is_run (a : list bool) (val : bool) (s n : nat) : Prop :=
  (0 < n)%nat /\
  (forall i : nat, (s <= i < s + n)%nat -> a !! i = Some val) /\
  (s = 0%nat \/ a !! (s - 1)%nat = Some (negb val)) /\
  (a !! (s + n)%nat = None \/ a !! (s + n)%nat = Some (negb val)).

(** Each group ends before the next one starts. *)
Definition in_order (g1 g2 : Group) : Prop := (g_end g1 <= g_start g2)%nat.

(** *** The Poisson percent point

    [poisson_coverage_cutoff] is documented as "Calculate the Poisson CDF
    and find where it reaches the cutoff". *)

(** The [k]-th term of the exponential series. *)
Definition exp_term (x : R) (k : nat) : R := (/ INR (fact k) * x ^ k)%R.

(** The Poisson distribution function with mean [mu] at [x]:
    [exp(-mu)] times the sum of [mu^k / k!] for [k] up to [x]. *)
Definition poisson_cdf (mu : R) (x : nat) : R := (exp (- mu) * E1 mu x)%R.

(** [x] is the smallest integer at which the distribution function
    reaches [p]. *)
Definition poisson_percent_point (p mu : Q) (x : Z) : Prop :=
  0 <= x /\
  (Q2R p <= poisson_cdf (Q2R mu) (Z.to_nat x))%R /\
  forall y : nat, Z.of_nat y < x -> (poisson_cdf (Q2R mu) y < Q2R p)%R.

(** The library function answers with the percent point at [p] and
    [mu]. *)
Definition ppf_agrees (ppf : Q -> Q -> Q) (p mu : Q) : Prop :=
  exists x : Z, ppf p mu = inject_Z x /\ poisson_percent_point p mu x.

(** The mean [calculate_coverage] hands to [poisson_coverage_cutoff]:
    [max(0.5, median)] of the coverage. *)
Definition cutoff_mean (self : ScaffoldCallData) : Q :=
  match np_add (map (fun c => np_sum (counts c)) (sd_alleles self))
               (sd_lowmq_count self) with
  | Ok coverage =>
      match max_half (np_median coverage) with
      | Finite mu => mu
      | _ => 1 # 2
      end
  | Raise _ => 1 # 2
  end.

(** Field updates of a scaffold. *)
Definition set_bad (sd : ScaffoldCallData) (v : list Z) : ScaffoldCallData :=
  {| sd_name := sd_name sd; sd_length := sd_length sd;
     sd_read_count := sd_read_count sd; sd_refmask := sd_refmask sd;
     sd_alleles := sd_alleles sd; sd_bad := v;
     sd_lowmq_count := sd_lowmq_count sd; sd_lowmq := sd_lowmq sd;
     sd_mq_sum := sd_mq_sum sd; sd_strong := sd_strong sd;
     sd_weak := sd_weak sd; sd_coverage := sd_coverage sd;
     sd_high_coverage := sd_high_coverage sd;
     sd_mean_coverage := sd_mean_coverage sd;
     sd_median_coverage := sd_median_coverage sd;
     sd_coverage_cutoff := sd_coverage_cutoff sd; sd_gaps := sd_gaps sd |}.

Definition set_lowmq_count (sd : ScaffoldCallData) (v : list Z)
  : ScaffoldCallData :=
  {| sd_name := sd_name sd; sd_length := sd_length sd;
     sd_read_count := sd_read_count sd; sd_refmask := sd_refmask sd;
     sd_alleles := sd_alleles sd; sd_bad := sd_bad sd;
     sd_lowmq_count := v; sd_lowmq := sd_lowmq sd;
     sd_mq_sum := sd_mq_sum sd; sd_strong := sd_strong sd;
     sd_weak := sd_weak sd; sd_coverage := sd_coverage sd;
     sd_high_coverage := sd_high_coverage sd;
     sd_mean_coverage := sd_mean_coverage sd;
     sd_median_coverage := sd_median_coverage sd;
     sd_coverage_cutoff := sd_coverage_cutoff sd; sd_gaps := sd_gaps sd |}.

Definition set_mq_sum (sd : ScaffoldCallData) (v : list Z)
  : ScaffoldCallData :=
  {| sd_name := sd_name sd; sd_length := sd_length sd;
     sd_read_count := sd_read_count sd; sd_refmask := sd_refmask sd;
     sd_alleles := sd_alleles sd; sd_bad := sd_bad sd;
     sd_lowmq_count := sd_lowmq_count sd; sd_lowmq := sd_lowmq sd;
     sd_mq_sum := v; sd_strong := sd_strong sd;
     sd_weak := sd_weak sd; sd_coverage := sd_coverage sd;
     sd_high_coverage := sd_high_coverage sd;
     sd_mean_coverage := sd_mean_coverage sd;
     sd_median_coverage := sd_median_coverage sd;
     sd_coverage_cutoff := sd_coverage_cutoff sd; sd_gaps := sd_gaps sd |}.

Definition set_alleles (sd : ScaffoldCallData) (v : list pileup_cell)
  : ScaffoldCallData :=
  {| sd_name := sd_name sd; sd_length := sd_length sd;
     sd_read_count := sd_read_count sd; sd_refmask := sd_refmask sd;
     sd_alleles := v; sd_bad := sd_bad sd;
     sd_lowmq_count := sd_lowmq_count sd; sd_lowmq := sd_lowmq sd;
     sd_mq_sum := sd_mq_sum sd; sd_strong := sd_strong sd;
     sd_weak := sd_weak sd; sd_coverage := sd_coverage sd;
     sd_high_coverage := sd_high_coverage sd;
     sd_mean_coverage := sd_mean_coverage sd;
     sd_median_coverage := sd_median_coverage sd;
     sd_coverage_cutoff := sd_coverage_cutoff sd; sd_gaps := sd_gaps sd |}.

Definition set_read_count (sd : ScaffoldCallData) (v : Z)
  : ScaffoldCallData :=
  {| sd_name := sd_name sd; sd_length := sd_length sd;
     sd_read_count := v; sd_refmask := sd_refmask sd;
     sd_alleles := sd_alleles sd; sd_bad := sd_bad sd;
     sd_lowmq_count := sd_lowmq_count sd; sd_lowmq := sd_lowmq sd;
     sd_mq_sum := sd_mq_sum sd; sd_strong := sd_strong sd;
     sd_weak := sd_weak sd; sd_coverage := sd_coverage sd;
     sd_high_coverage := sd_high_coverage sd;
     sd_mean_coverage := sd_mean_coverage sd;
     sd_median_coverage := sd_median_coverage sd;
     sd_coverage_cutoff := sd_coverage_cutoff sd; sd_gaps := sd_gaps sd |}.

(** *** Read-only accessors *)

(** [ScaffoldCallData.depth] *)
Definition depth (self : ScaffoldCallData) (loc : Z) : result Z :=
  let! cell := np_get (sd_alleles self) loc in
  Ok (np_sum (counts cell)).

(** [ScaffoldCallData.qual_total] *)
Definition qual_total (self : ScaffoldCallData) (loc : Z) : result Z :=
  let! cell := np_get (sd_alleles self) loc in
  Ok (np_sum (quals cell)).

(** [ScaffoldCallData.total_depth] *)
Definition total_depth (self : ScaffoldCallData) (loc : Z) : result Z :=
  let! d := depth self loc in
  let! l := np_get (sd_lowmq_count self) loc in
  Ok (d + l).

(** [ScaffoldCallData.ref_qual] *)
Definition ref_qual (self : ScaffoldCallData) (loc : Z) : result Z :=
  let! r := np_get (sd_refmask self) loc in
  let! ix := ALLELE_INDEX r in
  let! cell := np_get (sd_alleles self) loc in
  np_get (quals cell) (Z.of_nat ix).

(** [ScaffoldCallData.ref_fraction] *)
Definition ref_fraction (self : ScaffoldCallData) (loc : Z)
  : result npfloat :=
  let! rq := ref_qual self loc in
  let! qt := qual_total self loc in
  Ok (np_true_divide rq qt).

(** [ScaffoldCallData.mean_mq] *)
Definition mean_mq (self : ScaffoldCallData) (loc : Z) : result npfloat :=
  let! d := depth self loc in
  if negb (d =? 0)
  then let! m := np_get (sd_mq_sum self) loc in Ok (np_true_divide m d)
  else Ok (Finite 0).

(** ** Call data aggregate ([class VariantCallData]) *)

Record VariantCallData : Type := mkCallData {
  min_gap_size : Z;
  reference_length : Z;
  scaffolds_data : gmap string ScaffoldCallData;
  cd_mean_coverage : npfloat;
  cd_median_coverage : npfloat;
  uniquely_mapped_reads : Z
}.

(** [VariantCallData.__init__], from the items of the [scaffolds]
    dictionary. *)
Definition new_call_data (scaffolds : list (string * nat)) (min_gap : Z)
  : VariantCallData :=
  {| min_gap_size := min_gap;
     reference_length := foldr Z.add 0 (map (fun kv => Z.of_nat (snd kv)) scaffolds);
     scaffolds_data :=
       list_to_map (map (fun kv => (fst kv, new_scaffold (fst kv) (snd kv)))
                        scaffolds);
     cd_mean_coverage := Finite 0;
     cd_median_coverage := Finite 0;
     uniquely_mapped_reads := 0 |}.

Definition set_scaffold (self : VariantCallData) (name : string)
           (sd : ScaffoldCallData) : VariantCallData :=
  {| min_gap_size := min_gap_size self;
     reference_length := reference_length self;
     scaffolds_data := <[name := sd]> (scaffolds_data self);
     cd_mean_coverage := cd_mean_coverage self;
     cd_median_coverage := cd_median_coverage self;
     uniquely_mapped_reads := uniquely_mapped_reads self |}.

(** [self.scaffolds_data[scaffold]] *)
Definition get_scaffold (self : VariantCallData) (name : string)
  : result ScaffoldCallData :=
  match scaffolds_data self !! name with
  | Some sd => Ok sd
  | None => Raise KeyError
  end.

(** The one message logged at warning level: a position, the scaffold
    and its length. *)
Record warning : Type := mkWarning {
  w_pos : Z;
  w_scaffold : string;
  w_length : Z
}.

(** [VariantCallData.inc_uniquely_mapped_reads] *)
Definition inc_uniquely_mapped_reads (self : VariantCallData)
           (scaffold : string) : result VariantCallData :=
  let self := {| min_gap_size := min_gap_size self;
                 reference_length := reference_length self;
                 scaffolds_data := scaffolds_data self;
                 cd_mean_coverage := cd_mean_coverage self;
                 cd_median_coverage := cd_median_coverage self;
                 uniquely_mapped_reads := uniquely_mapped_reads self + 1 |} in
  let! sd := get_scaffold self scaffold in
  Ok (set_scaffold self scaffold
        (set_read_count sd (sd_read_count sd + 1))).

(** [VariantCallData.bad_read] *)
Definition bad_read (self : VariantCallData) (scaffold : string) (pos : Z)
  : result VariantCallData :=
  let! sd := get_scaffold self scaffold in
  let! bad := np_iadd (sd_bad sd) pos 1 in
  Ok (set_scaffold self scaffold (set_bad sd bad)).

(** [VariantCallData.low_mapping_quality]: the new call data and the
    warnings logged. *)
Definition low_mapping_quality (self : VariantCallData) (scaffold : string)
           (pos : Z) : result (VariantCallData * list warning) :=
  let! sd := get_scaffold self scaffold in
  if sd_length sd <=? pos
  then Ok (self, [mkWarning pos scaffold (sd_length sd)])
  else
    let! lowmq_count := np_iadd (sd_lowmq_count sd) pos 1 in
    Ok (set_scaffold self scaffold (set_lowmq_count sd lowmq_count), []).

(** [VariantCallData.update_mapping_quality] *)
Definition update_mapping_quality (self : VariantCallData)
           (scaffold : string) (pos mapping_quality : Z)
  : result VariantCallData :=
  let! sd := get_scaffold self scaffold in
  let! mq_sum := np_iadd (sd_mq_sum sd) pos mapping_quality in
  Ok (set_scaffold self scaffold (set_mq_sum sd mq_sum)).

(** [alleles[pos, row, ix] += v], [row] being 0 (counts) or 1 (quality
    sums). *)
Definition alleles_iadd (alleles : list pileup_cell) (pos : Z) (row : bool)
           (ix : nat) (v : Z) : result (list pileup_cell) :=
  let! k := np_index (length alleles) pos in
  match alleles !! k with
  | None => Raise IndexError
  | Some cell =>
      if row
      then let! q := np_iadd (quals cell) (Z.of_nat ix) v in
           Ok (<[k := mkCell (counts cell) q]> alleles)
      else let! c := np_iadd (counts cell) (Z.of_nat ix) v in
           Ok (<[k := mkCell c (quals cell)]> alleles)
  end.

(** [VariantCallData.good_read] *)
Definition good_read (self : VariantCallData) (scaffold : string) (pos : Z)
           (allele : Allele.t) (base_quality mapping_quality : Z) (rc : bool)
  : result VariantCallData :=
  let base := if rc then Allele.rc allele else allele in
  let! ix := ALLELE_INDEX base in
  let! scaffold_data := get_scaffold self scaffold in
  let! alleles := alleles_iadd (sd_alleles scaffold_data) pos false ix 1 in
  let! alleles := alleles_iadd alleles pos true ix base_quality in
  let! mq_sum := np_iadd (sd_mq_sum scaffold_data) pos mapping_quality in
  Ok (set_scaffold self scaffold
        (set_mq_sum (set_alleles scaffold_data alleles) mq_sum)).

(** ** Alignment records (what the caller reads of pysam's
       [AlignedSegment], [PileupRead] and [PileupColumn]) *)

(** One entry of the [XA] tag, its text already split at the commas and
    the two integers parsed: scaffold, signed 1-based position, CIGAR,
    mismatch count. *)
Record xa_hit : Type := mkHit {
  xa_scaffold : string;
  xa_pos : Z;
  xa_cigar : string;
  xa_nm : Z
}.

Record AlignedSegment : Type := mkAlignment {
  query_name : string;
  reference_name : string;
  mapping_quality : Z;
  is_paired : bool;
  is_proper_pair : bool;
  is_reverse : bool;
  query_alignment_length : Z;
  query_length : Z;
  template_length : Z;
  reference_start : Z;
  reference_end : Z;
  tag_NM : option Z;
  tag_XA : option (list xa_hit);
  query_qualities : list Z;
  query_sequence : string
}.

Record PileupRead : Type := mkPileupRead {
  alignment : AlignedSegment;
  query_position_or_next : Z;
  is_del : bool;
  indel : Z
}.

Record PileupColumn : Type := mkColumn {
  col_reference_name : string;
  col_reference_pos : Z;
  pileups : list PileupRead
}.

(** [s[i]] on a Python string: a string of one character. *)
Definition str_get (s : string) (i : Z) : result string :=
  let! k := np_index (String.length s) i in
  match String.get k s with
  | Some c => Ok (String c EmptyString)
  | None => Raise IndexError
  end.

(** [c in s] for a single character. *)
Fixpoint str_contains (c : Ascii.ascii) (s : string) : bool :=
  match s with
  | EmptyString => false
  | String c' s' => if Ascii.eqb c c' then true else str_contains c s'
  end.

(** ** The variant caller ([class VariantCaller]) *)

(** The thresholds the caller is constructed with. *)
Record VariantCaller : Type := mkCaller {
  vc_min_qual : Z;
  vc_min_pileup_qual : Z;
  vc_min_qual_frac : PrimFloat.float;
  vc_min_mapping_quality : Z;
  vc_min_gap_size : Z;
  vc_max_num_mismatches : Z
}.

(** What the pileup pass threads through: the caller's
    [discarded_reads], the call data being filled, and the warnings
    logged so far. *)
Record pass_state : Type := mkState {
  discarded_reads : gset string;
  call_data : VariantCallData;
  warnings : list warning
}.

(** The body of the first loop of [VariantCaller.process] (abundance
    estimation) for one alignment. *)
Definition count_alignment (self : VariantCaller) (call : VariantCallData)
           (a : AlignedSegment) : result VariantCallData :=
  if (mapping_quality a <? 3) || bool_decide (is_Some (tag_XA a)) then Ok call
  else if is_paired a && negb (is_proper_pair a) then Ok call
  else if negb (query_alignment_length a =? query_length a) then Ok call
  else if is_paired a && (Z.abs (template_length a) <? query_length a)
       then Ok call
  else
    let too_many :=
      if 0 <? vc_max_num_mismatches self
      then let num_mismatches := default 0 (tag_NM a) in
           vc_max_num_mismatches self <? num_mismatches
      else false in
    if too_many then Ok call
    else inc_uniquely_mapped_reads call (reference_name a).

(** The first loop of [VariantCaller.process]. *)
Fixpoint estimate_abundance (self : VariantCaller) (call : VariantCallData)
         (alignments : list AlignedSegment) : result VariantCallData :=
  match alignments with
  | [] => Ok call
  | a :: rest =>
      let! call := count_alignment self call a in
      estimate_abundance self call rest
  end.

(** [VariantCaller._alternative_locations]: the triples the generator
    yields, in order. *)
Definition alternative_locations (read : AlignedSegment) (loc : Z)
  : result (list (string * Z * bool)) :=
  match tag_XA read with
  | None => Ok []
  | Some xa =>
      match tag_NM read with
      | None => Raise KeyError
      | Some nm =>
          let read_rc := is_reverse read in
          let offset := if read_rc then reference_end read - loc - 1
                        else loc - reference_start read in
          Ok (omap
                (fun aln =>
                   if str_contains "S"%char (xa_cigar aln)
                      || str_contains "H"%char (xa_cigar aln)
                      || str_contains "D"%char (xa_cigar aln)
                      || str_contains "I"%char (xa_cigar aln)
                   then None
                   else if xa_nm aln <=? nm
                        then
                          let rc := xa_pos aln <? 0 in
                          let pos := Z.abs (xa_pos aln) - 1 in
                          let coord :=
                            if rc then pos + query_length read - offset - 1
                            else pos + offset in
                          Some (xa_scaffold aln, coord, xorb rc read_rc)
                        else None)
                xa)
      end
  end.

(** A rejected read is tallied at the current position. *)
Definition record_bad (st : pass_state) (scaffold : string) (refpos : Z)
  : result pass_state :=
  let! call := bad_read (call_data st) scaffold refpos in
  Ok (mkState (discarded_reads st) call (warnings st)).

(** [self.discarded_reads.add(name)] *)
Definition discard (st : pass_state) (name : string) : pass_state :=
  mkState ({[ name ]} ∪ discarded_reads st) (call_data st) (warnings st).

(** The loop of [_assess_alternative_locations] over the yielded
    locations. *)
Fixpoint low_mapping_quality_each (st : pass_state)
         (locs : list (string * Z * bool)) : result pass_state :=
  match locs with
  | [] => Ok st
  | (scaffold, pos, _) :: rest =>
      let! cw := low_mapping_quality (call_data st) scaffold pos in
      low_mapping_quality_each
        (mkState (discarded_reads st) (fst cw) (warnings st ++ snd cw)) rest
  end.

(** [VariantCaller._assess_alternative_locations] *)
Definition assess_alternative_locations (self : VariantCaller)
           (st : pass_state) (refpos : Z) (read : PileupRead)
  : result pass_state :=
  let alignment := alignment read in
  let mq := mapping_quality alignment in
  if mq <? vc_min_mapping_quality self
  then let! locs := alternative_locations alignment refpos in
       low_mapping_quality_each st locs
  else Ok st.

(** The loop at the end of [_assess_read] over the yielded locations. *)
Fixpoint good_read_each (st : pass_state) (base : Allele.t) (qual mq : Z)
         (locs : list (string * Z * bool)) : result pass_state :=
  match locs with
  | [] => Ok st
  | (scaffold, pos, rc) :: rest =>
      let! call := good_read (call_data st) scaffold pos base qual mq rc in
      good_read_each (mkState (discarded_reads st) call (warnings st))
                     base qual mq rest
  end.

(** [VariantCaller._assess_read] *)
Definition assess_read (self : VariantCaller) (st : pass_state)
           (scaffold : string) (refpos : Z) (read : PileupRead)
  : result pass_state :=
  let alignment := alignment read in
  if bool_decide (query_name alignment ∈ discarded_reads st)
  then record_bad st scaffold refpos
  else if is_paired alignment && negb (is_proper_pair alignment)
  then record_bad (discard st (query_name alignment)) scaffold refpos
  else if negb (query_alignment_length alignment =? query_length alignment)
  then record_bad (discard st (query_name alignment)) scaffold refpos
  else if is_paired alignment
          && (Z.abs (template_length alignment) <? query_length alignment)
  then record_bad (discard st (query_name alignment)) scaffold refpos
  else if (0 <? vc_max_num_mismatches self)
          && (vc_max_num_mismatches self <? default 0 (tag_NM alignment))
  then record_bad (discard st (query_name alignment)) scaffold refpos
  else
    let pos := query_position_or_next read in
    let! qual := np_get (query_qualities alignment) pos in
    if qual <? vc_min_qual self then record_bad st scaffold refpos
    else
      let! base :=
        if is_del read then Ok Allele.DEL
        else if 0 <? indel read then Ok Allele.INS
        else let! ch := str_get (query_sequence alignment) pos in
             Ok (Allele.from_str ch) in
      if base =? Allele.N then record_bad st scaffold refpos
      else
        let mq := mapping_quality alignment in
        if mq <? vc_min_mapping_quality self
        then
          let! cw := low_mapping_quality (call_data st) scaffold refpos in
          assess_alternative_locations self
            (mkState (discarded_reads st) (fst cw) (warnings st ++ snd cw))
            refpos read
        else
          let! call :=
            good_read (call_data st) scaffold refpos base qual mq false in
          let st := mkState (discarded_reads st) call (warnings st) in
          if mq <=? 3
          then let! locs := alternative_locations alignment refpos in
               good_read_each st base qual mq locs
          else Ok st.

(** The inner loop of the pileup pass: the reads of one column. *)
Fixpoint assess_column (self : VariantCaller) (st : pass_state)
         (scaffold : string) (refpos : Z) (reads : list PileupRead)
  : result pass_state :=
  match reads with
  | [] => Ok st
  | read :: rest =>
      let! st := assess_read self st scaffold refpos read in
      assess_column self st scaffold refpos rest
  end.

(** The second loop of [VariantCaller.process], started from an empty
    [discarded_reads]. *)
Fixpoint process_columns (self : VariantCaller) (st : pass_state)
         (columns : list PileupColumn) : result pass_state :=
  match columns with
  | [] => Ok st
  | column :: rest =>
      let! st := assess_column self st (col_reference_name column)
                   (col_reference_pos column) (pileups column) in
      process_columns self st rest
  end.

Definition process_pileups (self : VariantCaller) (call : VariantCallData)
           (columns : list PileupColumn) : result pass_state :=
  process_columns self (mkState ∅ call []) columns.

(** The pileup entries in the order the two loops visit them. *)
Definition pileup_entries (columns : list PileupColumn)
  : list (string * Z * PileupRead) :=
  flat_map (fun column =>
              map (fun read => (col_reference_name column,
                                col_reference_pos column, read))
                  (pileups column))
           columns.

Fixpoint assess_entries (self : VariantCaller) (st : pass_state)
         (entries : list (string * Z * PileupRead)) : result pass_state :=
  match entries with
  | [] => Ok st
  | (scaffold, refpos, read) :: rest =>
      let! st := assess_read self st scaffold refpos read in
      assess_entries self st rest
  end.

(** A defect of the whole read, as opposed to one of its bases: filters
    two to five of the chain. *)
Definition whole_read_defect (self : VariantCaller) (a : AlignedSegment)
  : bool :=
  (is_paired a && negb (is_proper_pair a))
  || negb (query_alignment_length a =? query_length a)
  || (is_paired a && (Z.abs (template_length a) <? query_length a))
  || ((0 <? vc_max_num_mismatches self)
      && (vc_max_num_mismatches self <? default 0 (tag_NM a))).

(** The four conditions the abundance pass is described with: mapping
    quality at least 3 and no [XA] tag, properly paired if paired, not
    clipped, template at least as long as the read if paired. *)
Definition passes_listed_checks (a : AlignedSegment) : bool :=
  (3 <=? mapping_quality a) && negb (bool_decide (is_Some (tag_XA a)))
  && (negb (is_paired a) || is_proper_pair a)
  && (query_alignment_length a =? query_length a)
  && (negb (is_paired a)
      || (query_length a <=? Z.abs (template_length a))).

(** The mask sum written bit by bit: allele [k] contributes [2^k] when
    selected. *)
Definition bit_of {X} (p : X -> bool) (xs : list X) (k : nat) : bool :=
  match xs !! k with
  | Some x => p x
  | None => false
  end.

Definition mask_value (b : nat -> bool) : Z :=
  (if b 0%nat then 1 else 0) + (if b 1%nat then 2 else 0) +
  (if b 2%nat then 4 else 0) + (if b 3%nat then 8 else 0) +
  (if b 4%nat then 16 else 0) + (if b 5%nat then 32 else 0).

(** ** Allele model: iteration and formatting *)

(** The members in definition order, as [for allele in Allele] visits
    them. *)
Definition allele_members_all : list Allele.t := Allele.N :: Allele.members.

(** [Allele.__iter__] *)
Definition allele_iter (self : Allele.t) : list Allele.t :=
  filter (fun allele => Z.land self allele <> 0) allele_members_all.

(** [_allele_to_str]: the reverse of [Allele.__members__]. *)
Definition allele_to_str (value : Allele.t) : result string :=
  if value =? Allele.N then Ok "N"%string
  else if value =? Allele.A then Ok "A"%string
  else if value =? Allele.C then Ok "C"%string
  else if value =? Allele.G then Ok "G"%string
  else if value =? Allele.T then Ok "T"%string
  else if value =? Allele.INS then Ok "INS"%string
  else if value =? Allele.DEL then Ok "DEL"%string
  else Raise KeyError.

(** [[f(x) for x in l]] with a fallible [f]. *)
Fixpoint result_map {A B} (f : A -> result B) (l : list A)
  : result (list B) :=
  match l with
  | [] => Ok []
  | x :: l' =>
      let! y := f x in
      let! ys := result_map f l' in
      Ok (y :: ys)
  end.

(** [Allele.__str__]. The elements of [self] are single members, whose
    own [__str__] takes the first branch. *)
Definition allele_str (self : Allele.t) : result string :=
  let alleles := allele_iter self in
  match alleles with
  | [allele] => allele_to_str allele
  | _ =>
      let! names := result_map allele_to_str alleles in
      Ok (String.concat "," names)
  end.

(** ** Well-formed call data *)

(** The range of a [uint32] cell. *)
Definition u32 (z : Z) : Prop := 0 <= z < 2 ^ 32.

(** One position of [alleles]: six cells per row, each in range. *)
Definition cell_ok (c : pileup_cell) : Prop :=
  (length (counts c) = 6%nat /\ length (quals c) = 6%nat) /\
  (Forall u32 (counts c) /\ Forall u32 (quals c)).

(** A scaffold as the constructor and the updates leave it: arrays of
    the scaffold's length, six cells per allele row, every cell in
    range. *)
Definition scaffold_ok (sd : ScaffoldCallData) : Prop :=
  0 <= sd_length sd /\
  Z.of_nat (length (sd_refmask sd)) = sd_length sd /\
  Z.of_nat (length (sd_alleles sd)) = sd_length sd /\
  Z.of_nat (length (sd_bad sd)) = sd_length sd /\
  Z.of_nat (length (sd_lowmq_count sd)) = sd_length sd /\
  Z.of_nat (length (sd_mq_sum sd)) = sd_length sd /\
  Forall cell_ok (sd_alleles sd) /\
  Forall u32 (sd_bad sd) /\
  Forall u32 (sd_lowmq_count sd) /\
  Forall u32 (sd_mq_sum sd).

Definition call_data_ok (cd : VariantCallData) : Prop :=
  map_Forall (fun _ sd => scaffold_ok sd) (scaffolds_data cd).

(** [ScaffoldCallData.allele_count] *)
Definition allele_count (self : ScaffoldCallData) (loc : Z)
           (allele : Allele.t) : result Z :=
  let! ix := ALLELE_INDEX allele in
  let! cell := np_get (sd_alleles self) loc in
  np_get (counts cell) (Z.of_nat ix).

(** [ScaffoldCallData.allele_qual] *)
Definition allele_qual (self : ScaffoldCallData) (loc : Z)
           (allele : Allele.t) : result Z :=
  let! ix := ALLELE_INDEX allele in
  let! cell := np_get (sd_alleles self) loc in
  np_get (quals cell) (Z.of_nat ix).

(** [ScaffoldCallData.ref_count] *)
Definition ref_count (self : ScaffoldCallData) (loc : Z) : result Z :=
  let! r := np_get (sd_refmask self) loc in
  allele_count self loc r.

(** What two call data agree on: the scalars an update never touches,
    the same scaffold names, and a chosen part [proj] of every
    scaffold. *)
Definition keeps {A} (proj : ScaffoldCallData -> A)
           (cd cd' : VariantCallData) : Prop :=
  min_gap_size cd' = min_gap_size cd /\
  reference_length cd' = reference_length cd /\
  forall name,
    proj <$> (scaffolds_data cd' !! name) =
    proj <$> (scaffolds_data cd !! name).

(** The part of a scaffold the pileup pass leaves alone. *)
Definition identity_part (sd : ScaffoldCallData)
  : string * Z * Z * list Z :=
  (sd_name sd, sd_length sd, sd_read_count sd, sd_refmask sd).

(** The part of a scaffold the abundance pass leaves alone. *)
Definition pileup_part (sd : ScaffoldCallData)
  : string * Z * list Z * list pileup_cell * list Z * list Z * list Z :=
  (sd_name sd, sd_length sd, sd_refmask sd, sd_alleles sd, sd_bad sd,
   sd_lowmq_count sd, sd_mq_sum sd).

(** Whether the abundance loop of [VariantCaller.process] gets past its
    five [continue] statements with this alignment. *)
Definition is_counted (self : VariantCaller) (a : AlignedSegment) : bool :=
  negb ((mapping_quality a <? 3) || bool_decide (is_Some (tag_XA a)))
  && negb (is_paired a && negb (is_proper_pair a))
  && (query_alignment_length a =? query_length a)
  && negb (is_paired a && (Z.abs (template_length a) <? query_length a))
  && negb ((0 <? vc_max_num_mismatches self)
           && (vc_max_num_mismatches self <? default 0 (tag_NM a))).

(** The sum of [read_count] over the scaffolds. *)
Definition read_total (cd : VariantCallData) : Z :=
  map_fold (fun _ sd acc => sd_read_count sd + acc) 0 (scaffolds_data cd).

(** The number of reads tallied at a position: those rejected plus
    [total_depth]. *)
Definition tally (sd : ScaffoldCallData) (pos : Z) : result Z :=
  let! b := np_get (sd_bad sd) pos in
  let! t := total_depth sd pos in
  Ok (b + t).

(** No counter of the position is at the largest 32-bit value. *)
Definition has_room (sd : ScaffoldCallData) (pos : Z) : Prop :=
  exists b l cell,
    np_get (sd_bad sd) pos = Ok b /\
    np_get (sd_lowmq_count sd) pos = Ok l /\
    np_get (sd_alleles sd) pos = Ok cell /\
    b < 2 ^ 32 - 1 /\ l < 2 ^ 32 - 1 /\
    Forall (fun c => c < 2 ^ 32 - 1) (counts cell).

(** Between [cd] and [cd'], position [refpos] of [scaffold] has been
    tallied one more read, and nothing else has changed in any tally. *)
Definition counted_once_at (cd cd' : VariantCallData) (scaffold : string)
           (refpos : Z) : Prop :=
  (forall name, name <> scaffold ->
                scaffolds_data cd' !! name = scaffolds_data cd !! name) /\
  exists sd sd',
    get_scaffold cd scaffold = Ok sd /\
    get_scaffold cd' scaffold = Ok sd' /\
    sd_length sd' = sd_length sd /\
    forall pos, 0 <= pos < sd_length sd ->
      exists t, tally sd pos = Ok t /\
                tally sd' pos = Ok (t + (if pos =? refpos then 1 else 0)).

(** ** Reference mask ([VariantCallData.build_refmask]) *)

(** [a[ix] = v] for a boolean array [ix], which must have the length of
    [a]. *)
Definition np_mask_set (a : list Z) (ix : list bool) (v : Z)
  : result (list Z) :=
  if (length ix =? length a)%nat
  then Ok (zip_with (fun (m : bool) x => if m then v else x) ix a)
  else Raise IndexError.

(** [scaffold.values == base] *)
Definition values_eq (values : string) (base : ascii) : list bool :=
  map (fun ch => Ascii.eqb ch base) (String.list_ascii_of_string values).

Definition set_refmask (sd : ScaffoldCallData) (v : list Z)
  : ScaffoldCallData :=
  {| sd_name := sd_name sd; sd_length := sd_length sd;
     sd_read_count := sd_read_count sd; sd_refmask := v;
     sd_alleles := sd_alleles sd; sd_bad := sd_bad sd;
     sd_lowmq_count := sd_lowmq_count sd; sd_lowmq := sd_lowmq sd;
     sd_mq_sum := sd_mq_sum sd; sd_strong := sd_strong sd;
     sd_weak := sd_weak sd; sd_coverage := sd_coverage sd;
     sd_high_coverage := sd_high_coverage sd;
     sd_mean_coverage := sd_mean_coverage sd;
     sd_median_coverage := sd_median_coverage sd;
     sd_coverage_cutoff := sd_coverage_cutoff sd; sd_gaps := sd_gaps sd |}.

(** [zip(bases, alleles)] of [build_refmask]. *)
Definition reference_bases : list (ascii * Allele.t) :=
  [ ("A"%char, Allele.A); ("C"%char, Allele.C);
    ("G"%char, Allele.G); ("T"%char, Allele.T) ].

(** The inner loop of [build_refmask] for the scaffold [name]. *)
Fixpoint mark_bases (cd : VariantCallData) (name : string) (values : string)
         (pairs : list (ascii * Allele.t)) : result VariantCallData :=
  match pairs with
  | [] => Ok cd
  | (base, allele) :: rest =>
      let ix := values_eq values base in
      let! sd := get_scaffold cd name in
      let! refmask := np_mask_set (sd_refmask sd) ix allele in
      mark_bases (set_scaffold cd name (set_refmask sd refmask))
                 name values rest
  end.

(** The outer loop of [build_refmask] over [reference.scaffolds.items()]. *)
Fixpoint build_refmask_loop (cd : VariantCallData)
         (items : list (string * Sequence)) : result VariantCallData :=
  match items with
  | [] => Ok cd
  | (name, scaffold) :: rest =>
      let! cd := mark_bases cd name (seq_values scaffold) reference_bases in
      build_refmask_loop cd rest
  end.

(** [VariantCallData.build_refmask] *)
Definition build_refmask (self : VariantCallData) (reference : Reference)
  : result VariantCallData :=
  build_refmask_loop self (scaffolds reference).

(** The first three statements of [VariantCaller.process]: the call data
    for the scaffolds of the reference, with the reference mask built. *)
Definition init_call_data (self : VariantCaller) (reference : Reference)
  : result VariantCallData :=
  let scaffolds :=
    zip (map fst (scaffolds reference)) (map Z.to_nat (lengths reference)) in
  let call_data := new_call_data scaffolds (vc_min_gap_size self) in
  build_refmask call_data reference.

(** What the four assignments of [build_refmask] leave at a position
    whose reference character is [ch]: the allele of an upper-case A, C,
    G or T, and the initial 0 for anything else. *)
Definition reference_allele (ch : ascii) : Z :=
  if Ascii.eqb ch "T" then Allele.T
  else if Ascii.eqb ch "G" then Allele.G
  else if Ascii.eqb ch "C" then Allele.C
  else if Ascii.eqb ch "A" then Allele.A
  else Allele.N.

(** ** Summary counts ([VariantCallData.summarize]) *)

(** [numpy.count_nonzero] on an integer and on a boolean array. *)
Definition count_nonzero (a : list Z) : Z :=
  np_sum (map (fun x => if x =? 0 then 0 else 1) a).

Definition count_true (a : list bool) : Z :=
  np_sum (map (fun b : bool => if b then 1 else 0) a).

(** [~a] on a [uint8] array. *)
Definition np_invert8 (a : list Z) : list Z := map (fun r => 255 - r) a.

(** The allele counts of one scaffold's entry. *)
Record summary_counts : Type := mkCounts {
  num_callable : Z;
  num_confirmed : Z;
  num_snps : Z;
  num_multi : Z;
  pure_snps : Z
}.

(** The allele statistics the loop of [summarize] computes for one
    scaffold: the arrays [confirmed], [snps] and [multi] and the counts
    taken from them. The percentages go through [utils.pct], which is
    not among the sources; they and the coverage figures are left out. *)
Definition summarize_counts (scaffold : ScaffoldCallData)
  : result summary_counts :=
  match sd_strong scaffold with
  | None => Raise TypeError
  | Some strong =>
      let! confirmed := np_broadcast2 Z.land strong (sd_refmask scaffold) in
      let! snps :=
        np_broadcast2 Z.land strong (np_invert8 (sd_refmask scaffold)) in
      let multi := map (fun s => 0 <? Z.land s (s - 1)) strong in
      let num_callable := count_nonzero strong in
      let num_confirmed := count_nonzero confirmed in
      let num_snps := count_nonzero snps in
      let num_multi := count_true multi in
      let pure_snps := num_snps - num_multi in
      Ok {| num_callable := num_callable;
            num_confirmed := num_confirmed;
            num_snps := num_snps;
            num_multi := num_multi;
            pure_snps := pure_snps |}
  end.

(** The arrays [good_read] writes. *)
Definition good_part (sd : ScaffoldCallData) : list pileup_cell * list Z :=
  (sd_alleles sd, sd_mq_sum sd).

(** Between [cd] and [cd'] one read has been tallied as bad at position
    [refpos] of [scaffold], and nothing else has changed: the cell of
    [bad] the position indexes holds one more (modulo 2^32), every other
    cell of [bad], every other array of the scaffold and every other
    scaffold are what they were. *)
Definition tallied_bad (cd cd' : VariantCallData) (scaffold : string)
           (refpos : Z) : Prop :=
  uniquely_mapped_reads cd' = uniquely_mapped_reads cd /\
  (forall name, name <> scaffold ->
                scaffolds_data cd' !! name = scaffolds_data cd !! name) /\
  exists sd sd' (k : nat) (b : Z),
    scaffolds_data cd !! scaffold = Some sd /\
    scaffolds_data cd' !! scaffold = Some sd' /\
    np_index (length (sd_bad sd)) refpos = Ok k /\
    (0 <= refpos -> k = Z.to_nat refpos) /\
    sd_bad sd !! k = Some b /\
    sd_bad sd' !! k = Some (wrap32 (b + 1)) /\
    (0 <= b -> b + 1 < 2 ^ 32 -> sd_bad sd' !! k = Some (b + 1)) /\
    length (sd_bad sd') = length (sd_bad sd) /\
    (forall j : nat, j <> k -> sd_bad sd' !! j = sd_bad sd !! j) /\
    identity_part sd' = identity_part sd /\
    sd_alleles sd' = sd_alleles sd /\
    sd_lowmq_count sd' = sd_lowmq_count sd /\
    sd_mq_sum sd' = sd_mq_sum sd.

(** ** Sample scaffolds

    Small concrete scaffolds on which the statements below are run. *)

(** Two positions: 80 quality units of T from four reads at the first,
    50 of A from two reads and 51 of C from three at the second; coverage
    computed, nothing marked high. *)
Definition sample_scaffold : ScaffoldCallData :=
  {| sd_name := "contig1";
     sd_length := 2;
     sd_read_count := 0;
     sd_refmask := [Allele.A; Allele.A];
     sd_alleles := [ mkCell [0; 0; 0; 4; 0; 0] [0; 0; 0; 80; 0; 0];
                     mkCell [2; 3; 0; 0; 0; 0] [50; 51; 0; 0; 0; 0] ];
     sd_bad := [0; 0];
     sd_lowmq_count := [0; 0];
     sd_lowmq := None;
     sd_mq_sum := [240; 300];
     sd_strong := None;
     sd_weak := None;
     sd_coverage := Some [4; 5];
     sd_high_coverage := Some [false; false];
     sd_mean_coverage := Finite (9 # 2);
     sd_median_coverage := Finite (9 # 2);
     sd_coverage_cutoff := 19;
     sd_gaps := [] |}.

(** One position with 60 quality units of A and 140 of C: the share of A
    is 60/200, which as a [float64] is the same number as the threshold
    0.3. *)
Definition rounded_scaffold : ScaffoldCallData :=
  {| sd_name := "contig6";
     sd_length := 1;
     sd_read_count := 0;
     sd_refmask := [Allele.A];
     sd_alleles := [ mkCell [2; 5; 0; 0; 0; 0] [60; 140; 0; 0; 0; 0] ];
     sd_bad := [0];
     sd_lowmq_count := [0];
     sd_lowmq := None;
     sd_mq_sum := [420];
     sd_strong := None;
     sd_weak := None;
     sd_coverage := Some [7];
     sd_high_coverage := Some [false];
     sd_mean_coverage := Finite 7;
     sd_median_coverage := Finite 7;
     sd_coverage_cutoff := 25;
     sd_gaps := [] |}.

(** A constant filler for the cells [numpy.divide] leaves unwritten. *)
Definition sample_garbage : nat -> nat -> PrimFloat.float :=
  fun _ _ => np_float64 7.

(** The Poisson quantile at 0.9999999 for the means the sample scaffolds
    have: 7 at mean 0.5, 20 at mean 5, and 30 (the value at mean 10)
    elsewhere. *)
Definition sample_ppf (q mu : Q) : Q :=
  if Qeq_bool mu (1 # 2) then 7
  else if Qeq_bool mu 5 then 20
  else 30.

(** A scaffold of three positions covered a hundred times each. *)
Definition deep_scaffold : ScaffoldCallData :=
  {| sd_name := "contig2";
     sd_length := 3;
     sd_read_count := 0;
     sd_refmask := [Allele.A; Allele.C; Allele.G];
     sd_alleles := [ mkCell [100; 0; 0; 0; 0; 0] [3000; 0; 0; 0; 0; 0];
                     mkCell [0; 98; 0; 0; 0; 0] [0; 2900; 0; 0; 0; 0];
                     mkCell [0; 0; 100; 0; 0; 166] [0; 0; 3000; 0; 0; 4000] ];
     sd_bad := [0; 0; 0];
     sd_lowmq_count := [0; 2; 0];
     sd_lowmq := None;
     sd_mq_sum := [6000; 5880; 15960];
     sd_strong := None;
     sd_weak := None;
     sd_coverage := None;
     sd_high_coverage := None;
     sd_mean_coverage := Finite 0;
     sd_median_coverage := Finite 0;
     sd_coverage_cutoff := 0;
     sd_gaps := [] |}.

(** The sample scaffold as the pileup pass leaves it, before any
    post-processing, with a pile of reads at the first position. *)
Definition sample_raw_scaffold : ScaffoldCallData :=
  {| sd_name := "contig1";
     sd_length := 3;
     sd_read_count := 0;
     sd_refmask := [Allele.A; Allele.A; Allele.G];
     sd_alleles := [ mkCell [0; 0; 0; 40; 0; 0] [0; 0; 0; 800; 0; 0];
                     mkCell [2; 3; 0; 0; 0; 0] [50; 51; 0; 0; 0; 0];
                     mkCell [0; 0; 4; 0; 0; 0] [0; 0; 90; 0; 0; 0] ];
     sd_bad := [0; 0; 0];
     sd_lowmq_count := [0; 0; 1];
     sd_lowmq := None;
     sd_mq_sum := [2400; 300; 240];
     sd_strong := None;
     sd_weak := None;
     sd_coverage := None;
     sd_high_coverage := None;
     sd_mean_coverage := Finite 0;
     sd_median_coverage := Finite 0;
     sd_coverage_cutoff := 0;
     sd_gaps := [] |}.

(** Call data for a reference of one scaffold of two bases, as
    [VariantCaller.process] creates it. *)
Definition sample_call_data : VariantCallData :=
  new_call_data [("contig1"%string, 2%nat)] 2000.

(** A scaffold nothing was aligned to: the reference bases are known, all
    counts are zero. *)
Definition uncovered_scaffold : ScaffoldCallData :=
  {| sd_name := "contig3";
     sd_length := 2;
     sd_read_count := 0;
     sd_refmask := [Allele.A; Allele.C];
     sd_alleles := replicate 2 (mkCell (replicate 6 0) (replicate 6 0));
     sd_bad := [0; 0];
     sd_lowmq_count := [0; 0];
     sd_lowmq := None;
     sd_mq_sum := [0; 0];
     sd_strong := None;
     sd_weak := None;
     sd_coverage := None;
     sd_high_coverage := None;
     sd_mean_coverage := Finite 0;
     sd_median_coverage := Finite 0;
     sd_coverage_cutoff := 0;
     sd_gaps := [] |}.

(** The thresholds of the command line, with at most three mismatches
    allowed. *)
Definition sample_caller : VariantCaller :=
  {| vc_min_qual := 5;
     vc_min_pileup_qual := 50;
     vc_min_qual_frac := float_ratio 1 10;
     vc_min_mapping_quality := 5;
     vc_min_gap_size := 2000;
     vc_max_num_mismatches := 3 |}.

(** The same with the mismatch filter switched off. *)
Definition lenient_caller : VariantCaller :=
  {| vc_min_qual := 5;
     vc_min_pileup_qual := 50;
     vc_min_qual_frac := float_ratio 1 10;
     vc_min_mapping_quality := 5;
     vc_min_gap_size := 2000;
     vc_max_num_mismatches := 0 |}.

(** A uniquely mapped, properly paired, unclipped read of two bases with
    [nm] mismatches and the given base qualities. *)
Definition sample_read (name : string) (nm : Z) (quals : list Z)
  : AlignedSegment :=
  {| query_name := name;
     reference_name := "contig1";
     mapping_quality := 60;
     is_paired := true;
     is_proper_pair := true;
     is_reverse := false;
     query_alignment_length := 2;
     query_length := 2;
     template_length := 10;
     reference_start := 0;
     reference_end := 2;
     tag_NM := Some nm;
     tag_XA := None;
     query_qualities := quals;
     query_sequence := "AC" |}.

(** The pileup entry of a read at offset [pos] into it. *)
Definition at_offset (a : AlignedSegment) (pos : Z) : PileupRead :=
  {| alignment := a; query_position_or_next := pos;
     is_del := false; indel := 0 |}.

(** A reference of two scaffolds, four and two bases long. *)
Definition sample_reference : Reference :=
  new_reference [ mkSequence "contig1" "ACGT"; mkSequence "contig2" "GG" ].

(** Six positions after allele calling: a weak call at the first and the
    fifth, nothing in between, a pile of low-mapping-quality reads at the
    last. *)
Definition gapped_scaffold : ScaffoldCallData :=
  {| sd_name := "contig4";
     sd_length := 6;
     sd_read_count := 0;
     sd_refmask := [Allele.A; Allele.C; Allele.G; Allele.T; Allele.A;
                    Allele.C];
     sd_alleles := [ mkCell [3; 0; 0; 0; 0; 0] [90; 0; 0; 0; 0; 0];
                     mkCell [0; 0; 0; 0; 0; 0] [0; 0; 0; 0; 0; 0];
                     mkCell [0; 0; 0; 0; 0; 0] [0; 0; 0; 0; 0; 0];
                     mkCell [0; 0; 0; 0; 0; 0] [0; 0; 0; 0; 0; 0];
                     mkCell [2; 0; 0; 0; 0; 0] [60; 0; 0; 0; 0; 0];
                     mkCell [0; 0; 0; 0; 0; 0] [0; 0; 0; 0; 0; 0] ];
     sd_bad := [0; 0; 0; 0; 0; 0];
     sd_lowmq_count := [0; 1; 0; 0; 0; 4];
     sd_lowmq := None;
     sd_mq_sum := [180; 0; 0; 0; 120; 0];
     sd_strong := Some [Allele.A; 0; 0; 0; Allele.A; 0];
     sd_weak := Some [Allele.A; 0; 0; 0; Allele.A; 0];
     sd_coverage := Some [3; 1; 0; 0; 2; 4];
     sd_high_coverage := Some [false; false; false; false; false; false];
     sd_mean_coverage := Finite (5 # 3);
     sd_median_coverage := Finite (3 # 2);
     sd_coverage_cutoff := 12;
     sd_gaps := [] |}.

(** A scaling factor of one, whatever the coverage. *)
Definition unit_factor : npfloat -> PrimFloat.float :=
  fun _ => PrimFloat.one.

(** A scaling factor of one half, and one of a tenth. *)
Definition half_factor : npfloat -> PrimFloat.float :=
  fun _ => float_ratio 1 2.

Definition tenth_factor : npfloat -> PrimFloat.float :=
  fun _ => float_ratio 1 10.

(** Call data for one scaffold of three bases. *)
Definition three_base_call_data : VariantCallData :=
  new_call_data [("contig1"%string, 3%nat)] 2000.

(** An unpaired read of two bases aligned with a deletion (1M1D1M) from
    the start of the scaffold, mapping quality 3, with one alternative
    hit: ungapped (2M) on the last two bases of the scaffold. *)
Definition repeat_read : AlignedSegment :=
  {| query_name := "read3";
     reference_name := "contig1";
     mapping_quality := 3;
     is_paired := false;
     is_proper_pair := false;
     is_reverse := false;
     query_alignment_length := 2;
     query_length := 2;
     template_length := 0;
     reference_start := 0;
     reference_end := 3;
     tag_NM := Some 1;
     tag_XA := Some [mkHit "contig1" 2 "2M" 0];
     query_qualities := [30; 30];
     query_sequence := "AC" |}.

(** A caller that accepts mapping quality 3. *)
Definition permissive_caller : VariantCaller :=
  {| vc_min_qual := 5;
     vc_min_pileup_qual := 50;
     vc_min_qual_frac := float_ratio 1 10;
     vc_min_mapping_quality := 3;
     vc_min_gap_size := 2000;
     vc_max_num_mismatches := 0 |}.

(** One alignment and the two pileup columns it covers, with a second
    read of poor base quality in the first column. *)
Definition sample_alignments : list AlignedSegment :=
  [ sample_read "read1" 0 [30; 30] ].

Definition sample_columns : list PileupColumn :=
  [ mkColumn "contig1" 0 [ at_offset (sample_read "read1" 0 [30; 30]) 0;
                           at_offset (sample_read "read2" 0 [2; 30]) 0 ];
    mkColumn "contig1" 1 [ at_offset (sample_read "read1" 0 [30; 30]) 1 ] ].

(** A column with a read of five mismatches beside a clean one. *)
Definition mismatched_columns : list PileupColumn :=
  [ mkColumn "contig1" 0 [ at_offset (sample_read "read1" 0 [30; 30]) 0;
                           at_offset (sample_read "read9" 5 [30; 30]) 0 ] ].

(** An unpaired, ungapped read of two bases at the start of the scaffold,
    mapping quality 0, with one alternative hit on the reverse strand. *)
Definition mirrored_read : AlignedSegment :=
  {| query_name := "read4";
     reference_name := "contig1";
     mapping_quality := 0;
     is_paired := false;
     is_proper_pair := false;
     is_reverse := false;
     query_alignment_length := 2;
     query_length := 2;
     template_length := 0;
     reference_start := 0;
     reference_end := 2;
     tag_NM := Some 1;
     tag_XA := Some [mkHit "contig2" (-3) "2M" 1];
     query_qualities := [30; 30];
     query_sequence := "AC" |}.

(** A FASTA file of one record whose second base is unknown. *)
Definition masked_records : list Sequence := [ mkSequence "contig1" "AN" ].

(** Five positions after allele calling: the reference base confirmed,
    another base called, two bases called of which one is the reference,
    nothing called, and a deletion called. *)
Definition called_scaffold : ScaffoldCallData :=
  {| sd_name := "contig5";
     sd_length := 5;
     sd_read_count := 0;
     sd_refmask := [Allele.A; Allele.C; Allele.A; Allele.T; Allele.N];
     sd_alleles := [ mkCell [3; 0; 0; 0; 0; 0] [90; 0; 0; 0; 0; 0];
                     mkCell [0; 0; 3; 0; 0; 0] [0; 0; 90; 0; 0; 0];
                     mkCell [3; 0; 0; 3; 0; 0] [90; 0; 0; 90; 0; 0];
                     mkCell [0; 0; 0; 0; 0; 0] [0; 0; 0; 0; 0; 0];
                     mkCell [0; 0; 0; 0; 0; 3] [0; 0; 0; 0; 0; 90] ];
     sd_bad := [0; 0; 0; 0; 0];
     sd_lowmq_count := [0; 0; 0; 0; 0];
     sd_lowmq := None;
     sd_mq_sum := [180; 180; 360; 0; 180];
     sd_strong := Some [Allele.A; Allele.G; Z.lor Allele.A Allele.T; 0;
                        Allele.DEL];
     sd_weak := Some [Allele.A; Allele.G; Z.lor Allele.A Allele.T; 0;
                      Allele.DEL];
     sd_coverage := Some [3; 3; 6; 0; 3];
     sd_high_coverage := Some [false; false; false; false; false];
     sd_mean_coverage := Finite 3;
     sd_median_coverage := Finite 3;
     sd_coverage_cutoff := 15;
     sd_gaps := [] |}.

(** ** Allele model: properties *)

(** C9. [rc] swaps A with T and C with G, undoes itself on these four
    values, and returns every other allele value unchanged: the empty
    mask, INS, DEL, and every mask with more than one bit. *)
Theorem rc_involution_identity :
  Allele.rc Allele.A = Allele.T /\ Allele.rc Allele.T = Allele.A /\
  Allele.rc Allele.C = Allele.G /\ Allele.rc Allele.G = Allele.C /\
  (forall a, Allele.is_base a -> Allele.rc (Allele.rc a) = a) /\
  (forall a, ~ Allele.is_base a -> Allele.rc a = a) /\
  Allele.rc Allele.N = Allele.N /\
  Allele.rc Allele.INS = Allele.INS /\
  Allele.rc Allele.DEL = Allele.DEL /\
  (forall a b, Allele.is_base a -> Allele.is_base b -> a <> b ->
               Allele.rc (Z.lor a b) = Z.lor a b).
Proof.
  repeat split; try reflexivity.
  - intros a [-> | [-> | [-> | ->]]]; reflexivity.
  - intros a Hn. unfold Allele.rc, Allele.is_base in *.
    repeat match goal with
    | |- context [ ?x =? ?y ] => destruct (Z.eqb_spec x y); [ tauto | ]
    end.
    reflexivity.
  - intros a b [-> | [-> | [-> | ->]]] [-> | [-> | [-> | ->]]] Hab;
      try reflexivity; congruence.
Qed.

(** ** The shape of a fresh scaffold *)

Lemma new_scaffold_shape name len : scaffold_shape (new_scaffold name len).
Proof.
  constructor; cbn; rewrite ?length_replicate; try lia.
  apply Forall_replicate. split; reflexivity.
Qed.

(** ** Allele calling: properties *)

(** Summing the masks of the selected alleles sets exactly their bits. *)
Lemma mask_sum_testbit {X} (p : X -> bool) (xs : list X) (a : nat) (x : X) :
  length xs = 6%nat ->
  xs !! a = Some x ->
  Z.testbit
    (np_sum (zip_with (fun y m => if p y then m else 0) xs ALLELE_MASKS))
    (Z.of_nat a) = p x.
Proof.
  intros Hlen Hx.
  do 7 (destruct xs as [ | ? xs ]; try discriminate Hlen).
  do 6 (destruct a as [ | a ];
        [ injection Hx as ->; cbn;
          repeat match goal with
                 | |- context [ if p ?y then _ else _ ] => destruct (p y)
                 end; reflexivity | ]).
  discriminate Hx.
Qed.

Lemma np_sum_nonneg (qs : list Z) :
  Forall (fun q => 0 <= q) qs -> 0 <= np_sum qs.
Proof.
  unfold np_sum. induction 1 as [ | q qs Hq _ IH ]; cbn; lia.
Qed.

Lemma np_sum_member_le (qs : list Z) (a : nat) (q : Z) :
  Forall (fun q => 0 <= q) qs -> qs !! a = Some q -> q <= np_sum qs.
Proof.
  intros Hall. revert a.
  induction Hall as [ | q0 qs Hq Hall IH ]; intros a Ha.
  - discriminate Ha.
  - pose proof (np_sum_nonneg qs Hall) as Hs.
    unfold np_sum in *.
    destruct a as [ | a ]; cbn in *.
    + injection Ha as ->. lia.
    + specialize (IH a Ha). lia.
Qed.

Lemma np_mask_zero_lookup_false hc a a' (i : nat) :
  np_mask_zero (Some hc) a = Ok a' ->
  hc !! i = Some false ->
  a' !! i = a !! i.
Proof.
  unfold np_mask_zero. intros H Hi.
  destruct (length hc =? length a)%nat eqn:E; [ | discriminate H ].
  injection H as <-.
  apply Nat.eqb_eq in E.
  rewrite lookup_zip_with, Hi. cbn.
  destruct (a !! i); reflexivity.
Qed.

Lemma np_mask_zero_lookup_true hc a a' (i : nat) :
  np_mask_zero (Some hc) a = Ok a' ->
  hc !! i = Some true ->
  a' !! i = Some 0.
Proof.
  unfold np_mask_zero. intros H Hi.
  destruct (length hc =? length a)%nat eqn:E; [ | discriminate H ].
  injection H as <-.
  apply Nat.eqb_eq in E.
  rewrite lookup_zip_with, Hi. cbn.
  destruct (a !! i) eqn:Ha; [ reflexivity | ].
  apply lookup_ge_None in Ha. apply lookup_lt_Some in Hi. lia.
Qed.

(** The bit of allele [a] in the strong mask computed at one position. *)
Lemma strong_at_testbit garbage mpq mqf (i : nat) (qs : list Z) (a : nat) q :
  0 <= mpq ->
  length qs = 6%nat ->
  Forall (fun q => 0 <= q) qs ->
  qs !! a = Some q ->
  Z.testbit (strong_at garbage mpq mqf i qs) (Z.of_nat a) =
  (mpq <? q)
  && PrimFloat.ltb mqf (PrimFloat.div (np_float64 q) (np_float64 (np_sum qs))).
Proof.
  intros Hmpq Hlen Hnn Ha.
  unfold strong_at.
  set (frac := if 0 <? np_sum qs
               then PrimFloat.div (np_float64 q) (np_float64 (np_sum qs))
               else garbage i a).
  rewrite (mask_sum_testbit _ _ a (q, frac)).
  - cbn [fst snd]. subst frac.
    destruct (0 <? np_sum qs) eqn:Hs; [ reflexivity | ].
    apply Z.ltb_ge in Hs.
    pose proof (np_sum_member_le qs a q Hnn Ha) as Hle.
    assert (Hq : (mpq <? q) = false) by (apply Z.ltb_ge; lia).
    rewrite Hq. reflexivity.
  - rewrite length_zip. unfold qual_fraction. rewrite length_imap. lia.
  - rewrite lookup_zip_with. rewrite Ha. cbn.
    unfold qual_fraction. rewrite list_lookup_imap, Ha. reflexivity.
Qed.

Lemma Qltb_lt (x y : Q) : Qltb x y = true <-> (x < y)%Q.
Proof.
  unfold Qltb. rewrite negb_true_iff.
  split.
  - intros H. apply Qnot_le_lt. intros Hle.
    apply Qle_bool_iff in Hle. congruence.
  - intros H. destruct (Qle_bool y x) eqn:E; [ | reflexivity ].
    apply Qle_bool_iff in E. exfalso. exact (Qlt_not_le _ _ H E).
Qed.

(** The strong mask of a position that is not marked high-coverage, when
    [call_alleles] returns. *)
Lemma call_alleles_strong_bits
    garbage mpq mqf self self' (i : nat) c hc :
  0 < mpq ->
  call_alleles garbage mpq mqf self = Ok self' ->
  sd_alleles self !! i = Some c ->
  length (quals c) = 6%nat ->
  Forall (fun q => 0 <= q) (quals c) ->
  sd_high_coverage self = Some hc ->
  hc !! i = Some false ->
  exists strong s,
    sd_strong self' = Some strong /\ strong !! i = Some s /\
    (forall a q, quals c !! a = Some q ->
       Z.testbit s (Z.of_nat a) = true <->
       mpq < q /\
       PrimFloat.ltb mqf (PrimFloat.div (np_float64 q)
                                        (np_float64 (np_sum (quals c))))
       = true) /\
    (forall a, quals c !! a = Some mpq ->
       Z.testbit s (Z.of_nat a) = false) /\
    (forall a, quals c !! a = Some (mpq + 1) ->
       PrimFloat.ltb mqf (PrimFloat.div (np_float64 (mpq + 1))
                                        (np_float64 (np_sum (quals c))))
       = true ->
       Z.testbit s (Z.of_nat a) = true).
Proof.
  intros Hmpq Hcall Hc Hlen Hnn Hhc Hi.
  unfold call_alleles in Hcall. rewrite Hhc in Hcall.
  destruct (np_mask_zero (Some hc) (map _ _)) as [ weak | ] eqn:Hw;
    [ | discriminate Hcall ].
  cbn [rbind] in Hcall.
  destruct (np_mask_zero (Some hc) (imap _ _)) as [ strong | ] eqn:Hs;
    [ | discriminate Hcall ].
  cbn [rbind] in Hcall. injection Hcall as <-. cbn [sd_strong].
  pose proof (np_mask_zero_lookup_false _ _ _ i Hs Hi) as Hsi.
  rewrite list_lookup_imap, Hc in Hsi. cbn in Hsi.
  exists strong, (strong_at garbage mpq mqf i (quals c)).
  assert (Hbit : forall a q, quals c !! a = Some q ->
            Z.testbit (strong_at garbage mpq mqf i (quals c)) (Z.of_nat a) =
            (mpq <? q) &&
            PrimFloat.ltb mqf
              (PrimFloat.div (np_float64 q)
                             (np_float64 (np_sum (quals c))))).
  { intros a q Ha. apply strong_at_testbit; auto; lia. }
  split; [ reflexivity | ]. split; [ exact Hsi | ].
  split; [ | split ].
  - intros a q Ha. rewrite (Hbit a q Ha), andb_true_iff, Z.ltb_lt.
    reflexivity.
  - intros a Ha. rewrite (Hbit a mpq Ha).
    rewrite Z.ltb_irrefl. reflexivity.
  - intros a Ha Hf. rewrite (Hbit a _ Ha).
    apply andb_true_iff. split; [ apply Z.ltb_lt; lia | exact Hf ].
Qed.

Lemma np_mask_zero_total mask (a : list Z) :
  (forall m, mask = Some m -> length m = length a) ->
  exists a', np_mask_zero mask a = Ok a'.
Proof.
  intros H. unfold np_mask_zero. destruct mask as [ m | ].
  - rewrite (H m eq_refl), Nat.eqb_refl. eauto.
  - eauto.
Qed.

(** [call_alleles] returns whenever the high-coverage mask, if there is
    one, has the length of the scaffold. *)
Lemma call_alleles_total garbage mpq mqf self :
  (forall hc, sd_high_coverage self = Some hc ->
              length hc = length (sd_alleles self)) ->
  exists self', call_alleles garbage mpq mqf self = Ok self'.
Proof.
  intros H. unfold call_alleles.
  destruct (np_mask_zero_total (sd_high_coverage self)
              (map (fun c => weak_at (quals c)) (sd_alleles self)))
    as [ weak -> ].
  { intros m Hm. rewrite length_map. apply H. exact Hm. }
  cbn [rbind].
  destruct (np_mask_zero_total (sd_high_coverage self)
              (imap (fun i c => strong_at garbage mpq mqf i (quals c))
                    (sd_alleles self)))
    as [ strong -> ].
  { intros m Hm. rewrite length_imap. apply H. exact Hm. }
  cbn [rbind]. eauto.
Qed.

(** C1. With a positive [min_pileup_qual], at a position that is not
    marked high-coverage, [call_alleles] sets the bit of allele [a] in
    [strong] exactly when that allele's quality sum is strictly above
    [min_pileup_qual] and its share of the position's quality is strictly
    above [min_qual_frac]. The share is the [float64] quotient numpy
    computes and the comparison is between two [float64] values: 60 of
    200 is not above the [float64] 0.3, which it rounds to. A quality
    equal to [min_pileup_qual] is not called; one unit more, with a
    share above [min_qual_frac], is. *)
Theorem call_alleles_strong_strict garbage mpq mqf self (i : nat) c hc :
  0 < mpq ->
  sd_high_coverage self = Some hc ->
  length hc = length (sd_alleles self) ->
  sd_alleles self !! i = Some c ->
  length (quals c) = 6%nat ->
  Forall (fun q => 0 <= q) (quals c) ->
  hc !! i = Some false ->
  exists self' strong s,
    call_alleles garbage mpq mqf self = Ok self' /\
    sd_strong self' = Some strong /\ strong !! i = Some s /\
    (forall a q, quals c !! a = Some q ->
       Z.testbit s (Z.of_nat a) = true <->
       mpq < q /\
       PrimFloat.ltb mqf (PrimFloat.div (np_float64 q)
                                        (np_float64 (np_sum (quals c))))
       = true) /\
    (forall a, quals c !! a = Some mpq ->
       Z.testbit s (Z.of_nat a) = false) /\
    (forall a, quals c !! a = Some (mpq + 1) ->
       PrimFloat.ltb mqf (PrimFloat.div (np_float64 (mpq + 1))
                                        (np_float64 (np_sum (quals c))))
       = true ->
       Z.testbit s (Z.of_nat a) = true).
Proof.
  intros Hmpq Hhc Hlen Hc Hcell Hnn Hi.
  destruct (call_alleles_total garbage mpq mqf self) as [ self' Hcall ].
  { intros hc' Hhc'. rewrite Hhc in Hhc'. injection Hhc' as <-. exact Hlen. }
  destruct (call_alleles_strong_bits garbage mpq mqf self self' i c hc
              Hmpq Hcall Hc Hcell Hnn Hhc Hi)
    as (strong & s & Hs & Hsi & Hbits).
  exists self', strong, s. split; [ exact Hcall | ].
  split; [ exact Hs | ]. split; [ exact Hsi | exact Hbits ].
Qed.

Lemma call_alleles_strong_strict_witness :
  (exists self' strong s,
     call_alleles sample_garbage 50 (float_ratio 1 10) sample_scaffold
       = Ok self' /\
     sd_strong self' = Some strong /\ strong !! 1%nat = Some s /\
     Z.testbit s 0 = false /\ Z.testbit s 1 = true) /\
  (exists self' strong s,
     call_alleles sample_garbage 50 (float_ratio 3 10) rounded_scaffold
       = Ok self' /\
     sd_strong self' = Some strong /\ strong !! 0%nat = Some s /\
     Z.testbit s 0 = false /\ Z.testbit s 1 = true).
Proof.
  split.
  - destruct (call_alleles_strong_strict
                sample_garbage 50 (float_ratio 1 10) sample_scaffold 1%nat
                (mkCell [2; 3; 0; 0; 0; 0] [50; 51; 0; 0; 0; 0])
                [false; false])
      as (self' & strong & s & Hcall & Hstrong & Hs & _ & Heq & Habove).
    + lia.
    + reflexivity.
    + reflexivity.
    + reflexivity.
    + reflexivity.
    + cbn. repeat constructor; lia.
    + reflexivity.
    + exists self', strong, s.
      split; [ exact Hcall | ]. split; [ exact Hstrong | ].
      split; [ exact Hs | ]. split.
      * apply (Heq 0%nat). reflexivity.
      * apply (Habove 1%nat); reflexivity.
  - destruct (call_alleles_strong_strict
                sample_garbage 50 (float_ratio 3 10) rounded_scaffold 0%nat
                (mkCell [2; 5; 0; 0; 0; 0] [60; 140; 0; 0; 0; 0])
                [false])
      as (self' & strong & s & Hcall & Hstrong & Hs & Hiff & _ & _).
    + lia.
    + reflexivity.
    + reflexivity.
    + reflexivity.
    + reflexivity.
    + cbn. repeat constructor; lia.
    + reflexivity.
    + exists self', strong, s.
      split; [ exact Hcall | ]. split; [ exact Hstrong | ].
      split; [ exact Hs | ]. split.
      * destruct (Z.testbit s 0) eqn:E; [ | reflexivity ].
        apply (Hiff 0%nat 60 eq_refl) in E as [ _ E ].
        vm_compute in E. discriminate E.
      * apply (Hiff 1%nat 140 eq_refl). split; [ lia | reflexivity ].
Defined.

(** ** Strong calls are weak calls *)

Lemma mask_sum_value {X} (p : X -> bool) (xs : list X) :
  np_sum (zip_with (fun y m => if p y then m else 0) xs ALLELE_MASKS) =
  mask_value (bit_of p xs).
Proof.
  unfold mask_value, bit_of.
  do 7 (destruct xs as [ | ? xs ]; [ cbn;
    repeat match goal with
           | |- context [ if p ?y then _ else _ ] => destruct (p y)
           end; reflexivity | ]).
  cbn.
  repeat match goal with
         | |- context [ if p ?y then _ else _ ] => destruct (p y)
         end; reflexivity.
Qed.

Lemma mask_value_bits (b : nat -> bool) (n : Z) :
  Z.testbit (mask_value b) n = true ->
  exists k, (k < 6)%nat /\ n = Z.of_nat k /\ b k = true.
Proof.
  intros H.
  assert (Hrange : 0 <= mask_value b < 64).
  { unfold mask_value.
    destruct (b 0%nat), (b 1%nat), (b 2%nat), (b 3%nat), (b 4%nat),
      (b 5%nat); lia. }
  assert (Hn : 0 <= n < 6).
  { destruct (Z.ltb_spec n 0) as [ Hneg | Hpos ].
    - rewrite Z.testbit_neg_r in H by exact Hneg. discriminate H.
    - split; [ exact Hpos | ].
      destruct (Z.ltb_spec n 6) as [ Hlt | Hge ]; [ exact Hlt | ].
      destruct (Z.eq_dec (mask_value b) 0) as [ E | E ].
      + rewrite E, Z.bits_0 in H. discriminate H.
      + rewrite Z.bits_above_log2 in H; [ discriminate H | lia | ].
        assert (Z.log2 (mask_value b) < 6)
          by (apply Z.log2_lt_pow2; change (2 ^ 6) with 64; lia).
        lia. }
  assert (Hcases : n = 0 \/ n = 1 \/ n = 2 \/ n = 3 \/ n = 4 \/ n = 5) by lia.
  unfold mask_value in H.
  destruct Hcases as [ -> | [ -> | [ -> | [ -> | [ -> | -> ] ] ] ] ];
    [ exists 0%nat | exists 1%nat | exists 2%nat
    | exists 3%nat | exists 4%nat | exists 5%nat ];
    (split; [ lia | split; [ reflexivity | ] ]);
    destruct (b 0%nat), (b 1%nat), (b 2%nat), (b 3%nat), (b 4%nat),
      (b 5%nat); first [ reflexivity | discriminate H ].
Qed.

Lemma mask_value_bit_set (b : nat -> bool) (k : nat) :
  (k < 6)%nat -> b k = true -> Z.testbit (mask_value b) (Z.of_nat k) = true.
Proof.
  intros Hk Hb. unfold mask_value.
  do 6 (destruct k as [ | k ];
        [ rewrite Hb;
          destruct (b 0%nat), (b 1%nat), (b 2%nat), (b 3%nat), (b 4%nat),
            (b 5%nat); first [ reflexivity | discriminate Hb ] | ]).
  lia.
Qed.

(** At one position every strongly called allele is weakly called. *)
Lemma strong_at_bits_weak garbage mpq mqf (i : nat) (qs : list Z) (n : Z) :
  0 < mpq ->
  Z.testbit (strong_at garbage mpq mqf i qs) n = true ->
  Z.testbit (weak_at qs) n = true.
Proof.
  intros Hmpq H.
  unfold strong_at in H. rewrite mask_sum_value in H.
  apply mask_value_bits in H as (k & Hk & -> & Hb).
  unfold weak_at. rewrite mask_sum_value.
  apply mask_value_bit_set; [ exact Hk | ].
  unfold bit_of in *.
  rewrite lookup_zip_with in Hb.
  destruct (qs !! k) as [ q | ] eqn:Hq; [ | discriminate Hb ].
  cbn in Hb.
  destruct (qual_fraction garbage i qs !! k) as [ f | ];
    [ | discriminate Hb ].
  cbn in Hb. apply andb_true_iff in Hb as [ Hb _ ].
  apply Z.ltb_lt in Hb. apply Z.ltb_lt. lia.
Qed.

Lemma np_mask_zero_length mask a a' :
  np_mask_zero mask a = Ok a' -> length a' = length a.
Proof.
  unfold np_mask_zero. destruct mask as [ m | ].
  - destruct (length m =? length a)%nat eqn:E; [ | discriminate ].
    apply Nat.eqb_eq in E. intros [= <-].
    rewrite length_zip_with. lia.
  - intros [= <-]. apply length_map.
Qed.

Lemma np_mask_zero_mask_length m a a' :
  np_mask_zero (Some m) a = Ok a' -> length m = length a.
Proof.
  unfold np_mask_zero.
  destruct (length m =? length a)%nat eqn:E; [ | discriminate ].
  intros _. apply Nat.eqb_eq in E. exact E.
Qed.

(** The invariant of [call_alleles] alone, whatever the mask is. *)
Lemma call_alleles_invariant garbage mpq mqf self self' :
  0 < mpq ->
  call_alleles garbage mpq mqf self = Ok self' ->
  exists strong weak,
    sd_strong self' = Some strong /\ sd_weak self' = Some weak /\
    sd_high_coverage self' = sd_high_coverage self /\
    length strong = length (sd_alleles self) /\
    length weak = length (sd_alleles self) /\
    (forall hc, sd_high_coverage self = Some hc ->
                length hc = length (sd_alleles self)) /\
    forall (i : nat) s w,
      strong !! i = Some s -> weak !! i = Some w ->
      (forall n, Z.testbit s n = true -> Z.testbit w n = true) /\
      (forall hc, sd_high_coverage self = Some hc ->
                  hc !! i = Some true -> s = 0 /\ w = 0).
Proof.
  intros Hmpq Hcall. unfold call_alleles in Hcall.
  destruct (np_mask_zero _ (map _ _)) as [ weak | ] eqn:Hw;
    [ | discriminate Hcall ].
  cbn [rbind] in Hcall.
  destruct (np_mask_zero _ (imap _ _)) as [ strong | ] eqn:Hs;
    [ | discriminate Hcall ].
  cbn [rbind] in Hcall. injection Hcall as <-.
  cbn [sd_strong sd_weak sd_high_coverage].
  exists strong, weak.
  pose proof (np_mask_zero_length _ _ _ Hw) as Lw.
  pose proof (np_mask_zero_length _ _ _ Hs) as Ls.
  rewrite length_map in Lw. rewrite length_imap in Ls.
  repeat (split; [ first [ reflexivity | assumption ] | ]).
  split.
  { intros hc Hhc. rewrite Hhc in Hw.
    apply np_mask_zero_mask_length in Hw. rewrite length_map in Hw.
    exact Hw. }
  intros i s w Hsi Hwi.
  destruct (sd_high_coverage self) as [ hc | ] eqn:Hhc.
  - assert (Hlen : length hc = length (sd_alleles self)).
    { apply np_mask_zero_mask_length in Hw. rewrite length_map in Hw.
      exact Hw. }
    destruct (hc !! i) as [ h | ] eqn:Hh.
    + destruct h.
      * rewrite (np_mask_zero_lookup_true _ _ _ i Hs Hh) in Hsi.
        rewrite (np_mask_zero_lookup_true _ _ _ i Hw Hh) in Hwi.
        injection Hsi as <-. injection Hwi as <-.
        split; [ intros n Hn; rewrite Z.bits_0 in Hn; discriminate Hn | ].
        intros _ _ _. split; reflexivity.
      * rewrite (np_mask_zero_lookup_false _ _ _ i Hs Hh) in Hsi.
        rewrite (np_mask_zero_lookup_false _ _ _ i Hw Hh) in Hwi.
        rewrite list_lookup_imap in Hsi. rewrite list_lookup_fmap in Hwi.
        destruct (sd_alleles self !! i) as [ c | ]; [ | discriminate Hsi ].
        cbn in Hsi, Hwi. injection Hsi as <-. injection Hwi as <-.
        split; [ intros n; apply strong_at_bits_weak; exact Hmpq | ].
        intros hc' [= <-] Habs. rewrite Hh in Habs. discriminate Habs.
    + apply lookup_ge_None in Hh. apply lookup_lt_Some in Hsi. lia.
  - cbn in Hw, Hs. injection Hw as <-. injection Hs as <-.
    rewrite list_lookup_fmap in Hsi, Hwi.
    destruct (imap _ _ !! i); [ | discriminate Hsi ].
    destruct (map _ _ !! i); [ | discriminate Hwi ].
    cbn in Hsi, Hwi. injection Hsi as <-. injection Hwi as <-.
    split; [ intros n Hn; rewrite Z.bits_0 in Hn; discriminate Hn | ].
    intros hc' Habs. discriminate Habs.
Qed.

Lemma calculate_coverage_fields ppf self s1 :
  calculate_coverage ppf self = Ok s1 ->
  sd_alleles s1 = sd_alleles self /\
  sd_lowmq_count s1 = sd_lowmq_count self /\
  exists cov, sd_coverage s1 = Some cov /\
    np_add (map (fun c => np_sum (counts c)) (sd_alleles self))
           (sd_lowmq_count self) = Ok cov /\
    sd_median_coverage s1 = np_median cov /\
    poisson_coverage_cutoff ppf (max_half (np_median cov)) default_cutoff
      = Ok (sd_coverage_cutoff s1) /\
    sd_high_coverage s1 =
      Some (map (fun c => Qltb (sd_coverage_cutoff s1) (inject_Z c)) cov).
Proof.
  unfold calculate_coverage. intros H.
  destruct (np_add _ _) as [ cov | ] eqn:Hcov; [ | discriminate H ].
  cbn [rbind] in H.
  destruct (poisson_coverage_cutoff _ _ _) as [ cut | ] eqn:Hcut;
    [ | discriminate H ].
  cbn [rbind] in H. injection H as <-. cbn.
  repeat split. exists cov. repeat split. exact Hcut.
Qed.

(** The invariant once both calls have returned. *)
Lemma strong_within_weak_returned ppf garbage mpq mqf self s1 s2 :
  0 < mpq ->
  calculate_coverage ppf self = Ok s1 ->
  call_alleles garbage mpq mqf s1 = Ok s2 ->
  exists strong weak hc,
    sd_strong s2 = Some strong /\ sd_weak s2 = Some weak /\
    sd_high_coverage s2 = Some hc /\
    length strong = length (sd_alleles self) /\
    length weak = length (sd_alleles self) /\
    length hc = length (sd_alleles self) /\
    forall (i : nat) s w h,
      strong !! i = Some s -> weak !! i = Some w -> hc !! i = Some h ->
      (forall n, Z.testbit s n = true -> Z.testbit w n = true) /\
      (h = true -> s = 0 /\ w = 0).
Proof.
  intros Hmpq Hcov Hcall.
  apply calculate_coverage_fields in Hcov
    as (Hal & _ & cov & _ & _ & _ & _ & Hhc).
  destruct (call_alleles_invariant _ _ _ _ _ Hmpq Hcall)
    as (strong & weak & Hs & Hw & Hsame & Ls & Lw & Lhc & Hinv).
  rewrite Hal in Ls, Lw, Lhc.
  exists strong, weak, (map (fun c => Qltb (sd_coverage_cutoff s1) (inject_Z c)) cov).
  split; [ exact Hs | ]. split; [ exact Hw | ].
  split; [ rewrite Hsame; exact Hhc | ].
  split; [ exact Ls | ]. split; [ exact Lw | ].
  split; [ apply Lhc; exact Hhc | ].
  intros i s w h Hsi Hwi Hhi.
  destruct (Hinv i s w Hsi Hwi) as [ Hsub Hhigh ].
  split; [ exact Hsub | ].
  intros ->. exact (Hhigh _ Hhc Hhi).
Qed.

(** [calculate_coverage] returns on arrays of one length. *)
Lemma calculate_coverage_total ppf self :
  length (sd_lowmq_count self) = length (sd_alleles self) ->
  exists s1, calculate_coverage ppf self = Ok s1.
Proof.
  intros Hlen. unfold calculate_coverage, np_add.
  rewrite length_map, Hlen, Nat.eqb_refl. cbn [rbind].
  set (cov := zip_with Z.add _ _).
  assert (Hmu : exists mu, max_half (np_median cov) = Finite mu).
  { destruct (np_median cov) as [ m | | ] eqn:E; cbn.
    - destruct (Qltb (1 # 2) m); eauto.
    - unfold np_median in E.
      destruct (length (sorted cov) =? 0)%nat; [ discriminate E | ].
      destruct (Nat.even _); discriminate E.
    - eauto. }
  destruct Hmu as [ mu -> ]. cbn.
  destruct (Qltb mu 50); cbn; eauto.
Qed.

(** C2. After [calculate_coverage] and then [call_alleles] with a
    positive [min_pileup_qual], at every position every bit of [strong]
    is a bit of [weak], and a position marked high-coverage has
    [strong = weak = 0]. *)
Theorem strong_within_weak ppf garbage mpq mqf self :
  0 < mpq ->
  length (sd_lowmq_count self) = length (sd_alleles self) ->
  exists s1 s2 strong weak hc,
    calculate_coverage ppf self = Ok s1 /\
    call_alleles garbage mpq mqf s1 = Ok s2 /\
    sd_strong s2 = Some strong /\ sd_weak s2 = Some weak /\
    sd_high_coverage s2 = Some hc /\
    length strong = length (sd_alleles self) /\
    length weak = length (sd_alleles self) /\
    length hc = length (sd_alleles self) /\
    forall (i : nat) s w h,
      strong !! i = Some s -> weak !! i = Some w -> hc !! i = Some h ->
      (forall n, Z.testbit s n = true -> Z.testbit w n = true) /\
      (h = true -> s = 0 /\ w = 0).
Proof.
  intros Hmpq Hlen.
  destruct (calculate_coverage_total ppf self Hlen) as [ s1 H1 ].
  destruct (calculate_coverage_fields _ _ _ H1)
    as (Hal & _ & cov & _ & Hadd & _ & _ & Hhc).
  assert (Lcov : length cov = length (sd_alleles self)).
  { unfold np_add in Hadd. rewrite length_map, Hlen, Nat.eqb_refl in Hadd.
    injection Hadd as <-. rewrite length_zip_with, length_map. lia. }
  destruct (call_alleles_total garbage mpq mqf s1) as [ s2 H2 ].
  { intros hc Hhc'. rewrite Hhc in Hhc'. injection Hhc' as <-.
    rewrite length_map, Hal. exact Lcov. }
  destruct (strong_within_weak_returned ppf garbage mpq mqf self s1 s2
              Hmpq H1 H2) as (strong & weak & hc & Hrest).
  exists s1, s2, strong, weak, hc.
  split; [ exact H1 | ]. split; [ exact H2 | exact Hrest ].
Qed.

Lemma strong_within_weak_witness :
  exists s1 s2,
    calculate_coverage sample_ppf sample_raw_scaffold = Ok s1 /\
    call_alleles sample_garbage 50 (float_ratio 1 10) s1 = Ok s2 /\
    sd_high_coverage s2 = Some [true; false; false] /\
    sd_strong s2 = Some [0; Allele.C; Allele.G] /\
    sd_weak s2 = Some [0; Z.lor Allele.A Allele.C; Allele.G].
Proof.
  destruct (strong_within_weak sample_ppf sample_garbage 50 (float_ratio 1 10)
              sample_raw_scaffold ltac:(lia) eq_refl)
    as (s1 & s2 & strong & weak & hc & H1 & H2 & _).
  exists s1, s2.
  split; [ exact H1 | ]. split; [ exact H2 | ].
  vm_compute in H1. injection H1 as <-.
  vm_compute in H2. injection H2 as <-.
  repeat split; reflexivity.
Defined.

(** ** Coverage and the high-coverage cutoff *)

Lemma np_add_lookup (a b cov : list Z) (i : nat) x y :
  length a = length b ->
  np_add a b = Ok cov ->
  a !! i = Some x -> b !! i = Some y ->
  cov !! i = Some (x + y).
Proof.
  intros Hlen Hadd Ha Hb. unfold np_add in Hadd.
  apply Nat.eqb_eq in Hlen. rewrite Hlen in Hadd.
  injection Hadd as <-.
  rewrite lookup_zip_with, Ha. cbn. rewrite Hb. reflexivity.
Qed.

(** Coverage, mask and cutoff once [calculate_coverage] has returned. *)
Lemma calculate_coverage_cutoff_returned ppf self s1 :
  length (sd_lowmq_count self) = length (sd_alleles self) ->
  calculate_coverage ppf self = Ok s1 ->
  exists cov hc mu,
    sd_coverage s1 = Some cov /\ sd_high_coverage s1 = Some hc /\
    max_half (sd_median_coverage s1) = Finite mu /\
    sd_median_coverage s1 = np_median cov /\
    (forall (i : nat) c lm,
       sd_alleles self !! i = Some c -> sd_lowmq_count self !! i = Some lm ->
       cov !! i = Some (np_sum (counts c) + lm)) /\
    (forall (i : nat) v,
       cov !! i = Some v ->
       exists h, hc !! i = Some h /\
         (h = true <-> (sd_coverage_cutoff s1 < inject_Z v)%Q)) /\
    ((mu < 50)%Q -> sd_coverage_cutoff s1 = ppf default_cutoff mu) /\
    (~ (mu < 50)%Q ->
       sd_coverage_cutoff s1 = inject_Z (Qceiling (mu * (3 # 2) + 15))) /\
    (forall m, sd_median_coverage s1 = Finite m -> (m == 100)%Q ->
       sd_coverage_cutoff s1 = 165%Q).
Proof.
  intros Hshape Hcalc.
  apply calculate_coverage_fields in Hcalc
    as (Hal & Hlm & cov & Hcov & Hadd & Hmed & Hcut & Hhc).
  assert (Hmu : exists mu, max_half (np_median cov) = Finite mu).
  { destruct (np_median cov) as [ m | | ] eqn:E; cbn.
    - destruct (Qltb (1 # 2) m); eauto.
    - unfold np_median in E.
      destruct (length (sorted cov) =? 0)%nat; [ discriminate E | ].
      destruct (Nat.even _); discriminate E.
    - eauto. }
  destruct Hmu as [ mu Hmu ].
  exists cov, (map (fun c => Qltb (sd_coverage_cutoff s1) (inject_Z c)) cov), mu.
  rewrite Hmed.
  split; [ exact Hcov | ]. split; [ exact Hhc | ].
  split; [ exact Hmu | ]. split; [ reflexivity | ].
  rewrite Hmu in Hcut. cbn in Hcut.
  split; [ | split; [ | split; [ | split ] ] ].
  - intros i c lm Hc Hl.
    apply (np_add_lookup _ _ _ i _ _ (eq_trans (length_map _ _) (eq_sym Hshape))
             Hadd); [ | exact Hl ].
    rewrite list_lookup_fmap, Hc. reflexivity.
  - intros i v Hv. eexists. rewrite list_lookup_fmap, Hv. cbn.
    split; [ reflexivity | ]. apply Qltb_lt.
  - intros Hlt. apply Qltb_lt in Hlt. rewrite Hlt in Hcut.
    injection Hcut as <-. reflexivity.
  - intros Hge.
    destruct (Qltb mu 50) eqn:E; [ apply Qltb_lt in E; contradiction | ].
    injection Hcut as <-. reflexivity.
  - intros m Hm H100. rewrite Hm in Hmu. cbn in Hmu.
    assert (Hhalf : Qltb (1 # 2) m = true).
    { apply Qltb_lt. rewrite H100. reflexivity. }
    rewrite Hhalf in Hmu. injection Hmu as <-.
    assert (E : Qltb m 50 = false).
    { destruct (Qltb m 50) eqn:E; [ | reflexivity ].
      apply Qltb_lt in E. rewrite H100 in E. discriminate E. }
    rewrite E in Hcut. injection Hcut as <-.
    assert (Hc : Qceiling (m * (3 # 2) + 15) = Qceiling 165).
    { apply Qceiling_comp. rewrite H100. reflexivity. }
    rewrite Hc. reflexivity.
Qed.

(** *** Bounds on the exponential series *)

Lemma E1_growing (x : R) : (0 <= x)%R -> Un_growing (E1 x).
Proof.
  intros Hx n. unfold E1. cbn [sum_f_R0].
  assert (0 <= / INR (fact (S n)) * x ^ S n)%R.
  { apply Rmult_le_pos.
    - left. apply Rinv_0_lt_compat. apply INR_fact_lt_0.
    - apply pow_le. exact Hx. }
  lra.
Qed.

Lemma E1_le_exp (x : R) (n : nat) : (0 <= x)%R -> (E1 x n <= exp x)%R.
Proof.
  intros Hx. apply (growing_ineq (E1 x)).
  - apply E1_growing. exact Hx.
  - apply E1_cvg.
Qed.

Lemma E1_mono (x : R) (n m : nat) :
  (0 <= x)%R -> (n <= m)%nat -> (E1 x n <= E1 x m)%R.
Proof.
  intros Hx Hnm. induction Hnm as [ | m _ IH ].
  - apply Rle_refl.
  - eapply Rle_trans; [ exact IH | apply E1_growing; exact Hx ].
Qed.

Lemma exp_term_step (x : R) (k : nat) :
  exp_term x (S k) = (exp_term x k * (x / INR (S k)))%R.
Proof.
  unfold exp_term. rewrite fact_simpl, mult_INR. cbn [pow].
  field. split; first [ apply INR_fact_neq_0 | apply not_0_INR; discriminate ].
Qed.

Lemma exp_term_nonneg x k : (0 <= x)%R -> (0 <= exp_term x k)%R.
Proof.
  intros Hx. unfold exp_term. apply Rmult_le_pos.
  - left. apply Rinv_0_lt_compat. apply INR_fact_lt_0.
  - apply pow_le. exact Hx.
Qed.

(** For [x] up to 1 each term is at most half the one before. *)
Lemma exp_term_halves (x : R) (k : nat) :
  (0 <= x <= 1)%R -> (1 <= k)%nat ->
  (2 * exp_term x (S k) <= exp_term x k)%R.
Proof.
  intros Hx Hk. rewrite exp_term_step.
  pose proof (exp_term_nonneg x k ltac:(lra)) as Ht.
  assert (Hk2 : (2 <= INR (S k))%R).
  { change 2%R with (INR 2). apply le_INR. lia. }
  assert (Hratio : (x / INR (S k) <= 1 / 2)%R).
  { unfold Rdiv. apply Rle_trans with (1 * / INR (S k))%R.
    - apply Rmult_le_compat_r; [ | lra ].
      left. apply Rinv_0_lt_compat. lra.
    - rewrite !Rmult_1_l. apply Rinv_le_contravar; lra. }
  assert (exp_term x k * (x / INR (S k)) <= exp_term x k * (1 / 2))%R
    by (apply Rmult_le_compat_l; assumption).
  lra.
Qed.

Lemma E1_tail (x : R) (n j : nat) :
  (0 <= x <= 1)%R -> (1 <= n)%nat ->
  (E1 x (n + j) + exp_term x (n + j) <= E1 x n + exp_term x n)%R.
Proof.
  intros Hx Hn. induction j as [ | j IH ].
  - rewrite Nat.add_0_r. apply Rle_refl.
  - replace (n + S j)%nat with (S (n + j)) by lia.
    unfold E1 in *. cbn [sum_f_R0]. fold (exp_term x (S (n + j))).
    pose proof (exp_term_halves x (n + j) Hx ltac:(lia)). lra.
Qed.

(** The remainder of the series after [n] terms is at most the [n]-th
    term. *)
Lemma exp_le_E1 (x : R) (n : nat) :
  (0 <= x <= 1)%R -> (1 <= n)%nat -> (exp x <= E1 x n + exp_term x n)%R.
Proof.
  intros Hx Hn.
  apply Rle_cv_lim
    with (Un := E1 x) (Vn := fun _ : nat => (E1 x n + exp_term x n)%R).
  - intros m. destruct (le_lt_dec m n) as [ Hle | Hlt ].
    + pose proof (E1_mono x m n ltac:(lra) Hle).
      pose proof (exp_term_nonneg x n ltac:(lra)). lra.
    + replace m with (n + (m - n))%nat by lia.
      pose proof (E1_tail x n (m - n) Hx Hn).
      pose proof (exp_term_nonneg x (n + (m - n)) ltac:(lra)). lra.
  - apply E1_cvg.
  - intros eps Heps. exists 0%nat. intros k _.
    unfold R_dist. rewrite Rminus_diag, Rabs_R0. exact Heps.
Qed.

Lemma poisson_cdf_ge (mu q : R) (n : nat) :
  (q * exp mu <= E1 mu n)%R -> (q <= poisson_cdf mu n)%R.
Proof.
  intros H. unfold poisson_cdf.
  apply Rmult_le_reg_r with (r := exp mu); [ apply exp_pos | ].
  replace (exp (- mu) * E1 mu n * exp mu)%R with (E1 mu n); [ exact H | ].
  rewrite exp_Ropp. field. apply Rgt_not_eq, exp_pos.
Qed.

Lemma poisson_cdf_lt (mu q : R) (n : nat) :
  (E1 mu n < q * exp mu)%R -> (poisson_cdf mu n < q)%R.
Proof.
  intros H. unfold poisson_cdf.
  apply Rmult_lt_reg_r with (r := exp mu); [ apply exp_pos | ].
  replace (exp (- mu) * E1 mu n * exp mu)%R with (E1 mu n); [ exact H | ].
  rewrite exp_Ropp. field. apply Rgt_not_eq, exp_pos.
Qed.

(** With mean 0.5 the distribution function first reaches 0.9999999 at
    7. *)
Lemma percent_point_half :
  poisson_percent_point default_cutoff (1 # 2) 7.
Proof.
  unfold poisson_percent_point, default_cutoff.
  assert (Hx : Q2R (1 # 2) = (1 / 2)%R) by (unfold Q2R; cbn; lra).
  assert (Hq : Q2R (9999999 # 10000000) = (9999999 / 10000000)%R)
    by (unfold Q2R; cbn; lra).
  rewrite Hx, Hq.
  set (x := (1 / 2)%R).
  assert (Hx01 : (0 <= x <= 1)%R) by (unfold x; lra).
  pose proof (E1_le_exp x 7 ltac:(lra)) as Hlow.
  pose proof (exp_le_E1 x 9 Hx01 ltac:(lia)) as Hup.
  assert (T0 : exp_term x 0 = 1%R) by (unfold exp_term; cbn; field).
  pose proof (exp_term_step x 0) as T1. pose proof (exp_term_step x 1) as T2.
  pose proof (exp_term_step x 2) as T3. pose proof (exp_term_step x 3) as T4.
  pose proof (exp_term_step x 4) as T5. pose proof (exp_term_step x 5) as T6.
  pose proof (exp_term_step x 6) as T7. pose proof (exp_term_step x 7) as T8.
  pose proof (exp_term_step x 8) as T9.
  cbn [INR] in T1, T2, T3, T4, T5, T6, T7, T8, T9.
  unfold E1 in Hlow, Hup. cbn [sum_f_R0] in Hlow, Hup.
  repeat match type of Hup with
         | context [ (/ INR (fact ?k) * x ^ ?k)%R ] =>
             fold (exp_term x k) in Hup, Hlow
         end.
  split; [ lia | ]. split.
  - apply poisson_cdf_ge. change (Z.to_nat 7) with 7%nat.
    unfold E1. cbn [sum_f_R0].
    repeat match goal with
           | |- context [ (/ INR (fact ?k) * x ^ ?k)%R ] =>
               fold (exp_term x k)
           end.
    unfold x in *. lra.
  - intros y Hy. apply poisson_cdf_lt.
    apply Rle_lt_trans with (E1 x 6).
    + apply E1_mono; [ lra | lia ].
    + unfold E1. cbn [sum_f_R0].
      repeat match goal with
             | |- context [ (/ INR (fact ?k) * x ^ ?k)%R ] =>
                 fold (exp_term x k)
             end.
      unfold x in *. lra.
Qed.

(** C4. [calculate_coverage] sets [coverage[i]] to the sum of the allele
    counts at [i] plus [lowmq_count[i]] and [high_coverage[i]] to
    [coverage[i] > cutoff]. With [mu = max(0.5, median)], when [mu < 50]
    the cutoff is what [poisson.ppf] answers at 0.9999999 and [mu], which
    is, the library answering with the percent point, the smallest
    integer at which the Poisson distribution function with mean [mu]
    reaches 0.9999999; otherwise it is [ceil(mu * 1.5 + 15)]. A median of
    100 gives 165. *)
Theorem calculate_coverage_cutoff ppf self :
  length (sd_lowmq_count self) = length (sd_alleles self) ->
  ((cutoff_mean self < 50)%Q ->
   ppf_agrees ppf default_cutoff (cutoff_mean self)) ->
  exists s1 cov hc,
    calculate_coverage ppf self = Ok s1 /\
    sd_coverage s1 = Some cov /\ sd_high_coverage s1 = Some hc /\
    max_half (sd_median_coverage s1) = Finite (cutoff_mean self) /\
    sd_median_coverage s1 = np_median cov /\
    (forall (i : nat) c lm,
       sd_alleles self !! i = Some c -> sd_lowmq_count self !! i = Some lm ->
       cov !! i = Some (np_sum (counts c) + lm)) /\
    (forall (i : nat) v,
       cov !! i = Some v ->
       exists h, hc !! i = Some h /\
         (h = true <-> (sd_coverage_cutoff s1 < inject_Z v)%Q)) /\
    ((cutoff_mean self < 50)%Q ->
       sd_coverage_cutoff s1 = ppf default_cutoff (cutoff_mean self) /\
       exists x : Z,
         sd_coverage_cutoff s1 = inject_Z x /\
         poisson_percent_point default_cutoff (cutoff_mean self) x) /\
    (~ (cutoff_mean self < 50)%Q ->
       sd_coverage_cutoff s1 =
       inject_Z (Qceiling (cutoff_mean self * (3 # 2) + 15))) /\
    (forall m, sd_median_coverage s1 = Finite m -> (m == 100)%Q ->
       sd_coverage_cutoff s1 = 165%Q).
Proof.
  intros Hlen Hppf.
  destruct (calculate_coverage_total ppf self Hlen) as [ s1 H1 ].
  destruct (calculate_coverage_cutoff_returned ppf self s1 Hlen H1)
    as (cov & hc & mu & Hcov & Hhc & Hmu & Hmed & Hsum & Hhigh & Hlow
        & Hlin & H165).
  assert (Emu : cutoff_mean self = mu).
  { destruct (calculate_coverage_fields _ _ _ H1)
      as (_ & _ & cov' & Hcov' & Hadd & _ & _ & _).
    rewrite Hcov in Hcov'. injection Hcov' as <-.
    unfold cutoff_mean. rewrite Hadd, <- Hmed, Hmu. reflexivity. }
  rewrite Emu in *.
  exists s1, cov, hc. split; [ exact H1 | ].
  split; [ exact Hcov | ]. split; [ exact Hhc | ]. split; [ exact Hmu | ].
  split; [ exact Hmed | ]. split; [ exact Hsum | ]. split; [ exact Hhigh | ].
  split; [ | split; [ exact Hlin | exact H165 ] ].
  intros Hlt. split; [ apply Hlow; exact Hlt | ].
  destruct (Hppf Hlt) as (x & Hx & Hpoint).
  exists x. split; [ | exact Hpoint ].
  rewrite (Hlow Hlt). exact Hx.
Qed.

Lemma calculate_coverage_cutoff_witness :
  (exists s1,
     calculate_coverage sample_ppf deep_scaffold = Ok s1 /\
     sd_coverage s1 = Some [100; 100; 266] /\
     sd_median_coverage s1 = Finite 100 /\
     sd_coverage_cutoff s1 = 165%Q /\
     sd_high_coverage s1 = Some [false; false; true]) /\
  (exists s1,
     calculate_coverage sample_ppf uncovered_scaffold = Ok s1 /\
     sd_coverage_cutoff s1 = 7%Q /\
     poisson_percent_point default_cutoff (1 # 2) 7).
Proof.
  split.
  - destruct (calculate_coverage_cutoff sample_ppf deep_scaffold eq_refl)
      as (s1 & cov & hc & H1 & Hcov & Hhc & Hmu & Hmed & Hsum & Hhigh
          & _ & _ & H165).
    { intros Hlt. vm_compute in Hlt. discriminate Hlt. }
    exists s1.
    assert (Hm : sd_median_coverage s1 = Finite 100)
      by (vm_compute in H1; injection H1 as <-; reflexivity).
    pose proof (H165 100%Q Hm ltac:(reflexivity)) as Hcut.
    split; [ exact H1 | ].
    refine (conj _ (conj Hm (conj Hcut _)));
      vm_compute in H1; injection H1 as <-; reflexivity.
  - destruct (calculate_coverage_cutoff sample_ppf uncovered_scaffold eq_refl)
      as (s1 & cov & hc & H1 & _ & _ & _ & _ & _ & _ & Hlow & _ & _).
    { intros _. exists 7. split; [ reflexivity | exact percent_point_half ]. }
    exists s1. split; [ exact H1 | ].
    destruct (Hlow ltac:(reflexivity)) as (Hcut & x & Hx & Hpoint).
    split; [ exact Hcut | exact percent_point_half ].
Defined.

(** ** Updates at positions past the end of a scaffold *)

Lemma np_index_past_end (len : nat) (pos : Z) :
  Z.of_nat len <= pos -> np_index len pos = Raise IndexError.
Proof.
  intros H. unfold np_index.
  destruct (Z.leb_spec 0 pos); [ | lia ].
  destruct (Z.ltb_spec pos (Z.of_nat len)); [ lia | ].
  cbn. destruct (Z.ltb_spec pos 0); [ lia | ].
  rewrite andb_false_r. reflexivity.
Qed.

(** [low_mapping_quality] is guarded: past the end it logs and leaves the
    call data alone. *)
Lemma low_mapping_quality_past_end self scaffold sd pos :
  get_scaffold self scaffold = Ok sd ->
  sd_length sd <= pos ->
  low_mapping_quality self scaffold pos =
  Ok (self, [mkWarning pos scaffold (sd_length sd)]).
Proof.
  intros Hsd Hpos. unfold low_mapping_quality. rewrite Hsd. cbn [rbind].
  destruct (Z.leb_spec (sd_length sd) pos); [ reflexivity | lia ].
Qed.

(** [bad_read] is not: the index is out of range for the array. *)
Lemma bad_read_past_end self scaffold sd pos :
  get_scaffold self scaffold = Ok sd ->
  Z.of_nat (length (sd_bad sd)) <= pos ->
  bad_read self scaffold pos = Raise IndexError.
Proof.
  intros Hsd Hpos. unfold bad_read, np_iadd. rewrite Hsd. cbn [rbind].
  rewrite np_index_past_end by exact Hpos. reflexivity.
Qed.

(** Nor is [good_read]. *)
Lemma good_read_past_end self scaffold sd pos allele bq mq (rc : bool) ix :
  ALLELE_INDEX (if rc then Allele.rc allele else allele) = Ok ix ->
  get_scaffold self scaffold = Ok sd ->
  Z.of_nat (length (sd_alleles sd)) <= pos ->
  good_read self scaffold pos allele bq mq rc = Raise IndexError.
Proof.
  intros Hix Hsd Hpos. unfold good_read, alleles_iadd.
  rewrite Hix. cbn [rbind]. rewrite Hsd. cbn [rbind].
  rewrite np_index_past_end by exact Hpos. reflexivity.
Qed.

(** C3. On a scaffold of length 2, an update at position 2 is dropped
    with a warning by [low_mapping_quality] only; [bad_read] and
    [good_read] raise [IndexError] there. So the last base of a read
    whose alternative location falls one past the end of a scaffold is
    tallied with a warning when its mapping quality is below the minimum,
    and stops the pass when it is not. *)
Theorem update_past_end_raises :
  low_mapping_quality sample_call_data "contig1" 2 =
    Ok (sample_call_data, [mkWarning 2 "contig1" 2]) /\
  bad_read sample_call_data "contig1" 2 = Raise IndexError /\
  good_read sample_call_data "contig1" 2 Allele.T 30 3 false =
    Raise IndexError /\
  alternative_locations repeat_read 2 = Ok [("contig1"%string, 3, false)] /\
  (exists st,
     assess_read sample_caller (mkState ∅ three_base_call_data [])
       "contig1" 2 (at_offset repeat_read 1) = Ok st /\
     warnings st = [mkWarning 3 "contig1" 3]) /\
  assess_read permissive_caller (mkState ∅ three_base_call_data [])
    "contig1" 2 (at_offset repeat_read 1) = Raise IndexError.
Proof.
  assert (Hsd : get_scaffold sample_call_data "contig1" =
                Ok (new_scaffold "contig1" 2)) by reflexivity.
  split; [ | split; [ | split; [ | split; [ | split ] ] ] ].
  - exact (low_mapping_quality_past_end _ _ _ 2 Hsd ltac:(cbn; lia)).
  - exact (bad_read_past_end _ _ _ 2 Hsd ltac:(cbn; lia)).
  - exact (good_read_past_end _ _ _ 2 Allele.T 30 3 false 3%nat
             eq_refl Hsd ltac:(cbn; lia)).
  - reflexivity.
  - eexists. split; [ vm_compute; reflexivity | reflexivity ].
  - vm_compute. reflexivity.
Qed.

(** ** Accessors *)

(** [ref_fraction] is not 0 where there is no quality evidence: at an
    uncovered position the quotient is 0/0. *)
Lemma ref_fraction_zero_total_counterexample :
  qual_total uncovered_scaffold 0 = Ok 0 /\
  ref_fraction uncovered_scaffold 0 = Ok NaN /\
  ref_fraction uncovered_scaffold 0 <> Ok (Finite 0).
Proof.
  split; [ reflexivity | ]. split; [ reflexivity | ].
  intros H. discriminate H.
Qed.

(** C7. [ref_fraction] is the true division of [ref_qual] by
    [qual_total]: the quotient when [qual_total] is not 0 and, when it is
    0, never a number ([nan] for 0/0). [mean_mq] is 0 when [depth] is
    0. *)
Theorem ref_fraction_mean_mq self pos :
  (forall rq qt,
     ref_qual self pos = Ok rq -> qual_total self pos = Ok qt ->
     (qt <> 0 ->
      ref_fraction self pos = Ok (Finite (inject_Z rq / inject_Z qt))) /\
     (qt = 0 ->
      ref_fraction self pos = Ok (if rq =? 0 then NaN else Inf))) /\
  (depth self pos = Ok 0 -> mean_mq self pos = Ok (Finite 0)).
Proof.
  split.
  - intros rq qt Hrq Hqt. unfold ref_fraction, np_true_divide.
    rewrite Hrq. cbn [rbind]. rewrite Hqt. cbn [rbind].
    split.
    + intros Hne. destruct (Z.eqb_spec qt 0); [ contradiction | ].
      reflexivity.
    + intros ->. reflexivity.
  - intros Hd. unfold mean_mq. rewrite Hd. reflexivity.
Qed.

Lemma ref_fraction_mean_mq_witness :
  ref_fraction sample_scaffold 1 = Ok (Finite (inject_Z 50 / inject_Z 101)) /\
  ref_fraction uncovered_scaffold 1 = Ok NaN /\
  mean_mq uncovered_scaffold 1 = Ok (Finite 0).
Proof.
  destruct (ref_fraction_mean_mq sample_scaffold 1) as [ Hfrac _ ].
  destruct (Hfrac 50 101 eq_refl eq_refl) as [ Hdiv _ ].
  destruct (ref_fraction_mean_mq uncovered_scaffold 1) as [ Hfrac0 Hmq ].
  destruct (Hfrac0 0 0 eq_refl eq_refl) as [ _ Hnan ].
  split; [ apply Hdiv; lia | ].
  split; [ apply Hnan; reflexivity | ].
  apply Hmq. reflexivity.
Defined.

(** ** Abundance estimation *)

(** C10. In the abundance pass, with a positive maximum number of
    mismatches, an alignment with more mismatches than that is not
    counted, whatever else holds of it; an alignment that passes the four
    listed conditions is counted exactly when the mismatch filter is off
    or its mismatch count is within the maximum. *)
Theorem abundance_mismatch_filter self call a :
  (forall nm,
     0 < vc_max_num_mismatches self ->
     tag_NM a = Some nm ->
     vc_max_num_mismatches self < nm ->
     count_alignment self call a = Ok call) /\
  (passes_listed_checks a = true ->
   vc_max_num_mismatches self <= 0 \/
   default 0 (tag_NM a) <= vc_max_num_mismatches self ->
   count_alignment self call a =
   inc_uniquely_mapped_reads call (reference_name a)).
Proof.
  split.
  - intros nm Hmax Hnm Hgt. unfold count_alignment.
    rewrite Hnm. unfold default. cbn [from_option]. unfold Datatypes.id.
    destruct (_ || _); [ reflexivity | ].
    destruct (_ && _); [ reflexivity | ].
    destruct (negb _); [ reflexivity | ].
    destruct (_ && _); [ reflexivity | ].
    destruct (Z.ltb_spec 0 (vc_max_num_mismatches self)); [ | lia ].
    destruct (Z.ltb_spec (vc_max_num_mismatches self) nm); [ | lia ].
    reflexivity.
  - intros Hpass Hnm. unfold passes_listed_checks in Hpass.
    repeat (apply andb_true_iff in Hpass as [ Hpass ? ]).
    unfold count_alignment.
    destruct (Z.ltb_spec (mapping_quality a) 3);
      [ apply Z.leb_le in Hpass; lia | ].
    destruct (bool_decide (is_Some (tag_XA a))); [ discriminate | ].
    cbn [orb].
    destruct (is_paired a), (is_proper_pair a); try discriminate; cbn;
      destruct (query_alignment_length a =? query_length a);
      try discriminate; cbn;
      try (destruct (Z.ltb_spec (Z.abs (template_length a)) (query_length a));
           [ match goal with
             | H : (_ <=? _) = true |- _ => apply Z.leb_le in H; lia
             end | ]);
      destruct (Z.ltb_spec 0 (vc_max_num_mismatches self)); try reflexivity;
      destruct (Z.ltb_spec (vc_max_num_mismatches self)
                           (default 0 (tag_NM a)));
      first [ reflexivity | lia ].
Qed.

Lemma abundance_mismatch_filter_witness :
  passes_listed_checks (sample_read "read1" 5 [30; 30]) = true /\
  count_alignment sample_caller sample_call_data
    (sample_read "read1" 5 [30; 30]) = Ok sample_call_data /\
  count_alignment lenient_caller sample_call_data
    (sample_read "read1" 5 [30; 30]) =
  inc_uniquely_mapped_reads sample_call_data "contig1".
Proof.
  destruct (abundance_mismatch_filter sample_caller sample_call_data
              (sample_read "read1" 5 [30; 30])) as [ Hdrop _ ].
  destruct (abundance_mismatch_filter lenient_caller sample_call_data
              (sample_read "read1" 5 [30; 30])) as [ _ Hcount ].
  split; [ reflexivity | ]. split.
  - apply (Hdrop 5); [ cbn; lia | reflexivity | cbn; lia ].
  - apply Hcount; [ reflexivity | left; cbn; lia ].
Defined.

(** ** The read filter chain *)

Lemma record_bad_inv st scaffold refpos st' :
  record_bad st scaffold refpos = Ok st' ->
  discarded_reads st' = discarded_reads st /\
  warnings st' = warnings st /\
  exists sd bad',
    scaffolds_data (call_data st) !! scaffold = Some sd /\
    np_iadd (sd_bad sd) refpos 1 = Ok bad' /\
    call_data st' = set_scaffold (call_data st) scaffold (set_bad sd bad').
Proof.
  unfold record_bad, bad_read, get_scaffold. intros H.
  destruct (scaffolds_data (call_data st) !! scaffold) as [ sd | ] eqn:Hsd;
    [ | discriminate H ].
  cbn [rbind] in H.
  destruct (np_iadd (sd_bad sd) refpos 1) as [ bad' | ] eqn:Hbad;
    [ | discriminate H ].
  cbn [rbind] in H. injection H as <-. cbn.
  repeat split. exists sd, bad'. repeat split. exact Hbad.
Qed.

Lemma low_mapping_quality_each_discarded locs st st' :
  low_mapping_quality_each st locs = Ok st' ->
  discarded_reads st' = discarded_reads st.
Proof.
  revert st. induction locs as [ | [ [ scaffold pos ] rc ] locs IH ];
    intros st H; cbn in H.
  - injection H as <-. reflexivity.
  - destruct (low_mapping_quality _ _ _) as [ cw | ]; [ | discriminate H ].
    cbn [rbind] in H. apply IH in H. exact H.
Qed.

Lemma good_read_each_discarded locs st base qual mq st' :
  good_read_each st base qual mq locs = Ok st' ->
  discarded_reads st' = discarded_reads st.
Proof.
  revert st. induction locs as [ | [ [ scaffold pos ] rc ] locs IH ];
    intros st H; cbn in H.
  - injection H as <-. reflexivity.
  - destruct (good_read _ _ _ _ _ _ _) as [ call | ]; [ | discriminate H ].
    cbn [rbind] in H. apply IH in H. exact H.
Qed.

(** A name already in [discarded_reads] short-circuits the chain. *)
Lemma assess_read_known self st scaffold refpos read :
  query_name (alignment read) ∈ discarded_reads st ->
  assess_read self st scaffold refpos read = record_bad st scaffold refpos.
Proof.
  intros Hin. unfold assess_read.
  rewrite bool_decide_eq_true_2 by exact Hin. reflexivity.
Qed.

(** The chain never removes a name. *)
Lemma assess_read_discarded_mono self st scaffold refpos read st' :
  assess_read self st scaffold refpos read = Ok st' ->
  discarded_reads st ⊆ discarded_reads st'.
Proof.
  unfold assess_read. intros H.
  repeat match type of H with
  | (if ?b then _ else _) = Ok _ => destruct b
  | (let! _ := ?m in _) = Ok _ =>
      let E := fresh "E" in
      destruct m eqn:E; cbn [rbind] in H; [ | discriminate H ]
  | record_bad _ _ _ = Ok _ =>
      let Hd := fresh "Hd" in
      destruct (record_bad_inv _ _ _ _ H) as [ Hd _ ];
      rewrite Hd; cbn; first [ reflexivity | apply union_subseteq_r ]
  | Ok ?x = Ok _ =>
      assert (st' = x) as -> by (injection H; auto); cbn; set_solver
  end.
  - unfold assess_alternative_locations in H. cbn [alignment] in H.
    destruct (mapping_quality (alignment read) <? vc_min_mapping_quality self).
    + destruct (alternative_locations _ _); [ | discriminate H ].
      cbn [rbind] in H.
      apply low_mapping_quality_each_discarded in H. rewrite H. cbn.
      set_solver.
    + injection H as <-. cbn. set_solver.
  - apply good_read_each_discarded in H. rewrite H. cbn. set_solver.
Qed.

Lemma assess_entries_discarded_mono self entries st st' :
  assess_entries self st entries = Ok st' ->
  discarded_reads st ⊆ discarded_reads st'.
Proof.
  revert st.
  induction entries as [ | [ [ scaffold refpos ] read ] entries IH ];
    intros st H; cbn in H.
  - injection H as <-. set_solver.
  - destruct (assess_read self st scaffold refpos read) as [ st1 | ] eqn:E;
      [ | discriminate H ].
    cbn [rbind] in H.
    apply assess_read_discarded_mono in E. apply IH in H. set_solver.
Qed.

(** The two loops of the pileup pass visit the entries in order. *)
Lemma process_columns_entries self columns st :
  process_columns self st columns =
  assess_entries self st (pileup_entries columns).
Proof.
  revert st. induction columns as [ | column columns IH ]; intros st.
  - reflexivity.
  - cbn [process_columns pileup_entries flat_map].
    generalize (col_reference_name column) (col_reference_pos column).
    intros scaffold refpos.
    generalize dependent st.
    induction (pileups column) as [ | read reads IHr ]; intros st.
    + cbn. apply IH.
    + cbn. destruct (assess_read self st scaffold refpos read);
        cbn [rbind]; [ apply IHr | reflexivity ].
Qed.

(** What [record_bad] leaves behind. *)
Lemma record_bad_tallied st scaffold refpos st' :
  record_bad st scaffold refpos = Ok st' ->
  discarded_reads st' = discarded_reads st /\
  warnings st' = warnings st /\
  tallied_bad (call_data st) (call_data st') scaffold refpos.
Proof.
  intros H.
  destruct (record_bad_inv _ _ _ _ H)
    as (Hd & Hw & sd & bad' & Hsd & Hbad & Hcd).
  split; [ exact Hd | ]. split; [ exact Hw | ].
  unfold np_iadd in Hbad.
  destruct (np_index (length (sd_bad sd)) refpos) as [ k | ] eqn:Hk;
    [ | discriminate Hbad ].
  cbn [rbind] in Hbad. injection Hbad as <-.
  assert (Hlt : (k < length (sd_bad sd))%nat).
  { unfold np_index in Hk.
    destruct (Z.leb_spec 0 refpos);
      destruct (Z.ltb_spec refpos (Z.of_nat (length (sd_bad sd))));
      cbn in Hk; try (injection Hk as <-; lia).
    all: destruct (Z.leb_spec (- Z.of_nat (length (sd_bad sd))) refpos);
      destruct (Z.ltb_spec refpos 0);
      cbn in Hk; try discriminate Hk; injection Hk as <-; lia. }
  destruct (lookup_lt_is_Some_2 (sd_bad sd) k Hlt) as [ b Hb ].
  rewrite Hcd. split; [ reflexivity | ].
  split.
  { intros name Hne. cbn. apply lookup_insert_ne. congruence. }
  exists sd, (set_bad sd (alter (fun x => wrap32 (x + 1)) k (sd_bad sd))),
         k, b.
  cbn [set_bad sd_bad sd_alleles sd_lowmq_count sd_mq_sum].
  split; [ exact Hsd | ].
  split; [ cbn; apply lookup_insert_eq | ].
  split; [ exact Hk | ].
  split.
  { intros Hpos. unfold np_index in Hk.
    destruct ((0 <=? refpos) && (refpos <? Z.of_nat (length (sd_bad sd))));
      [ injection Hk as <-; reflexivity | ].
    destruct (Z.ltb_spec refpos 0); [ lia | ].
    rewrite andb_false_r in Hk. discriminate Hk. }
  split; [ exact Hb | ].
  split; [ rewrite list_lookup_alter_eq, Hb; reflexivity | ].
  split.
  { intros H0 Hroom. rewrite list_lookup_alter_eq, Hb. cbn.
    f_equal. unfold wrap32. apply Z.mod_small. lia. }
  split; [ apply length_alter | ].
  split; [ intros j Hj; apply list_lookup_alter_ne; congruence | ].
  repeat split.
Qed.

Lemma record_bad_returns st scaffold refpos sd k :
  scaffolds_data (call_data st) !! scaffold = Some sd ->
  np_index (length (sd_bad sd)) refpos = Ok k ->
  exists st', record_bad st scaffold refpos = Ok st'.
Proof.
  intros Hsd Hk. unfold record_bad, bad_read, get_scaffold, np_iadd.
  rewrite Hsd. cbn [rbind]. rewrite Hk. cbn [rbind]. eauto.
Qed.

(** C5. A read that fails the pairing, clipping, insert-size or mismatch
    filter is tallied as bad and its name enters [discarded_reads]; from
    then on, whatever entries are processed in between, the name stays in
    the set and every entry bearing it is tallied as bad at its position
    without a look at the rest of the read. A base-quality failure is
    tallied as bad the same way and leaves [discarded_reads] as it was.
    Tallied as bad means: the cell of [bad] at the position holds one
    more, and no other cell of [bad], no allele count, quality sum,
    mapping-quality sum or low-mapping-quality count, and no other
    scaffold has changed. The tally returns whenever the scaffold is
    known and the position indexes its [bad] array. *)
Theorem discarded_read_memo self :
  (forall st scaffold refpos read,
     query_name (alignment read) ∉ discarded_reads st ->
     whole_read_defect self (alignment read) = true ->
     assess_read self st scaffold refpos read =
     record_bad (discard st (query_name (alignment read))) scaffold refpos /\
     forall st',
       assess_read self st scaffold refpos read = Ok st' ->
       discarded_reads st' =
         {[ query_name (alignment read) ]} ∪ discarded_reads st /\
       warnings st' = warnings st /\
       tallied_bad (call_data st) (call_data st') scaffold refpos) /\
  (forall st between st' scaffold refpos read,
     query_name (alignment read) ∈ discarded_reads st ->
     assess_entries self st between = Ok st' ->
     query_name (alignment read) ∈ discarded_reads st' /\
     assess_read self st' scaffold refpos read =
     record_bad st' scaffold refpos /\
     forall st'',
       assess_read self st' scaffold refpos read = Ok st'' ->
       discarded_reads st'' = discarded_reads st' /\
       warnings st'' = warnings st' /\
       tallied_bad (call_data st') (call_data st'') scaffold refpos) /\
  (forall st scaffold refpos sd k,
     scaffolds_data (call_data st) !! scaffold = Some sd ->
     np_index (length (sd_bad sd)) refpos = Ok k ->
     forall name,
       exists st', record_bad st scaffold refpos = Ok st' /\
       exists st'', record_bad (discard st name) scaffold refpos = Ok st'') /\
  (forall st scaffold refpos read qual,
     query_name (alignment read) ∉ discarded_reads st ->
     whole_read_defect self (alignment read) = false ->
     np_get (query_qualities (alignment read))
            (query_position_or_next read) = Ok qual ->
     qual < vc_min_qual self ->
     assess_read self st scaffold refpos read =
     record_bad st scaffold refpos /\
     forall st',
       assess_read self st scaffold refpos read = Ok st' ->
       discarded_reads st' = discarded_reads st /\
       warnings st' = warnings st /\
       tallied_bad (call_data st) (call_data st') scaffold refpos).
Proof.
  split; [ | split; [ | split ] ].
  - intros st scaffold refpos read Hnew Hdefect.
    assert (E : assess_read self st scaffold refpos read =
                record_bad (discard st (query_name (alignment read)))
                           scaffold refpos).
    { unfold assess_read, whole_read_defect in *.
      rewrite bool_decide_eq_false_2 by exact Hnew.
      destruct (is_paired (alignment read) &&
                negb (is_proper_pair (alignment read))); [ reflexivity | ].
      destruct (negb (query_alignment_length (alignment read) =?
                      query_length (alignment read))); [ reflexivity | ].
      destruct (is_paired (alignment read) &&
                (Z.abs (template_length (alignment read)) <?
                 query_length (alignment read))); [ reflexivity | ].
      cbn [orb] in Hdefect. rewrite Hdefect. reflexivity. }
    split; [ exact E | ].
    intros st' H. rewrite E in H.
    destruct (record_bad_tallied _ _ _ _ H) as (Hd & Hw & Ht).
    split; [ exact Hd | ]. split; [ exact Hw | exact Ht ].
  - intros st between st' scaffold refpos read Hin Hrun.
    pose proof (assess_entries_discarded_mono _ _ _ _ Hrun) as Hmono.
    assert (Hin' : query_name (alignment read) ∈ discarded_reads st')
      by (apply Hmono; exact Hin).
    split; [ exact Hin' | ].
    split; [ apply assess_read_known; exact Hin' | ].
    intros st'' H. rewrite (assess_read_known _ _ _ _ _ Hin') in H.
    exact (record_bad_tallied _ _ _ _ H).
  - intros st scaffold refpos sd k Hsd Hk name.
    destruct (record_bad_returns st scaffold refpos sd k Hsd Hk)
      as [ st' H' ].
    destruct (record_bad_returns (discard st name) scaffold refpos sd k
                Hsd Hk) as [ st'' H'' ].
    exists st'. split; [ exact H' | exists st''; exact H'' ].
  - intros st scaffold refpos read qual Hnew Hdefect Hqual Hlow.
    assert (E : assess_read self st scaffold refpos read =
                record_bad st scaffold refpos).
    { unfold assess_read, whole_read_defect in *.
      rewrite bool_decide_eq_false_2 by exact Hnew.
      repeat (apply orb_false_iff in Hdefect as [ Hdefect ? ]).
      repeat match goal with
             | H : ?b = false |- context [ if ?b then _ else _ ] => rewrite H
             end.
      rewrite Hqual. cbn [rbind].
      destruct (Z.ltb_spec qual (vc_min_qual self)); [ reflexivity | lia ]. }
    split; [ exact E | ].
    intros st' H. rewrite E in H.
    exact (record_bad_tallied _ _ _ _ H).
Qed.

Lemma discarded_read_memo_witness :
  exists st1 st2 st3 sd3,
    assess_read sample_caller (mkState ∅ sample_call_data []) "contig1" 0
      (at_offset (sample_read "read1" 5 [30; 30]) 0) = Ok st1 /\
    "read1"%string ∈ discarded_reads st1 /\
    assess_entries sample_caller st1
      [("contig1"%string, 0, at_offset (sample_read "read2" 0 [2; 30]) 0)]
      = Ok st2 /\
    discarded_reads st2 = discarded_reads st1 /\
    assess_read sample_caller st2 "contig1" 1
      (at_offset (sample_read "read1" 5 [30; 30]) 1) = Ok st3 /\
    discarded_reads st3 = discarded_reads st1 /\
    tallied_bad (call_data st2) (call_data st3) "contig1" 1 /\
    scaffolds_data (call_data st3) !! "contig1"%string = Some sd3 /\
    sd_bad sd3 = [2; 1] /\
    sd_alleles sd3 = replicate 2 (mkCell (replicate 6 0) (replicate 6 0)) /\
    sd_lowmq_count sd3 = [0; 0] /\ sd_mq_sum sd3 = [0; 0].
Proof.
  destruct (discarded_read_memo sample_caller)
    as (Hdefect & Hlater & Hreturns & Hqual).
  set (st0 := mkState ∅ sample_call_data []).
  set (r1 := sample_read "read1" 5 [30; 30]).
  set (r2 := sample_read "read2" 0 [2; 30]).
  destruct (Hdefect st0 "contig1"%string 0 (at_offset r1 0))
    as [ _ T1 ]; [ cbn; apply not_elem_of_empty | reflexivity | ].
  destruct (Hreturns st0 "contig1"%string 0 (new_scaffold "contig1" 2)
              0%nat eq_refl eq_refl "read1"%string)
    as (_ & _ & st1' & R1).
  destruct (assess_read sample_caller st0 "contig1" 0 (at_offset r1 0))
    as [ st1 | ] eqn:A1;
    [ | exfalso; vm_compute in A1; discriminate A1 ].
  destruct (T1 st1 eq_refl) as (Hd1 & _ & _).
  assert (Hin : "read1"%string ∈ discarded_reads st1).
  { rewrite Hd1. apply elem_of_union. left. apply elem_of_singleton.
    reflexivity. }
  assert (Hnew : "read2"%string ∉ discarded_reads st1).
  { rewrite Hd1. cbn. intros Habs.
    apply elem_of_union in Habs as [ Habs | Habs ].
    - apply elem_of_singleton in Habs. discriminate Habs.
    - apply elem_of_empty in Habs. exact Habs. }
  destruct (Hqual st1 "contig1"%string 0 (at_offset r2 0) 2)
    as [ E2 T2 ]; [ exact Hnew | reflexivity | reflexivity | cbn; lia | ].
  destruct (assess_read sample_caller st1 "contig1" 0 (at_offset r2 0))
    as [ st2 | ] eqn:A2;
    [ | exfalso; vm_compute in A1; injection A1 as <-; discriminate A2 ].
  destruct (T2 st2 eq_refl) as (Hd2 & _ & _).
  assert (Hrun : assess_entries sample_caller st1
                   [("contig1"%string, 0, at_offset r2 0)] = Ok st2).
  { cbn [assess_entries]. rewrite A2. reflexivity. }
  destruct (Hlater st1 _ st2 "contig1"%string 1 (at_offset r1 1) Hin Hrun)
    as (_ & _ & T3).
  destruct (assess_read sample_caller st2 "contig1" 1 (at_offset r1 1))
    as [ st3 | ] eqn:A3;
    [ | exfalso; vm_compute in A1; injection A1 as <-;
        vm_compute in A2; injection A2 as <-; discriminate A3 ].
  destruct (T3 st3 eq_refl) as (Hd3 & _ & Ht3).
  destruct (scaffolds_data (call_data st3) !! "contig1"%string)
    as [ sd3 | ] eqn:Hsd3;
    [ | exfalso; vm_compute in A1; injection A1 as <-;
        vm_compute in A2; injection A2 as <-;
        vm_compute in A3; injection A3 as <-; discriminate Hsd3 ].
  exists st1, st2, st3, sd3.
  split; [ first [ reflexivity | exact A1 ] | ]. split; [ exact Hin | ].
  split; [ exact Hrun | ]. split; [ exact Hd2 | ].
  split; [ exact A3 | ].
  split; [ rewrite Hd3; exact Hd2 | ].
  split; [ exact Ht3 | ].
  split; [ exact Hsd3 | ].
  vm_compute in A1. injection A1 as <-.
  vm_compute in A2. injection A2 as <-.
  vm_compute in A3. injection A3 as <-.
  vm_compute in Hsd3. injection Hsd3 as <-.
  repeat split; reflexivity.
Defined.

(** ** Reference coordinates *)

Lemma genome_coord_documented_lower items offset name c g :
  Forall (fun it => 0 <= snd it) items ->
  genome_coord_documented items offset name c = Some g ->
  offset + c - 1 <= g.
Proof.
  intros Hnn. revert offset.
  induction Hnn as [ | [ n len ] items Hlen _ IH ]; intros offset H.
  - discriminate H.
  - cbn in H. cbn in Hlen. case_bool_decide.
    + injection H as <-. lia.
    + apply IH in H. lia.
Qed.

(** The translation the docstring describes is undone by
    [scaffold_coord]. *)
Lemma documented_round_trip items offset name c len g :
  Forall (fun it => 0 <= snd it) items ->
  length_of (named_lengths items) name = Some len ->
  1 <= c <= len ->
  genome_coord_documented (named_lengths items) offset name c = Some g ->
  scaffold_coord_loop items offset g = Some (name, c).
Proof.
  intros Hnn. revert offset.
  induction Hnn as [ | [ sq l ] items Hl Hnn IH ]; intros offset Hlen Hc Hg.
  - discriminate Hlen.
  - cbn in Hlen, Hg, Hl |- *. case_bool_decide as Hname.
    + injection Hlen as ->. injection Hg as <-.
      destruct (Z.ltb_spec (offset + c - 1) (offset + len)); [ | lia ].
      rewrite Hname. f_equal. f_equal. lia.
    + assert (Hlow : offset + l + c - 1 <= g).
      { apply (genome_coord_documented_lower (named_lengths items) _ name).
        - unfold named_lengths. rewrite Forall_map.
          eapply Forall_impl; [ exact Hnn | ]. intros [ ? ? ] Hx. exact Hx.
        - exact Hg. }
      destruct (Z.ltb_spec g (offset + l)); [ lia | ].
      apply IH; assumption.
Qed.

(** [scaffold_to_genome_coord] never gets past its first scaffold. *)
Lemma scaffold_to_genome_coord_raises self name coord :
  scaffolds self <> [] -> lengths self <> [] ->
  scaffold_to_genome_coord self name coord = Raise AttributeError.
Proof.
  unfold scaffold_to_genome_coord. intros Hs Hl.
  destruct (scaffolds self) as [ | [ k v ] rest ]; [ contradiction | ].
  destruct (lengths self) as [ | l ls ]; [ contradiction | ].
  reflexivity.
Qed.

(** C8. On a reference of two scaffolds, [scaffold_coord] maps the
    genome-wide coordinates 0 and 4 to the first base of each scaffold,
    and [scaffold_to_genome_coord], asked for these two bases, raises
    [AttributeError] instead of answering 0 and 4. *)
Theorem scaffold_to_genome_coord_attribute_error :
  scaffold_coord sample_reference 0 = Some ("contig1"%string, 1) /\
  scaffold_coord sample_reference 4 = Some ("contig2"%string, 1) /\
  genome_coord_documented
    (zip (map fst (scaffolds sample_reference)) (lengths sample_reference))
    0 "contig2" 1 = Some 4 /\
  scaffold_to_genome_coord sample_reference "contig1" 1 =
    Raise AttributeError /\
  scaffold_to_genome_coord sample_reference "contig2" 1 =
    Raise AttributeError.
Proof.
  repeat split; try reflexivity;
    apply scaffold_to_genome_coord_raises; discriminate.
Qed.

(** ** Gaps *)

Lemma drop_cons_lookup {A} (a : list A) (k : nat) x l :
  drop k a = x :: l -> a !! k = Some x /\ drop (S k) a = l.
Proof.
  revert k. induction a as [ | y a IH ]; intros k H.
  - destruct k; discriminate H.
  - destruct k as [ | k ].
    + cbn in H. injection H as -> ->. split; [ reflexivity | ].
      cbn. apply drop_0.
    + cbn in H. apply IH in H. exact H.
Qed.

Lemma drop_nil_length {A} (a : list A) (k : nat) :
  drop k a = [] -> (length a <= k)%nat.
Proof.
  intros H. pose proof (length_drop a k) as L. rewrite H in L.
  cbn in L. lia.
Qed.

(** The groups cut from an array are exactly its maximal runs. *)
Lemma groups_from_spec (a : list bool) l start v n g :
  (1 <= n)%nat ->
  drop (start + n) a = l ->
  (forall i : nat, (start <= i < start + n)%nat -> a !! i = Some v) ->
  (start = 0%nat \/ a !! (start - 1)%nat = Some (negb v)) ->
  g ∈ groups_from l start v n <->
  exists val s m,
    g = mkGroup (replicate m val) s m /\ is_run a val s m /\ (start <= s)%nat.
Proof.
  revert start v n.
  induction l as [ | x l IH ]; intros start v n Hn Hdrop Hall Hleft.
  - apply drop_nil_length in Hdrop. cbn [groups_from].
    rewrite list_elem_of_singleton. split.
    + intros ->. exists v, start, n. split; [ reflexivity | ].
      split; [ | lia ].
      split; [ lia | ]. split; [ exact Hall | ]. split; [ exact Hleft | ].
      left. apply lookup_ge_None. lia.
    + intros (val & s & m & -> & (Hm & Hrun & Hl & Hr) & Hs).
      assert (Hs_lt : (s < start + n)%nat).
      { pose proof (Hrun s ltac:(lia)) as E.
        apply lookup_lt_Some in E. lia. }
      assert (Hval : val = v).
      { pose proof (Hrun s ltac:(lia)) as E.
        rewrite (Hall s ltac:(lia)) in E. congruence. }
      subst val.
      assert (s = start).
      { destruct Hl as [ -> | Hl ]; [ lia | ].
        destruct (decide (s = start)) as [ E | E ]; [ exact E | ].
        rewrite (Hall (s - 1)%nat ltac:(lia)) in Hl.
        destruct v; discriminate Hl. }
      subst s.
      assert (m = n).
      { destruct (decide (m < n)%nat) as [ Hlt | Hge ].
        - destruct Hr as [ Hr | Hr ];
            rewrite (Hall (start + m)%nat ltac:(lia)) in Hr;
            [ discriminate Hr | destruct v; discriminate Hr ].
        - destruct (decide (n < m)%nat) as [ Hgt | ]; [ | lia ].
          pose proof (Hrun (start + n)%nat ltac:(lia)) as E.
          apply lookup_lt_Some in E. lia. }
      subst m. reflexivity.
  - apply drop_cons_lookup in Hdrop as [ Hx Hdrop ].
    cbn [groups_from]. destruct (Bool.eqb x v) eqn:Exv.
    + apply Bool.eqb_prop in Exv. subst x.
      rewrite (IH start v (S n)).
      * reflexivity.
      * lia.
      * rewrite <- Hdrop. f_equal. lia.
      * intros i Hi. destruct (decide (i = start + n)%nat) as [ -> | ].
        -- exact Hx.
        -- apply Hall. lia.
      * exact Hleft.
    + apply Bool.eqb_false_iff in Exv.
      assert (Hxv : x = negb v) by (destruct x, v; cbn; congruence).
      rewrite elem_of_cons.
      rewrite (IH (start + n)%nat x 1%nat).
      * split.
        -- intros [ -> | (val & s & m & -> & Hrun & Hs) ].
           ++ exists v, start, n. split; [ reflexivity | ].
              split; [ | lia ].
              split; [ lia | ]. split; [ exact Hall | ].
              split; [ exact Hleft | ]. right. rewrite Hx, Hxv. reflexivity.
           ++ exists val, s, m. split; [ reflexivity | ].
              split; [ exact Hrun | lia ].
        -- intros (val & s & m & -> & (Hm & Hrun & Hl & Hr) & Hs).
           destruct (decide (start + n <= s)%nat) as [ Hge | Hlt ].
           ++ right. exists val, s, m. split; [ reflexivity | ].
              split; [ | exact Hge ]. repeat split; assumption.
           ++ left.
              assert (Hval : val = v).
              { pose proof (Hrun s ltac:(lia)) as E.
                rewrite (Hall s ltac:(lia)) in E. congruence. }
              subst val.
              assert (s = start).
              { destruct Hl as [ -> | Hl ]; [ lia | ].
                destruct (decide (s = start)) as [ E | E ]; [ exact E | ].
                rewrite (Hall (s - 1)%nat ltac:(lia)) in Hl.
                destruct v; discriminate Hl. }
              subst s.
              assert (m = n).
              { destruct (decide (m < n)%nat) as [ Hlt' | Hge' ].
                - destruct Hr as [ Hr | Hr ];
                    rewrite (Hall (start + m)%nat ltac:(lia)) in Hr;
                    [ discriminate Hr | destruct v; discriminate Hr ].
                - destruct (decide (n < m)%nat) as [ Hgt | ]; [ | lia ].
                  pose proof (Hrun (start + n)%nat ltac:(lia)) as E.
                  rewrite Hx, Hxv in E. destruct v; discriminate E. }
              subst m. reflexivity.
      * lia.
      * rewrite <- Hdrop. f_equal. lia.
      * intros i Hi. assert (i = (start + n)%nat) as -> by lia. exact Hx.
      * right. replace (start + n - 1)%nat with (start + (n - 1))%nat by lia.
        rewrite (Hall (start + (n - 1))%nat ltac:(lia)).
        rewrite Hxv. destruct v; reflexivity.
Qed.

Lemma groups_from_sorted l start v n :
  StronglySorted in_order (groups_from l start v n) /\
  Forall (fun g => (start <= g_start g)%nat) (groups_from l start v n).
Proof.
  revert start v n. induction l as [ | x l IH ]; intros start v n.
  - cbn. split.
    + apply SSorted_cons; [ apply SSorted_nil | apply Forall_nil_2 ].
    + apply Forall_cons. split; [ cbn; lia | apply Forall_nil_2 ].
  - cbn [groups_from]. destruct (Bool.eqb x v).
    + apply IH.
    + destruct (IH (start + n)%nat x 1%nat) as [ Hsorted Hstart ].
      split.
      * apply SSorted_cons; [ exact Hsorted | ].
        eapply Forall_impl; [ exact Hstart | ].
        intros g Hg. unfold in_order, g_end. cbn. exact Hg.
      * apply Forall_cons. split; [ cbn; lia | ].
        eapply Forall_impl; [ exact Hstart | ].
        intros g Hg. cbn in Hg. lia.
Qed.

Lemma StronglySorted_filter_keep {A} (R : A -> A -> Prop) (P : A -> Prop)
      `{!forall x, Decision (P x)} (l : list A) :
  StronglySorted R l -> StronglySorted R (filter P l).
Proof.
  induction 1 as [ | x l Hl IH Hx ].
  - apply SSorted_nil.
  - rewrite filter_cons. destruct (decide (P x)); [ | exact IH ].
    apply SSorted_cons; [ exact IH | ].
    apply Forall_forall. intros y Hy.
    apply list_elem_of_filter in Hy as [ _ Hy ].
    rewrite Forall_forall in Hx. apply Hx. exact Hy.
Qed.

(** The maximal runs of an array at least [min_size] long. *)
Lemma find_consecutive_groups_spec (a : list bool) min_size g :
  g ∈ find_consecutive_groups a min_size <->
  exists val s m,
    g = mkGroup (replicate m val) s m /\ is_run a val s m /\
    min_size <= Z.of_nat m.
Proof.
  unfold find_consecutive_groups. rewrite list_elem_of_filter.
  destruct a as [ | x l ].
  - split.
    + intros [ _ H ]. apply elem_of_nil in H. contradiction.
    + intros (val & s & m & _ & (Hm & Hrun & _) & _).
      pose proof (Hrun s ltac:(lia)) as E. discriminate E.
  - rewrite (groups_from_spec (x :: l) l 0 x 1 g).
    + split.
      * intros (Hsize & val & s & m & -> & Hrun & _).
        exists val, s, m. cbn in Hsize.
        split; [ reflexivity | ]. split; [ exact Hrun | exact Hsize ].
      * intros (val & s & m & -> & Hrun & Hsize).
        split; [ exact Hsize | ].
        exists val, s, m. split; [ reflexivity | ].
        split; [ exact Hrun | lia ].
    + lia.
    + reflexivity.
    + intros i Hi. assert (i = 0%nat) as -> by lia. reflexivity.
    + left. reflexivity.
Qed.

Lemma find_consecutive_groups_sorted (a : list bool) min_size :
  StronglySorted in_order (find_consecutive_groups a min_size).
Proof.
  unfold find_consecutive_groups. apply StronglySorted_filter_keep.
  destruct a as [ | x l ]; [ apply SSorted_nil | ].
  apply groups_from_sorted.
Qed.

Lemma existsb_replicate (m : nat) (val : bool) :
  (0 < m)%nat -> existsb (fun b : bool => b) (replicate m val) = val.
Proof.
  intros Hm. destruct m as [ | m ]; [ lia | ].
  destruct val; cbn; [ reflexivity | ].
  clear Hm. induction m as [ | m IH ]; [ reflexivity | exact IH ].
Qed.

Lemma np_broadcast2_same {A B C} (f : A -> B -> C) a b :
  length a = length b -> np_broadcast2 f a b = Ok (zip_with f a b).
Proof.
  intros H. unfold np_broadcast2. apply Nat.eqb_eq in H. rewrite H.
  reflexivity.
Qed.

(** With arrays of one length, [covered_array] holds [covered_at] at
    every position. *)
Lemma covered_array_lookup self weak :
  sd_weak self = Some weak ->
  length weak = length (sd_alleles self) ->
  length (sd_lowmq_count self) = length (sd_alleles self) ->
  exists lowmq covered,
    covered_array self = Ok (lowmq, covered) /\
    forall i : nat, covered !! i = covered_at self i.
Proof.
  intros Hweak Lw Ll. unfold covered_array.
  rewrite np_broadcast2_same by (rewrite length_map; exact Ll).
  cbn [rbind]. rewrite Hweak.
  rewrite np_broadcast2_same
    by (rewrite length_map, length_zip_with, length_map; lia).
  cbn [rbind]. eexists _, _. split; [ reflexivity | ].
  intros i. unfold covered_at. rewrite Hweak.
  rewrite !lookup_zip_with, !list_lookup_fmap.
  destruct (weak !! i) as [ w | ]; cbn; [ | reflexivity ].
  destruct (sd_lowmq_count self !! i) as [ l | ]; cbn; [ | reflexivity ].
  destruct (sd_alleles self !! i) as [ c | ]; reflexivity.
Qed.

(** The gaps once [find_gaps] has returned. *)
Lemma find_gaps_returned lw min_gap self self' weak scaled :
  sd_weak self = Some weak ->
  Forall (fun w => 0 <= w) weak ->
  length weak = length (sd_alleles self) ->
  length (sd_lowmq_count self) = length (sd_alleles self) ->
  scale_min_gap_size lw min_gap (sd_mean_coverage self) = Ok scaled ->
  find_gaps lw min_gap self = Ok self' ->
  (forall g,
     g ∈ sd_gaps self' <->
     exists s n : nat,
       g = mkGroup (replicate n false) s n /\
       scaled <= Z.of_nat n /\
       (0 < n)%nat /\
       (forall i : nat, (s <= i < s + n)%nat ->
                        covered_at self i = Some false) /\
       (s = 0%nat \/ covered_at self (s - 1)%nat = Some true) /\
       (covered_at self (s + n)%nat = None \/
        covered_at self (s + n)%nat = Some true)) /\
  (forall (i : nat) w l c,
     weak !! i = Some w -> sd_lowmq_count self !! i = Some l ->
     sd_alleles self !! i = Some c ->
     covered_at self i = Some false <->
     w = 0 /\ ~ (1 < l /\ np_sum (counts c) < l)) /\
  StronglySorted in_order (sd_gaps self') /\
  Forall (fun g => scaled <= Z.of_nat (g_length g)) (sd_gaps self').
Proof.
  intros Hweak Hnn Lw Ll Hscaled Hfind.
  destruct (covered_array_lookup self weak Hweak Lw Ll)
    as (lowmq & covered & Hcov & Hat).
  unfold find_gaps in Hfind. rewrite Hscaled in Hfind.
  cbn [rbind] in Hfind. rewrite Hcov in Hfind. cbn [rbind snd] in Hfind.
  injection Hfind as <-. cbn [sd_gaps].
  assert (Hmem : forall g,
    g ∈ filter (fun group => negb (existsb (fun b : bool => b) (g_data group)) = true)
          (find_consecutive_groups covered scaled) <->
    exists s n : nat,
      g = mkGroup (replicate n false) s n /\ scaled <= Z.of_nat n /\
      is_run covered false s n).
  { intros g. rewrite list_elem_of_filter, find_consecutive_groups_spec.
    split.
    - intros (Hany & val & s & m & -> & Hrun & Hsize).
      cbn [g_data] in Hany.
      rewrite existsb_replicate in Hany by (destruct Hrun; assumption).
      destruct val; [ discriminate Hany | ].
      exists s, m. split; [ reflexivity | ]. split; assumption.
    - intros (s & n & -> & Hsize & Hrun).
      split.
      + cbn [g_data].
        rewrite existsb_replicate by (destruct Hrun; assumption).
        reflexivity.
      + exists false, s, n. split; [ reflexivity | ]. split; assumption. }
  split; [ | split; [ | split ] ].
  - intros g. rewrite Hmem. unfold is_run. cbn [negb].
    split; intros (s & n & -> & Hsize & Hn & Hall & Hl & Hr);
      exists s, n; (split; [ reflexivity | ]); (split; [ exact Hsize | ]);
      (split; [ exact Hn | ]).
    + split; [ intros i Hi; rewrite <- Hat; apply Hall; exact Hi | ].
      rewrite <- !Hat. split; assumption.
    + split; [ intros i Hi; rewrite Hat; apply Hall; exact Hi | ].
      rewrite !Hat. split; assumption.
  - intros i w l c Hw Hl Hc. unfold covered_at.
    rewrite Hweak, Hw, Hl, Hc.
    rewrite Forall_forall in Hnn.
    assert (0 <= w) by (apply Hnn; eapply list_elem_of_lookup_2; exact Hw).
    split.
    + intros [= E]. apply orb_false_iff in E as [ E1 E2 ].
      apply Z.ltb_ge in E1. split; [ lia | ].
      intros [ H1 H2 ]. apply andb_false_iff in E2 as [ E2 | E2 ];
        apply Z.ltb_ge in E2; lia.
    + intros [ -> Hnot ]. f_equal. apply orb_false_iff. split.
      * reflexivity.
      * apply andb_false_iff.
        destruct (Z.ltb_spec 1 l); [ | left; reflexivity ].
        right. apply Z.ltb_ge. lia.
  - apply StronglySorted_filter_keep. apply find_consecutive_groups_sorted.
  - apply Forall_forall. intros g Hg. apply Hmem in Hg.
    destruct Hg as (s & n & -> & Hsize & _). exact Hsize.
Qed.

(** [find_gaps] returns after allele calling, on arrays of one length,
    when the scaled minimum could be computed. *)
Lemma find_gaps_total lw min_gap self weak scaled :
  sd_weak self = Some weak ->
  length weak = length (sd_alleles self) ->
  length (sd_lowmq_count self) = length (sd_alleles self) ->
  scale_min_gap_size lw min_gap (sd_mean_coverage self) = Ok scaled ->
  exists self', find_gaps lw min_gap self = Ok self'.
Proof.
  intros Hweak Lw Ll Hscaled.
  destruct (covered_array_lookup self weak Hweak Lw Ll)
    as (lowmq & covered & Hcov & _).
  unfold find_gaps. rewrite Hscaled. cbn [rbind].
  rewrite Hcov. cbn [rbind]. eauto.
Qed.

(** C6. The scaled minimum of [find_gaps] is [min_gap] itself when the
    coverage factor is not above 0, and otherwise the [float64] quotient
    of [min_gap] by the factor, truncated; when it cannot be computed
    [find_gaps] raises what the scaling raised. With the scaled minimum
    computed, [find_gaps] returns, and the gaps of the scaffold are
    exactly the maximal runs of uncovered positions (no weak call, and
    not both more than one low-mapping-quality read and more of them
    than good reads) whose length is at least the scaled minimum; a run
    with a covered position in it is not among them. The gaps come in
    order of their start and each ends before the next begins. *)
Theorem find_gaps_maximal_uncovered_runs lw min_gap self weak :
  sd_weak self = Some weak ->
  Forall (fun w => 0 <= w) weak ->
  length weak = length (sd_alleles self) ->
  length (sd_lowmq_count self) = length (sd_alleles self) ->
  (PrimFloat.ltb PrimFloat.zero (lw (sd_mean_coverage self)) = false ->
   scale_min_gap_size lw min_gap (sd_mean_coverage self) = Ok min_gap) /\
  (PrimFloat.ltb PrimFloat.zero (lw (sd_mean_coverage self)) = true ->
   forall g,
     py_float min_gap = Ok g ->
     scale_min_gap_size lw min_gap (sd_mean_coverage self) =
     py_int (PrimFloat.div g (lw (sd_mean_coverage self)))) /\
  (forall e,
     scale_min_gap_size lw min_gap (sd_mean_coverage self) = Raise e ->
     find_gaps lw min_gap self = Raise e) /\
  forall scaled,
    scale_min_gap_size lw min_gap (sd_mean_coverage self) = Ok scaled ->
    exists self',
      find_gaps lw min_gap self = Ok self' /\
      (forall g,
         g ∈ sd_gaps self' <->
         exists s n : nat,
           g = mkGroup (replicate n false) s n /\
           scaled <= Z.of_nat n /\
           (0 < n)%nat /\
           (forall i : nat, (s <= i < s + n)%nat ->
                            covered_at self i = Some false) /\
           (s = 0%nat \/ covered_at self (s - 1)%nat = Some true) /\
           (covered_at self (s + n)%nat = None \/
            covered_at self (s + n)%nat = Some true)) /\
      (forall (i : nat) w l c,
         weak !! i = Some w -> sd_lowmq_count self !! i = Some l ->
         sd_alleles self !! i = Some c ->
         covered_at self i = Some false <->
         w = 0 /\ ~ (1 < l /\ np_sum (counts c) < l)) /\
      StronglySorted in_order (sd_gaps self') /\
      Forall (fun g => scaled <= Z.of_nat (g_length g)) (sd_gaps self').
Proof.
  intros Hweak Hnn Lw Ll.
  split; [ | split; [ | split ] ].
  - intros Hle. unfold scale_min_gap_size. rewrite Hle. reflexivity.
  - intros Hlt g Hg. unfold scale_min_gap_size. rewrite Hlt, Hg.
    reflexivity.
  - intros e He. unfold find_gaps. rewrite He. reflexivity.
  - intros scaled Hscaled.
    destruct (find_gaps_total lw min_gap self weak scaled Hweak Lw Ll Hscaled)
      as [ self' Hfind ].
    exists self'. split; [ exact Hfind | ].
    exact (find_gaps_returned lw min_gap self self' weak scaled
             Hweak Hnn Lw Ll Hscaled Hfind).
Qed.

Lemma find_gaps_maximal_uncovered_runs_witness :
  scale_min_gap_size tenth_factor 2000 (sd_mean_coverage gapped_scaffold)
    = Ok 20000 /\
  scale_min_gap_size half_factor 1 (sd_mean_coverage gapped_scaffold)
    = Ok 2 /\
  (exists self',
     find_gaps half_factor 1 gapped_scaffold = Ok self' /\
     mkGroup [false; false; false] 1 3 ∈ sd_gaps self' /\
     sd_gaps self' = [mkGroup [false; false; false] 1 3]) /\
  scale_min_gap_size half_factor 2 (sd_mean_coverage gapped_scaffold)
    = Ok 4 /\
  exists self'',
    find_gaps half_factor 2 gapped_scaffold = Ok self'' /\
    sd_gaps self'' = [].
Proof.
  assert (Hnn : Forall (fun w => 0 <= w) [Allele.A; 0; 0; 0; Allele.A; 0])
    by (repeat constructor; unfold Allele.A; lia).
  destruct (find_gaps_maximal_uncovered_runs tenth_factor 2000
              gapped_scaffold [Allele.A; 0; 0; 0; Allele.A; 0]
              eq_refl Hnn eq_refl eq_refl) as (_ & Htenth & _ & _).
  destruct (find_gaps_maximal_uncovered_runs half_factor 1 gapped_scaffold
              [Allele.A; 0; 0; 0; Allele.A; 0] eq_refl Hnn eq_refl eq_refl)
    as (_ & Hone & _ & Hgaps1).
  destruct (find_gaps_maximal_uncovered_runs half_factor 2 gapped_scaffold
              [Allele.A; 0; 0; 0; Allele.A; 0] eq_refl Hnn eq_refl eq_refl)
    as (_ & Htwo & _ & Hgaps2).
  assert (E2000 : scale_min_gap_size tenth_factor 2000
                    (sd_mean_coverage gapped_scaffold) = Ok 20000).
  { rewrite (Htenth eq_refl (np_float64 2000) eq_refl). reflexivity. }
  assert (E1 : scale_min_gap_size half_factor 1
                 (sd_mean_coverage gapped_scaffold) = Ok 2).
  { rewrite (Hone eq_refl (np_float64 1) eq_refl). reflexivity. }
  assert (E2 : scale_min_gap_size half_factor 2
                 (sd_mean_coverage gapped_scaffold) = Ok 4).
  { rewrite (Htwo eq_refl (np_float64 2) eq_refl). reflexivity. }
  split; [ exact E2000 | ]. split; [ exact E1 | ].
  destruct (Hgaps1 2 E1) as (self' & F1 & Hiff & _ & _ & _).
  destruct (Hgaps2 4 E2) as (self'' & F2 & Hiff2 & _ & _ & Hmin2).
  split; [ | split; [ exact E2 | ] ].
  - exists self'. split; [ exact F1 | ]. split.
    + apply Hiff. exists 1%nat, 3%nat.
      split; [ reflexivity | ]. split; [ lia | ].
      split; [ lia | ]. split.
      * intros i Hi.
        assert (i = 1 \/ i = 2 \/ i = 3)%nat as [ -> | [ -> | -> ] ] by lia;
          reflexivity.
      * split; [ right; reflexivity | right; reflexivity ].
    + vm_compute in F1. injection F1 as <-. reflexivity.
  - exists self''. split; [ exact F2 | ].
    vm_compute in F2. injection F2 as <-. reflexivity.
Defined.

(** ** Allele model: iteration and formatting, properties *)

Lemma land_pow2_testbit (a : Z) (j : Z) :
  0 <= j -> Z.land a (2 ^ j) = if Z.testbit a j then 2 ^ j else 0.
Proof.
  intros Hj. apply Z.bits_inj'. intros n Hn.
  rewrite Z.land_spec, Z.pow2_bits_eqb by exact Hj.
  destruct (Z.eqb_spec j n) as [ <- | Hne ].
  - destruct (Z.testbit a j) eqn:E; cbn.
    + rewrite Z.pow2_bits_true by exact Hj. reflexivity.
    + rewrite Z.bits_0. reflexivity.
  - rewrite andb_false_r. destruct (Z.testbit a j).
    + rewrite Z.pow2_bits_false by congruence. reflexivity.
    + rewrite Z.bits_0. reflexivity.
Qed.

Lemma land_63_mask_value (a : Z) :
  Z.land a 63 = mask_value (fun k => Z.testbit a (Z.of_nat k)).
Proof.
  apply Z.bits_inj'. intros n Hn. rewrite Z.land_spec.
  destruct (Z.testbit (mask_value _) n) eqn:E.
  - apply mask_value_bits in E as (k & Hk & -> & Hb). rewrite Hb.
    do 6 (destruct k as [ | k ]; [ reflexivity | ]). lia.
  - destruct (Z.ltb_spec n 6) as [ Hlt | Hge ].
    + assert (Hbit : Z.testbit a n = false).
      { destruct (Z.testbit a n) eqn:Ea; [ | reflexivity ].
        rewrite <- E. symmetry. rewrite <- (Z2Nat.id n) by lia.
        apply mask_value_bit_set; [ lia | ].
        rewrite Z2Nat.id by lia. exact Ea. }
      rewrite Hbit. reflexivity.
    + rewrite (Z.bits_above_log2 63 n) by (cbn; lia).
      apply andb_false_r.
Qed.

(** The alleles a value iterates to, written with its six bits. *)
Lemma allele_iter_bits (a : Z) :
  allele_iter a =
  (if Z.testbit a 0 then [Allele.A] else []) ++
  (if Z.testbit a 1 then [Allele.C] else []) ++
  (if Z.testbit a 2 then [Allele.G] else []) ++
  (if Z.testbit a 3 then [Allele.T] else []) ++
  (if Z.testbit a 4 then [Allele.INS] else []) ++
  (if Z.testbit a 5 then [Allele.DEL] else []).
Proof.
  unfold allele_iter, allele_members_all, Allele.members.
  rewrite !filter_cons, filter_nil.
  unfold Allele.N, Allele.A, Allele.C, Allele.G, Allele.T, Allele.INS,
    Allele.DEL.
  rewrite Z.land_0_r.
  rewrite (land_pow2_testbit a 0 ltac:(lia) : Z.land a 1 = _).
  rewrite (land_pow2_testbit a 1 ltac:(lia) : Z.land a 2 = _).
  rewrite (land_pow2_testbit a 2 ltac:(lia) : Z.land a 4 = _).
  rewrite (land_pow2_testbit a 3 ltac:(lia) : Z.land a 8 = _).
  rewrite (land_pow2_testbit a 4 ltac:(lia) : Z.land a 16 = _).
  rewrite (land_pow2_testbit a 5 ltac:(lia) : Z.land a 32 = _).
  destruct (Z.testbit a 0), (Z.testbit a 1), (Z.testbit a 2),
    (Z.testbit a 3), (Z.testbit a 4), (Z.testbit a 5); reflexivity.
Qed.

(** X1. Iterating an allele value yields members other than [N], in
    definition order and without repetition, and their union is the
    value cut down to the six allele bits. *)
Theorem allele_iter_recombines (a : Allele.t) :
  Forall (fun m => m ∈ Allele.members) (allele_iter a) /\
  StronglySorted Z.lt (allele_iter a) /\
  foldr Z.lor 0 (allele_iter a) = Z.land a 63 /\
  (length (allele_iter a) <= 6)%nat /\
  allele_iter (Z.lor Allele.A Allele.T) = [Allele.A; Allele.T].
Proof.
  rewrite land_63_mask_value, allele_iter_bits. unfold mask_value.
  change (Z.of_nat 0) with 0. change (Z.of_nat 1) with 1.
  change (Z.of_nat 2) with 2. change (Z.of_nat 3) with 3.
  change (Z.of_nat 4) with 4. change (Z.of_nat 5) with 5.
  destruct (Z.testbit a 0), (Z.testbit a 1), (Z.testbit a 2),
    (Z.testbit a 3), (Z.testbit a 4), (Z.testbit a 5);
    (split; [ repeat constructor
            | split; [ repeat constructor; reflexivity
                     | split; [ reflexivity
                              | split; [ cbn; lia | reflexivity ] ] ] ]).
Qed.

Lemma allele_str_round_trip_cases (n : nat) :
  (n < 64)%nat ->
  exists s, allele_str (Z.of_nat n) = Ok s /\
    bool_decide (Allele.from_str s = Z.of_nat n) =
    bool_decide (Z.of_nat n ∈ allele_members_all) /\
    bool_decide (Z.of_nat n ∈ allele_members_all)
    || bool_decide (Allele.from_str s = Allele.N) = true.
Proof.
  intros Hn.
  do 64 (destruct n as [ | n ];
         [ eexists; split; [ reflexivity | split; vm_compute; reflexivity ]
         | ]).
  lia.
Qed.

(** X2. Formatting an allele value and reading the text back returns the
    value exactly for [N] and the six single alleles; a combined value is
    written with commas and reads back as [N]. *)
Theorem allele_str_round_trip (a : Z) :
  0 <= a < 64 ->
  exists s,
    allele_str a = Ok s /\
    (Allele.from_str s = a <-> a ∈ allele_members_all) /\
    (a ∉ allele_members_all -> Allele.from_str s = Allele.N).
Proof.
  intros Ha.
  destruct (allele_str_round_trip_cases (Z.to_nat a) ltac:(lia))
    as (s & Hs & Hb & Hn).
  rewrite Z2Nat.id in Hs, Hb, Hn by lia.
  exists s. split; [ exact Hs | ]. split.
  - split; intros H.
    + assert (Hx : bool_decide (a ∈ allele_members_all) = true)
        by (rewrite <- Hb; apply bool_decide_eq_true_2; exact H).
      exact (bool_decide_eq_true_1 _ Hx).
    + assert (Hx : bool_decide (Allele.from_str s = a) = true)
        by (rewrite Hb; apply bool_decide_eq_true_2; exact H).
      exact (bool_decide_eq_true_1 _ Hx).
  - intros Hnot. apply orb_true_iff in Hn as [ Hn | Hn ].
    + apply bool_decide_eq_true_1 in Hn. contradiction.
    + apply bool_decide_eq_true_1 in Hn. exact Hn.
Qed.

Lemma allele_str_round_trip_witness :
  allele_str Allele.INS = Ok "INS"%string /\
  Allele.from_str "INS" = Allele.INS /\
  allele_str (Z.lor Allele.A Allele.T) = Ok "A,T"%string /\
  Allele.from_str "A,T" = Allele.N.
Proof.
  destruct (allele_str_round_trip Allele.INS
              ltac:(split; [ vm_compute; discriminate | reflexivity ]))
    as (s & Hs & Hiff & _).
  destruct (allele_str_round_trip (Z.lor Allele.A Allele.T)
              ltac:(split; [ vm_compute; discriminate | reflexivity ]))
    as (s' & Hs' & _ & Hn).
  assert (E : s = "INS"%string)
    by (vm_compute in Hs; injection Hs as <-; reflexivity).
  assert (E' : s' = "A,T"%string)
    by (vm_compute in Hs'; injection Hs' as <-; reflexivity).
  subst s s'.
  split; [ exact Hs | ]. split.
  - apply Hiff. unfold allele_members_all, Allele.members.
    rewrite !elem_of_cons. do 5 right. left. reflexivity.
  - split; [ exact Hs' | ]. apply Hn.
    unfold allele_members_all, Allele.members. vm_compute.
    intros H. repeat (apply elem_of_cons in H as [ H | H ];
                      [ discriminate H | ]).
    apply elem_of_nil in H. exact H.
Defined.

(** ** Well-formed call data: what the updates keep *)

Lemma wrap32_u32 (z : Z) : u32 (wrap32 z).
Proof. unfold u32, wrap32. apply Z.mod_pos_bound. reflexivity. Qed.

Lemma np_iadd_keeps (a a' : list Z) (i v : Z) :
  np_iadd a i v = Ok a' ->
  length a' = length a /\ (Forall u32 a -> Forall u32 a').
Proof.
  unfold np_iadd. destruct (np_index (length a) i) as [ k | ];
    [ | discriminate ].
  cbn [rbind]. intros [= <-]. split.
  - apply length_alter.
  - intros H. apply Forall_alter; [ exact H | ].
    intros x _ _. apply wrap32_u32.
Qed.

Lemma np_index_lt (len : nat) (i : Z) (k : nat) :
  np_index len i = Ok k -> (k < len)%nat.
Proof.
  unfold np_index.
  destruct ((0 <=? i) && (i <? Z.of_nat len)) eqn:E1.
  - intros [= <-]. apply andb_true_iff in E1 as [ H1 H2 ].
    apply Z.leb_le in H1. apply Z.ltb_lt in H2. lia.
  - destruct ((- Z.of_nat len <=? i) && (i <? 0)) eqn:E2; [ | discriminate ].
    intros [= <-]. apply andb_true_iff in E2 as [ H1 H2 ].
    apply Z.leb_le in H1. apply Z.ltb_lt in H2. lia.
Qed.

Lemma alleles_iadd_keeps alleles alleles' pos row ix v :
  alleles_iadd alleles pos row ix v = Ok alleles' ->
  length alleles' = length alleles /\
  (Forall cell_ok alleles -> Forall cell_ok alleles').
Proof.
  unfold alleles_iadd.
  destruct (np_index (length alleles) pos) as [ k | ]; [ | discriminate ].
  cbn [rbind]. destruct (alleles !! k) as [ cell | ] eqn:Hk;
    [ | discriminate ].
  destruct row.
  - destruct (np_iadd (quals cell) (Z.of_nat ix) v) as [ q | ] eqn:Hq;
      [ | discriminate ].
    cbn [rbind]. intros [= <-]. split; [ apply length_insert | ].
    intros Hall. apply Forall_insert; [ exact Hall | ].
    rewrite Forall_forall in Hall.
    destruct (Hall cell (list_elem_of_lookup_2 _ _ _ Hk))
      as [ [ Lc Lq ] [ Uc Uq ] ].
    destruct (np_iadd_keeps _ _ _ _ Hq) as [ Lq' Uq' ].
    split; split; cbn; auto; congruence.
  - destruct (np_iadd (counts cell) (Z.of_nat ix) v) as [ c | ] eqn:Hc;
      [ | discriminate ].
    cbn [rbind]. intros [= <-]. split; [ apply length_insert | ].
    intros Hall. apply Forall_insert; [ exact Hall | ].
    rewrite Forall_forall in Hall.
    destruct (Hall cell (list_elem_of_lookup_2 _ _ _ Hk))
      as [ [ Lc Lq ] [ Uc Uq ] ].
    destruct (np_iadd_keeps _ _ _ _ Hc) as [ Lc' Uc' ].
    split; split; cbn; auto; congruence.
Qed.

Lemma new_scaffold_ok name len : scaffold_ok (new_scaffold name len).
Proof.
  assert (Hz : u32 0) by (unfold u32; lia).
  unfold scaffold_ok, new_scaffold.
  cbn [sd_length sd_refmask sd_alleles sd_bad sd_lowmq_count sd_mq_sum].
  rewrite !length_replicate.
  repeat (split; [ first [ lia | reflexivity ] | ]).
  split; [ | repeat split; apply Forall_replicate; exact Hz ].
  apply Forall_replicate. unfold cell_ok. cbn [counts quals].
  rewrite !length_replicate.
  repeat split; apply Forall_replicate; exact Hz.
Qed.

Lemma set_scaffold_ok cd name sd :
  call_data_ok cd -> scaffold_ok sd -> call_data_ok (set_scaffold cd name sd).
Proof.
  intros Hcd Hsd. unfold call_data_ok, set_scaffold. cbn.
  apply map_Forall_insert_2; assumption.
Qed.

Lemma get_scaffold_ok cd name sd :
  call_data_ok cd -> get_scaffold cd name = Ok sd -> scaffold_ok sd.
Proof.
  unfold get_scaffold, call_data_ok. intros Hcd H.
  destruct (scaffolds_data cd !! name) as [ sd' | ] eqn:E; [ | discriminate ].
  injection H as <-. exact (map_Forall_lookup_1 _ _ _ _ Hcd E).
Qed.

Lemma bad_read_ok cd scaffold pos cd' :
  call_data_ok cd -> bad_read cd scaffold pos = Ok cd' -> call_data_ok cd'.
Proof.
  intros Hcd H. unfold bad_read in H.
  destruct (get_scaffold cd scaffold) as [ sd | ] eqn:Hsd; [ | discriminate ].
  cbn [rbind] in H.
  destruct (np_iadd (sd_bad sd) pos 1) as [ bad | ] eqn:Hbad;
    [ | discriminate ].
  cbn [rbind] in H. injection H as <-.
  apply set_scaffold_ok; [ exact Hcd | ].
  pose proof (get_scaffold_ok _ _ _ Hcd Hsd) as Hok.
  destruct (np_iadd_keeps _ _ _ _ Hbad) as [ L U ].
  unfold scaffold_ok in *. cbn. rewrite L. tauto.
Qed.

Lemma low_mapping_quality_ok cd scaffold pos cd' w :
  call_data_ok cd ->
  low_mapping_quality cd scaffold pos = Ok (cd', w) -> call_data_ok cd'.
Proof.
  intros Hcd H. unfold low_mapping_quality in H.
  destruct (get_scaffold cd scaffold) as [ sd | ] eqn:Hsd; [ | discriminate ].
  cbn [rbind] in H.
  destruct (sd_length sd <=? pos).
  - injection H as <- _. exact Hcd.
  - destruct (np_iadd (sd_lowmq_count sd) pos 1) as [ l | ] eqn:Hl;
      [ | discriminate ].
    cbn [rbind] in H. injection H as <- _.
    apply set_scaffold_ok; [ exact Hcd | ].
    pose proof (get_scaffold_ok _ _ _ Hcd Hsd) as Hok.
    destruct (np_iadd_keeps _ _ _ _ Hl) as [ L U ].
    unfold scaffold_ok in *. cbn. rewrite L. tauto.
Qed.

Lemma good_read_ok cd scaffold pos allele bq mq (rc : bool) cd' :
  call_data_ok cd ->
  good_read cd scaffold pos allele bq mq rc = Ok cd' -> call_data_ok cd'.
Proof.
  intros Hcd H. unfold good_read in H.
  destruct (ALLELE_INDEX _) as [ ix | ]; [ | discriminate ].
  cbn [rbind] in H.
  destruct (get_scaffold cd scaffold) as [ sd | ] eqn:Hsd; [ | discriminate ].
  cbn [rbind] in H.
  destruct (alleles_iadd (sd_alleles sd) pos false ix 1) as [ a1 | ] eqn:H1;
    [ | discriminate ].
  cbn [rbind] in H.
  destruct (alleles_iadd a1 pos true ix bq) as [ a2 | ] eqn:H2;
    [ | discriminate ].
  cbn [rbind] in H.
  destruct (np_iadd (sd_mq_sum sd) pos mq) as [ m | ] eqn:Hm;
    [ | discriminate ].
  cbn [rbind] in H. injection H as <-.
  apply set_scaffold_ok; [ exact Hcd | ].
  pose proof (get_scaffold_ok _ _ _ Hcd Hsd) as Hok.
  destruct (alleles_iadd_keeps _ _ _ _ _ _ H1) as [ L1 U1 ].
  destruct (alleles_iadd_keeps _ _ _ _ _ _ H2) as [ L2 U2 ].
  destruct (np_iadd_keeps _ _ _ _ Hm) as [ L U ].
  unfold scaffold_ok in *. cbn. rewrite L, L2, L1. tauto.
Qed.

Lemma inc_uniquely_mapped_reads_ok cd scaffold cd' :
  call_data_ok cd ->
  inc_uniquely_mapped_reads cd scaffold = Ok cd' -> call_data_ok cd'.
Proof.
  intros Hcd H. unfold inc_uniquely_mapped_reads in H.
  match type of H with
  | (let! _ := get_scaffold ?c _ in _) = _ =>
      destruct (get_scaffold c scaffold) as [ sd | ] eqn:Hsd;
        [ | discriminate ]
  end.
  cbn [rbind] in H. injection H as <-.
  apply set_scaffold_ok; [ exact Hcd | ].
  pose proof (get_scaffold_ok cd scaffold sd Hcd Hsd) as Hok.
  exact Hok.
Qed.

Lemma low_mapping_quality_each_ok locs st st' :
  call_data_ok (call_data st) ->
  low_mapping_quality_each st locs = Ok st' -> call_data_ok (call_data st').
Proof.
  revert st. induction locs as [ | [ [ scaffold pos ] rc ] locs IH ];
    intros st Hok H; cbn in H.
  - injection H as <-. exact Hok.
  - destruct (low_mapping_quality _ _ _) as [ [ cd w ] | ] eqn:E;
      [ | discriminate H ].
    cbn [rbind] in H. apply IH in H; [ exact H | ].
    cbn. exact (low_mapping_quality_ok _ _ _ _ _ Hok E).
Qed.

Lemma good_read_each_ok locs st base qual mq st' :
  call_data_ok (call_data st) ->
  good_read_each st base qual mq locs = Ok st' ->
  call_data_ok (call_data st').
Proof.
  revert st. induction locs as [ | [ [ scaffold pos ] rc ] locs IH ];
    intros st Hok H; cbn in H.
  - injection H as <-. exact Hok.
  - destruct (good_read _ _ _ _ _ _ _) as [ cd | ] eqn:E;
      [ | discriminate H ].
    cbn [rbind] in H. apply IH in H; [ exact H | ].
    cbn. exact (good_read_ok _ _ _ _ _ _ _ _ Hok E).
Qed.

Lemma record_bad_ok st scaffold refpos st' :
  call_data_ok (call_data st) ->
  record_bad st scaffold refpos = Ok st' -> call_data_ok (call_data st').
Proof.
  intros Hok H. unfold record_bad in H.
  destruct (bad_read _ _ _) as [ cd | ] eqn:E; [ | discriminate H ].
  cbn [rbind] in H. injection H as <-. cbn.
  exact (bad_read_ok _ _ _ _ Hok E).
Qed.

Lemma assess_read_ok self st scaffold refpos read st' :
  call_data_ok (call_data st) ->
  assess_read self st scaffold refpos read = Ok st' ->
  call_data_ok (call_data st').
Proof.
  intros Hok H. unfold assess_read in H.
  repeat match type of H with
  | (if ?b then _ else _) = Ok _ => destruct b
  | (let! _ := ?m in _) = Ok _ =>
      let E := fresh "E" in
      destruct m eqn:E; cbn [rbind] in H; [ | discriminate H ]
  | record_bad _ _ _ = Ok _ =>
      eapply record_bad_ok; [ | exact H ]; exact Hok
  end.
  - unfold assess_alternative_locations in H. cbn [alignment] in H.
    match type of E1 with
    | low_mapping_quality _ _ _ = Ok ?cw =>
        destruct cw as [ cd w ];
        pose proof (low_mapping_quality_ok _ _ _ _ _ Hok E1) as Hok1
    end.
    cbn [fst snd] in H.
    destruct (mapping_quality (alignment read) <? vc_min_mapping_quality self).
    + destruct (alternative_locations _ _); [ | discriminate H ].
      cbn [rbind] in H.
      eapply low_mapping_quality_each_ok; [ | exact H ]. exact Hok1.
    + injection H as <-. exact Hok1.
  - pose proof (good_read_ok _ _ _ _ _ _ _ _ Hok E1) as Hok1.
    eapply good_read_each_ok; [ | exact H ]. exact Hok1.
  - injection H as <-. cbn.
    exact (good_read_ok _ _ _ _ _ _ _ _ Hok E1).
Qed.

Lemma keeps_refl {A} (proj : ScaffoldCallData -> A) cd : keeps proj cd cd.
Proof. repeat split. Qed.

Lemma keeps_trans {A} (proj : ScaffoldCallData -> A) cd1 cd2 cd3 :
  keeps proj cd1 cd2 -> keeps proj cd2 cd3 -> keeps proj cd1 cd3.
Proof.
  intros (G1 & R1 & H1) (G2 & R2 & H2).
  split; [ congruence | ]. split; [ congruence | ].
  intros name. rewrite H2, H1. reflexivity.
Qed.

Lemma set_scaffold_keeps {A} (proj : ScaffoldCallData -> A) cd name sd sd' :
  get_scaffold cd name = Ok sd -> proj sd' = proj sd ->
  keeps proj cd (set_scaffold cd name sd').
Proof.
  unfold get_scaffold. intros Hsd Hp.
  destruct (scaffolds_data cd !! name) as [ sd0 | ] eqn:E; [ | discriminate ].
  injection Hsd as ->.
  repeat split. intros n. cbn.
  destruct (decide (name = n)) as [ <- | Hne ].
  - rewrite lookup_insert_eq, E. cbn. rewrite Hp. reflexivity.
  - rewrite lookup_insert_ne by exact Hne. reflexivity.
Qed.

Lemma bad_read_keeps {A} (proj : ScaffoldCallData -> A) cd scaffold pos cd' :
  (forall sd b, proj (set_bad sd b) = proj sd) ->
  bad_read cd scaffold pos = Ok cd' ->
  keeps proj cd cd' /\ uniquely_mapped_reads cd' = uniquely_mapped_reads cd.
Proof.
  intros Hp H. unfold bad_read in H.
  destruct (get_scaffold cd scaffold) as [ sd | ] eqn:Hsd; [ | discriminate ].
  cbn [rbind] in H.
  destruct (np_iadd (sd_bad sd) pos 1) as [ bad | ]; [ | discriminate ].
  cbn [rbind] in H. injection H as <-.
  split; [ | reflexivity ].
  apply (set_scaffold_keeps proj _ _ sd); [ exact Hsd | apply Hp ].
Qed.

Lemma low_mapping_quality_keeps {A} (proj : ScaffoldCallData -> A)
      cd scaffold pos cd' w :
  (forall sd b, proj (set_lowmq_count sd b) = proj sd) ->
  low_mapping_quality cd scaffold pos = Ok (cd', w) ->
  keeps proj cd cd' /\ uniquely_mapped_reads cd' = uniquely_mapped_reads cd.
Proof.
  intros Hp H. unfold low_mapping_quality in H.
  destruct (get_scaffold cd scaffold) as [ sd | ] eqn:Hsd; [ | discriminate ].
  cbn [rbind] in H.
  destruct (sd_length sd <=? pos).
  - injection H as <- _. split; [ apply keeps_refl | reflexivity ].
  - destruct (np_iadd (sd_lowmq_count sd) pos 1) as [ l | ];
      [ | discriminate ].
    cbn [rbind] in H. injection H as <- _.
    split; [ | reflexivity ].
    apply (set_scaffold_keeps proj _ _ sd); [ exact Hsd | apply Hp ].
Qed.

Lemma good_read_keeps {A} (proj : ScaffoldCallData -> A)
      cd scaffold pos allele bq mq (rc : bool) cd' :
  (forall sd a m, proj (set_mq_sum (set_alleles sd a) m) = proj sd) ->
  good_read cd scaffold pos allele bq mq rc = Ok cd' ->
  keeps proj cd cd' /\ uniquely_mapped_reads cd' = uniquely_mapped_reads cd.
Proof.
  intros Hp H. unfold good_read in H.
  destruct (ALLELE_INDEX _) as [ ix | ]; [ | discriminate ].
  cbn [rbind] in H.
  destruct (get_scaffold cd scaffold) as [ sd | ] eqn:Hsd; [ | discriminate ].
  cbn [rbind] in H.
  destruct (alleles_iadd (sd_alleles sd) pos false ix 1) as [ a1 | ];
    [ | discriminate ].
  cbn [rbind] in H.
  destruct (alleles_iadd a1 pos true ix bq) as [ a2 | ]; [ | discriminate ].
  cbn [rbind] in H.
  destruct (np_iadd (sd_mq_sum sd) pos mq) as [ m | ]; [ | discriminate ].
  cbn [rbind] in H. injection H as <-.
  split; [ | reflexivity ].
  apply (set_scaffold_keeps proj _ _ sd); [ exact Hsd | apply Hp ].
Qed.

Lemma record_bad_keeps st scaffold refpos st' :
  record_bad st scaffold refpos = Ok st' ->
  keeps identity_part (call_data st) (call_data st') /\
  uniquely_mapped_reads (call_data st') = uniquely_mapped_reads (call_data st).
Proof.
  intros H. unfold record_bad in H.
  destruct (bad_read _ _ _) as [ cd | ] eqn:E; [ | discriminate H ].
  cbn [rbind] in H. injection H as <-. cbn.
  apply (bad_read_keeps identity_part _ _ _ _ ltac:(reflexivity) E).
Qed.

Lemma low_mapping_quality_each_keeps locs st st' :
  low_mapping_quality_each st locs = Ok st' ->
  keeps identity_part (call_data st) (call_data st') /\
  uniquely_mapped_reads (call_data st') = uniquely_mapped_reads (call_data st).
Proof.
  revert st. induction locs as [ | [ [ scaffold pos ] rc ] locs IH ];
    intros st H; cbn in H.
  - injection H as <-. split; [ apply keeps_refl | reflexivity ].
  - destruct (low_mapping_quality _ _ _) as [ [ cd w ] | ] eqn:E;
      [ | discriminate H ].
    cbn [rbind] in H. apply IH in H. cbn in H.
    destruct (low_mapping_quality_keeps identity_part _ _ _ _ _
                ltac:(reflexivity) E) as [ K U ].
    destruct H as [ K' U' ].
    split; [ exact (keeps_trans _ _ _ _ K K') | congruence ].
Qed.

Lemma good_read_each_keeps locs st base qual mq st' :
  good_read_each st base qual mq locs = Ok st' ->
  keeps identity_part (call_data st) (call_data st') /\
  uniquely_mapped_reads (call_data st') = uniquely_mapped_reads (call_data st).
Proof.
  revert st. induction locs as [ | [ [ scaffold pos ] rc ] locs IH ];
    intros st H; cbn in H.
  - injection H as <-. split; [ apply keeps_refl | reflexivity ].
  - destruct (good_read _ _ _ _ _ _ _) as [ cd | ] eqn:E;
      [ | discriminate H ].
    cbn [rbind] in H. apply IH in H. cbn in H.
    destruct (good_read_keeps identity_part _ _ _ _ _ _ _ _
                ltac:(reflexivity) E) as [ K U ].
    destruct H as [ K' U' ].
    split; [ exact (keeps_trans _ _ _ _ K K') | congruence ].
Qed.

Lemma assess_read_keeps self st scaffold refpos read st' :
  assess_read self st scaffold refpos read = Ok st' ->
  keeps identity_part (call_data st) (call_data st') /\
  uniquely_mapped_reads (call_data st') = uniquely_mapped_reads (call_data st).
Proof.
  intros H. unfold assess_read in H.
  repeat match type of H with
  | (if ?b then _ else _) = Ok _ => destruct b
  | (let! _ := ?m in _) = Ok _ =>
      let E := fresh "E" in
      destruct m eqn:E; cbn [rbind] in H; [ | discriminate H ]
  | record_bad _ _ _ = Ok _ => exact (record_bad_keeps _ _ _ _ H)
  end.
  - match type of E1 with
    | low_mapping_quality _ _ _ = Ok ?cw => destruct cw as [ cd w ]
    end.
    destruct (low_mapping_quality_keeps identity_part _ _ _ _ _
                ltac:(reflexivity) E1) as [ K U ].
    unfold assess_alternative_locations in H. cbn [alignment fst snd] in H.
    destruct (mapping_quality (alignment read) <? vc_min_mapping_quality self).
    + destruct (alternative_locations _ _); [ | discriminate H ].
      cbn [rbind] in H.
      apply low_mapping_quality_each_keeps in H. cbn in H.
      destruct H as [ K' U' ].
      split; [ exact (keeps_trans _ _ _ _ K K') | congruence ].
    + injection H as <-. cbn. split; assumption.
  - destruct (good_read_keeps identity_part _ _ _ _ _ _ _ _
                ltac:(reflexivity) E1) as [ K U ].
    apply good_read_each_keeps in H. cbn in H. destruct H as [ K' U' ].
    split; [ exact (keeps_trans _ _ _ _ K K') | congruence ].
  - injection H as <-. cbn.
    exact (good_read_keeps identity_part _ _ _ _ _ _ _ _
             ltac:(reflexivity) E1).
Qed.

Lemma assess_entries_keeps self entries st st' :
  assess_entries self st entries = Ok st' ->
  (call_data_ok (call_data st) -> call_data_ok (call_data st')) /\
  keeps identity_part (call_data st) (call_data st') /\
  uniquely_mapped_reads (call_data st') = uniquely_mapped_reads (call_data st).
Proof.
  revert st.
  induction entries as [ | [ [ scaffold refpos ] read ] entries IH ];
    intros st H; cbn in H.
  - injection H as <-. split; [ auto | ].
    split; [ apply keeps_refl | reflexivity ].
  - destruct (assess_read self st scaffold refpos read) as [ st1 | ] eqn:E;
      [ | discriminate H ].
    cbn [rbind] in H. apply IH in H as (Hok & K' & U').
    destruct (assess_read_keeps _ _ _ _ _ _ E) as [ K U ].
    split; [ | split ].
    + intros H0. apply Hok. exact (assess_read_ok _ _ _ _ _ _ H0 E).
    + exact (keeps_trans _ _ _ _ K K').
    + congruence.
Qed.

Lemma count_alignment_keeps self call a call' :
  count_alignment self call a = Ok call' ->
  (call_data_ok call -> call_data_ok call') /\
  keeps pileup_part call call'.
Proof.
  unfold count_alignment. intros H.
  repeat match type of H with
  | (if ?b then _ else _) = Ok _ => destruct b
  | Ok ?x = Ok _ =>
      assert (call' = x) as -> by (injection H; auto);
      split; [ auto | apply keeps_refl ]
  end.
  all: split; [ intros H0; exact (inc_uniquely_mapped_reads_ok _ _ _ H0 H) | ].
  all: unfold inc_uniquely_mapped_reads in H.
  all: match type of H with
       | (let! _ := get_scaffold ?c ?n in _) = _ =>
           destruct (get_scaffold c n) as [ sd | ] eqn:Hsd;
             [ | discriminate H ]
       end.
  all: cbn [rbind] in H; injection H as <-.
  all: match goal with
       | |- keeps _ _ (set_scaffold ?c ?n ?sd') =>
           apply (keeps_trans _ _ c);
             [ repeat split
             | apply (set_scaffold_keeps pileup_part c n sd);
               [ exact Hsd | reflexivity ] ]
       end.
Qed.

Lemma estimate_abundance_keeps self alignments call call' :
  estimate_abundance self call alignments = Ok call' ->
  (call_data_ok call -> call_data_ok call') /\
  keeps pileup_part call call'.
Proof.
  revert call. induction alignments as [ | a alignments IH ];
    intros call H; cbn in H.
  - injection H as <-. split; [ auto | apply keeps_refl ].
  - destruct (count_alignment self call a) as [ call1 | ] eqn:E;
      [ | discriminate H ].
    cbn [rbind] in H. apply IH in H as [ Hok K' ].
    destruct (count_alignment_keeps _ _ _ _ E) as [ Hok1 K ].
    split; [ auto | exact (keeps_trans _ _ _ _ K K') ].
Qed.

Lemma new_call_data_ok scaffolds min_gap :
  call_data_ok (new_call_data scaffolds min_gap).
Proof.
  unfold call_data_ok, new_call_data. cbn [scaffolds_data].
  induction scaffolds as [ | [ name len ] scaffolds IH ]; cbn.
  - apply map_Forall_empty.
  - apply map_Forall_insert_2; [ apply new_scaffold_ok | exact IH ].
Qed.

(** X3. Call data created by the constructor is well formed, and both
    passes keep it so: after the abundance pass and the pileup pass every
    array of every scaffold still has the scaffold's length, every allele
    row has six cells, and every counter is within the range of an
    unsigned 32-bit integer. *)
Theorem passes_keep_call_data_ok
    self scaffolds min_gap alignments columns call st :
  estimate_abundance self (new_call_data scaffolds min_gap) alignments
    = Ok call ->
  process_pileups self call columns = Ok st ->
  call_data_ok (new_call_data scaffolds min_gap) /\
  call_data_ok call /\
  call_data_ok (call_data st).
Proof.
  intros H1 H2.
  pose proof (new_call_data_ok scaffolds min_gap) as H0.
  destruct (estimate_abundance_keeps _ _ _ _ H1) as [ Hok1 _ ].
  unfold process_pileups in H2. rewrite process_columns_entries in H2.
  destruct (assess_entries_keeps _ _ _ _ H2) as (Hok2 & _ & _).
  split; [ exact H0 | ]. split; [ auto | ]. apply Hok2. cbn. auto.
Qed.

Lemma passes_keep_call_data_ok_witness :
  exists call st,
    estimate_abundance sample_caller sample_call_data sample_alignments
      = Ok call /\
    process_pileups sample_caller call sample_columns = Ok st /\
    call_data_ok (call_data st).
Proof.
  destruct (estimate_abundance sample_caller sample_call_data
              sample_alignments) as [ call | ] eqn:H1;
    [ | discriminate H1 ].
  exists call.
  destruct (process_pileups sample_caller call sample_columns)
    as [ st | ] eqn:H2;
    [ | vm_compute in H1; injection H1 as <-; discriminate H2 ].
  exists st.
  destruct (passes_keep_call_data_ok sample_caller
              [("contig1"%string, 2%nat)] 2000 sample_alignments
              sample_columns call st H1 H2) as (_ & _ & Hok).
  split; [ reflexivity | ]. split; [ reflexivity | exact Hok ].
Defined.

(** X4. The two passes keep to their own data. The pileup pass changes no
    read count: [uniquely_mapped_reads] and every scaffold's name,
    length, [read_count] and [refmask] are what they were, and no
    scaffold is added or dropped. The abundance pass changes none of the
    pileup arrays. *)
Theorem passes_keep_to_their_data self call alignments columns call' st :
  estimate_abundance self call alignments = Ok call' ->
  process_pileups self call' columns = Ok st ->
  keeps pileup_part call call' /\
  keeps identity_part call' (call_data st) /\
  uniquely_mapped_reads (call_data st) = uniquely_mapped_reads call' /\
  dom (scaffolds_data (call_data st)) = dom (scaffolds_data call).
Proof.
  intros H1 H2.
  destruct (estimate_abundance_keeps _ _ _ _ H1) as [ _ K1 ].
  unfold process_pileups in H2. rewrite process_columns_entries in H2.
  destruct (assess_entries_keeps _ _ _ _ H2) as (_ & K2 & U).
  cbn in K2, U.
  split; [ exact K1 | ]. split; [ exact K2 | ]. split; [ exact U | ].
  apply set_eq. intros name. rewrite !elem_of_dom.
  destruct K1 as (_ & _ & K1). destruct K2 as (_ & _ & K2).
  specialize (K1 name). specialize (K2 name).
  destruct (scaffolds_data (call_data st) !! name),
    (scaffolds_data call' !! name), (scaffolds_data call !! name);
    cbn in K1, K2; try discriminate;
    split; intros [ x Hx ]; try discriminate; eauto.
Qed.

Lemma passes_keep_to_their_data_witness :
  exists call st,
    estimate_abundance sample_caller sample_call_data sample_alignments
      = Ok call /\
    process_pileups sample_caller call sample_columns = Ok st /\
    uniquely_mapped_reads call = 1 /\
    uniquely_mapped_reads (call_data st) = 1 /\
    dom (scaffolds_data (call_data st)) = {[ "contig1"%string ]}.
Proof.
  destruct (estimate_abundance sample_caller sample_call_data
              sample_alignments) as [ call | ] eqn:H1;
    [ | discriminate H1 ].
  exists call.
  destruct (process_pileups sample_caller call sample_columns)
    as [ st | ] eqn:H2;
    [ | vm_compute in H1; injection H1 as <-; discriminate H2 ].
  exists st.
  destruct (passes_keep_to_their_data sample_caller sample_call_data
              sample_alignments sample_columns call st H1 H2)
    as (_ & _ & U & D).
  assert (Hu : uniquely_mapped_reads call = 1)
    by (vm_compute in H1; injection H1 as <-; reflexivity).
  split; [ reflexivity | ]. split; [ reflexivity | ].
  split; [ exact Hu | ]. split; [ rewrite U; exact Hu | ].
  rewrite D. unfold sample_call_data, new_call_data. cbn [scaffolds_data].
  cbn [map list_to_map foldr fst snd uncurry].
  rewrite dom_insert_L, dom_empty_L. set_solver.
Defined.

(** ** Post-processing after the passes *)

Lemma call_alleles_fields garbage mpq mqf s1 s2 :
  call_alleles garbage mpq mqf s1 = Ok s2 ->
  sd_alleles s2 = sd_alleles s1 /\
  sd_lowmq_count s2 = sd_lowmq_count s1 /\
  sd_coverage s2 = sd_coverage s1 /\
  sd_mean_coverage s2 = sd_mean_coverage s1 /\
  Forall (fun w => 0 <= w)
         (default [] (sd_weak s2)).
Proof.
  unfold call_alleles. intros H.
  destruct (np_mask_zero _ (map _ _)) as [ weak | ] eqn:Hw;
    [ | discriminate H ].
  cbn [rbind] in H.
  destruct (np_mask_zero _ (imap _ _)) as [ strong | ]; [ | discriminate H ].
  cbn [rbind] in H. injection H as <-. cbn.
  repeat (split; [ reflexivity | ]).
  assert (Hnn : Forall (fun w => 0 <= w)
                  (map (fun c => weak_at (quals c)) (sd_alleles s1))).
  { apply Forall_map, Forall_forall. intros c _. unfold weak_at.
    rewrite mask_sum_value. unfold mask_value.
    repeat match goal with
           | |- context [ if ?b then _ else _ ] => destruct b
           end; lia. }
  unfold np_mask_zero in Hw. destruct (sd_high_coverage s1) as [ m | ].
  - destruct (length m =? length _)%nat; [ | discriminate Hw ].
    injection Hw as <-.
    rewrite Forall_forall in Hnn. apply Forall_forall. intros x Hx.
    apply list_elem_of_lookup in Hx as [ i Hi ].
    rewrite lookup_zip_with in Hi.
    destruct (m !! i) as [ h | ]; [ | discriminate Hi ]. cbn in Hi.
    destruct (map _ _ !! i) as [ w | ] eqn:Ew; [ | discriminate Hi ].
    cbn in Hi. injection Hi as <-.
    destruct h; [ lia | ].
    apply Hnn. eapply list_elem_of_lookup_2. exact Ew.
  - injection Hw as <-. apply Forall_map, Forall_forall. intros; lia.
Qed.

(** On a well-formed scaffold the first two post-processing steps
    return, and the third returns once the scaled minimum gap is
    computed; if that raises, [find_gaps] raises the same. *)
Lemma post_processing_returns ppf garbage lw mpq mqf min_gap sd :
  0 < mpq -> scaffold_ok sd ->
  exists s1 s2,
    calculate_coverage ppf sd = Ok s1 /\
    call_alleles garbage mpq mqf s1 = Ok s2 /\
    (forall e,
       scale_min_gap_size lw min_gap (sd_mean_coverage s2) = Raise e ->
       find_gaps lw min_gap s2 = Raise e) /\
    forall scaled,
      scale_min_gap_size lw min_gap (sd_mean_coverage s2) = Ok scaled ->
      exists s3,
        find_gaps lw min_gap s2 = Ok s3 /\
        (exists strong weak hc,
           sd_strong s3 = Some strong /\ sd_weak s3 = Some weak /\
           sd_high_coverage s3 = Some hc /\
           Z.of_nat (length strong) = sd_length sd /\
           Z.of_nat (length weak) = sd_length sd /\
           Z.of_nat (length hc) = sd_length sd /\
           forall (i : nat) s w h,
             strong !! i = Some s -> weak !! i = Some w -> hc !! i = Some h ->
             (forall n, Z.testbit s n = true -> Z.testbit w n = true) /\
             (h = true -> s = 0 /\ w = 0)) /\
        StronglySorted in_order (sd_gaps s3) /\
        Forall (fun g => Z.of_nat (g_end g) <= sd_length sd) (sd_gaps s3).
Proof.
  intros Hmpq Hok.
  destruct Hok as (Hlen & _ & La & _ & Ll & _ & _ & _ & _ & _).
  assert (Lal : length (sd_lowmq_count sd) = length (sd_alleles sd)) by lia.
  destruct (calculate_coverage_total ppf sd Lal) as [ s1 H1 ].
  destruct (calculate_coverage_fields _ _ _ H1)
    as (Hal1 & Hlm1 & cov & _ & Hadd & _ & _ & Hhc1).
  assert (Lcov : length cov = length (sd_alleles sd)).
  { unfold np_add in Hadd. rewrite length_map, Lal, Nat.eqb_refl in Hadd.
    injection Hadd as <-. rewrite length_zip_with, length_map. lia. }
  destruct (call_alleles_total garbage mpq mqf s1) as [ s2 H2 ].
  { intros hc Hhc'. rewrite Hhc1 in Hhc'. injection Hhc' as <-.
    rewrite length_map, Hal1. exact Lcov. }
  destruct (strong_within_weak_returned ppf garbage mpq mqf sd s1 s2
              Hmpq H1 H2)
    as (strong & weak & hc & Hs & Hw & Hh & Ls & Lw & Lh & Hinv).
  destruct (call_alleles_fields _ _ _ _ _ H2)
    as (Hal2 & Hlm2 & _ & _ & Hnn).
  rewrite Hw in Hnn. cbn in Hnn.
  assert (Lw2 : length weak = length (sd_alleles s2)) by congruence.
  assert (Ll2 : length (sd_lowmq_count s2) = length (sd_alleles s2))
    by congruence.
  exists s1, s2.
  split; [ exact H1 | ]. split; [ exact H2 | ].
  split.
  { intros e He. unfold find_gaps. rewrite He. reflexivity. }
  intros scaled Hscaled.
  destruct (find_gaps_total lw min_gap s2 weak scaled Hw Lw2 Ll2 Hscaled)
    as [ s3 H3 ].
  destruct (find_gaps_returned lw min_gap s2 s3 weak scaled
              Hw Hnn Lw2 Ll2 Hscaled H3)
    as (Hiff & _ & Hsorted & _).
  exists s3. split; [ exact H3 | ].
  assert (Hkeep : sd_strong s3 = sd_strong s2 /\ sd_weak s3 = sd_weak s2 /\
                  sd_high_coverage s3 = sd_high_coverage s2).
  { unfold find_gaps in H3. rewrite Hscaled in H3. cbn [rbind] in H3.
    destruct (covered_array s2); [ | discriminate H3 ].
    cbn [rbind] in H3. injection H3 as <-. repeat split. }
  destruct Hkeep as (Ks & Kw & Kh).
  split; [ | split; [ exact Hsorted | ] ].
  - exists strong, weak, hc. rewrite Ks, Kw, Kh.
    repeat (split; [ first [ assumption | lia ] | ]). exact Hinv.
  - apply Forall_forall. intros g Hg. apply Hiff in Hg.
    destruct Hg as (s & n & -> & _ & Hn & Hall & _).
    unfold g_end. cbn.
    specialize (Hall (s + n - 1)%nat ltac:(lia)).
    unfold covered_at in Hall. rewrite Hw in Hall.
    destruct (weak !! (s + n - 1)%nat) eqn:E; [ | discriminate Hall ].
    apply lookup_lt_Some in E. lia.
Qed.

(** X5. After the two passes of [process] have returned, coverage and
    allele calling return on every scaffold of the call data, and gap
    finding returns whenever the scaled minimum gap can be computed: it
    fails only by raising what the scaling raised. The arrays the steps
    fill have the scaffold's length, every strong call is a weak call,
    high-coverage positions carry no call, and the gaps lie inside the
    scaffold in order of position. *)
Theorem post_processing_after_passes
    self ppf garbage lw scaffolds alignments columns call st name sd :
  0 < vc_min_pileup_qual self ->
  estimate_abundance self (new_call_data scaffolds (vc_min_gap_size self))
    alignments = Ok call ->
  process_pileups self call columns = Ok st ->
  scaffolds_data (call_data st) !! name = Some sd ->
  exists s1 s2,
    calculate_coverage ppf sd = Ok s1 /\
    call_alleles garbage (vc_min_pileup_qual self) (vc_min_qual_frac self) s1
      = Ok s2 /\
    min_gap_size (call_data st) = vc_min_gap_size self /\
    (forall e,
       scale_min_gap_size lw (min_gap_size (call_data st))
         (sd_mean_coverage s2) = Raise e ->
       find_gaps lw (min_gap_size (call_data st)) s2 = Raise e) /\
    forall scaled,
      scale_min_gap_size lw (min_gap_size (call_data st))
        (sd_mean_coverage s2) = Ok scaled ->
      exists s3,
        find_gaps lw (min_gap_size (call_data st)) s2 = Ok s3 /\
        (exists strong weak hc,
           sd_strong s3 = Some strong /\ sd_weak s3 = Some weak /\
           sd_high_coverage s3 = Some hc /\
           Z.of_nat (length strong) = sd_length sd /\
           Z.of_nat (length weak) = sd_length sd /\
           Z.of_nat (length hc) = sd_length sd /\
           forall (i : nat) s w h,
             strong !! i = Some s -> weak !! i = Some w -> hc !! i = Some h ->
             (forall n, Z.testbit s n = true -> Z.testbit w n = true) /\
             (h = true -> s = 0 /\ w = 0)) /\
        StronglySorted in_order (sd_gaps s3) /\
        Forall (fun g => Z.of_nat (g_end g) <= sd_length sd) (sd_gaps s3).
Proof.
  intros Hmpq H1 H2 Hsd.
  destruct (estimate_abundance_keeps _ _ _ _ H1) as [ Hok1 (G1 & _ & _) ].
  unfold process_pileups in H2. rewrite process_columns_entries in H2.
  destruct (assess_entries_keeps _ _ _ _ H2) as (Hok2 & (G2 & _ & _) & _).
  cbn in Hok2, G2.
  assert (Hok : scaffold_ok sd).
  { apply (map_Forall_lookup_1 _ _ _ _
             (Hok2 (Hok1 (new_call_data_ok _ _))) Hsd). }
  destruct (post_processing_returns ppf garbage lw
              (vc_min_pileup_qual self) (vc_min_qual_frac self)
              (min_gap_size (call_data st)) sd Hmpq Hok)
    as (s1 & s2 & E1 & E2 & Hraise & Hrest).
  exists s1, s2.
  split; [ exact E1 | ]. split; [ exact E2 | ].
  split; [ rewrite G2, G1; reflexivity | ].
  split; [ exact Hraise | exact Hrest ].
Qed.

Lemma post_processing_after_passes_witness :
  exists call st sd s1 s2 s3,
    estimate_abundance sample_caller
      (new_call_data [("contig1"%string, 2%nat)] 2000) sample_alignments
      = Ok call /\
    process_pileups sample_caller call sample_columns = Ok st /\
    scaffolds_data (call_data st) !! "contig1"%string = Some sd /\
    calculate_coverage sample_ppf sd = Ok s1 /\
    call_alleles sample_garbage 50 (float_ratio 1 10) s1 = Ok s2 /\
    find_gaps unit_factor 2000 s2 = Ok s3 /\
    sd_bad sd = [1; 0] /\
    sd_weak s3 = Some [Allele.A; Allele.C] /\
    sd_strong s3 = Some [0; 0] /\
    sd_gaps s3 = [].
Proof.
  destruct (estimate_abundance sample_caller
              (new_call_data [("contig1"%string, 2%nat)] 2000)
              sample_alignments) as [ call | ] eqn:H1;
    [ | discriminate H1 ].
  exists call.
  destruct (process_pileups sample_caller call sample_columns)
    as [ st | ] eqn:H2;
    [ | vm_compute in H1; injection H1 as <-; discriminate H2 ].
  exists st.
  destruct (scaffolds_data (call_data st) !! "contig1"%string)
    as [ sd | ] eqn:Hsd;
    [ | vm_compute in H1; injection H1 as <-;
        vm_compute in H2; injection H2 as <-; discriminate Hsd ].
  exists sd.
  destruct (post_processing_after_passes sample_caller sample_ppf
              sample_garbage unit_factor [("contig1"%string, 2%nat)]
              sample_alignments sample_columns call st "contig1" sd
              ltac:(cbn; lia) H1 H2 Hsd)
    as (s1 & s2 & E1 & E2 & G & _ & Hgaps).
  rewrite G in Hgaps.
  destruct (Hgaps 2000 eq_refl) as (s3 & E3 & _).
  exists s1, s2, s3.
  split; [ reflexivity | ]. split; [ reflexivity | ].
  split; [ reflexivity | ]. split; [ exact E1 | ].
  split; [ exact E2 | ]. split; [ exact E3 | ].
  vm_compute in H1. injection H1 as <-.
  vm_compute in H2. injection H2 as <-.
  vm_compute in Hsd. injection Hsd as <-.
  vm_compute in E1. injection E1 as <-.
  vm_compute in E2. injection E2 as <-.
  vm_compute in E3. injection E3 as <-.
  repeat split; reflexivity.
Defined.

(** ** Updates at negative positions *)

Lemma np_index_negative (len : nat) (pos : Z) :
  - Z.of_nat len <= pos < 0 ->
  np_index len pos = np_index len (pos + Z.of_nat len) /\
  np_index len pos = Ok (Z.to_nat (pos + Z.of_nat len)).
Proof.
  intros H. unfold np_index.
  destruct (Z.leb_spec 0 pos); [ lia | ].
  destruct (Z.leb_spec (- Z.of_nat len) pos); [ | lia ].
  destruct (Z.ltb_spec pos 0); [ | lia ].
  destruct (Z.leb_spec 0 (pos + Z.of_nat len)); [ | lia ].
  destruct (Z.ltb_spec (pos + Z.of_nat len) (Z.of_nat len)); [ | lia ].
  cbn. split; reflexivity.
Qed.

Lemma np_index_below (len : nat) (pos : Z) :
  pos < - Z.of_nat len -> np_index len pos = Raise IndexError.
Proof.
  intros H. unfold np_index.
  destruct (Z.leb_spec 0 pos); [ lia | ].
  destruct (Z.leb_spec (- Z.of_nat len) pos); [ lia | ].
  reflexivity.
Qed.

Lemma alleles_iadd_negative alleles pos row ix v :
  - Z.of_nat (length alleles) <= pos < 0 ->
  alleles_iadd alleles pos row ix v =
  alleles_iadd alleles (pos + Z.of_nat (length alleles)) row ix v.
Proof.
  intros H. unfold alleles_iadd.
  destruct (np_index_negative _ _ H) as [ -> _ ]. reflexivity.
Qed.

(** X6. The bounds guard of [low_mapping_quality] looks at one side only,
    and [bad_read] and [good_read] have none: a position in
    [-length, 0) is taken by numpy as counted from the end, so each of the
    three updates does there exactly what it does at [pos + length],
    without a warning. Below [-length], [low_mapping_quality] and
    [bad_read] raise [IndexError]. *)
Theorem negative_position_counts_from_end
    cd scaffold sd pos allele bq mq (rc : bool) :
  get_scaffold cd scaffold = Ok sd ->
  scaffold_ok sd ->
  (- sd_length sd <= pos < 0 ->
   low_mapping_quality cd scaffold pos =
     low_mapping_quality cd scaffold (pos + sd_length sd) /\
   (exists cd', low_mapping_quality cd scaffold pos = Ok (cd', [])) /\
   bad_read cd scaffold pos = bad_read cd scaffold (pos + sd_length sd) /\
   good_read cd scaffold pos allele bq mq rc =
     good_read cd scaffold (pos + sd_length sd) allele bq mq rc) /\
  (pos < - sd_length sd ->
   low_mapping_quality cd scaffold pos = Raise IndexError /\
   bad_read cd scaffold pos = Raise IndexError).
Proof.
  intros Hsd (Hlen & _ & La & Lb & Ll & Lm & _).
  split.
  - intros Hpos.
    assert (El : np_index (length (sd_lowmq_count sd)) (pos + sd_length sd)
                 = np_index (length (sd_lowmq_count sd)) pos).
    { rewrite <- Ll. symmetry. apply np_index_negative. lia. }
    assert (Eb : np_index (length (sd_bad sd)) (pos + sd_length sd)
                 = np_index (length (sd_bad sd)) pos).
    { rewrite <- Lb. symmetry. apply np_index_negative. lia. }
    assert (Em : np_index (length (sd_mq_sum sd)) (pos + sd_length sd)
                 = np_index (length (sd_mq_sum sd)) pos).
    { rewrite <- Lm. symmetry. apply np_index_negative. lia. }
    split; [ | split; [ | split ] ].
    + unfold low_mapping_quality, np_iadd. rewrite Hsd. cbn [rbind].
      destruct (Z.leb_spec (sd_length sd) pos); [ lia | ].
      destruct (Z.leb_spec (sd_length sd) (pos + sd_length sd)); [ lia | ].
      rewrite El. reflexivity.
    + unfold low_mapping_quality, np_iadd. rewrite Hsd. cbn [rbind].
      destruct (Z.leb_spec (sd_length sd) pos); [ lia | ].
      destruct (np_index_negative (length (sd_lowmq_count sd)) pos
                  ltac:(lia)) as [ _ -> ].
      cbn [rbind]. eauto.
    + unfold bad_read, np_iadd. rewrite Hsd. cbn [rbind].
      rewrite Eb. reflexivity.
    + unfold good_read.
      destruct (ALLELE_INDEX _) as [ ix | ]; [ | reflexivity ].
      cbn [rbind]. rewrite Hsd. cbn [rbind].
      assert (E1 : alleles_iadd (sd_alleles sd) (pos + sd_length sd)
                     false ix 1
                   = alleles_iadd (sd_alleles sd) pos false ix 1).
      { rewrite <- La. symmetry. apply alleles_iadd_negative. lia. }
      rewrite E1.
      destruct (alleles_iadd (sd_alleles sd) pos false ix 1)
        as [ a1 | ] eqn:Ea1; [ | reflexivity ].
      cbn [rbind].
      destruct (alleles_iadd_keeps _ _ _ _ _ _ Ea1) as [ L1 _ ].
      assert (E2 : alleles_iadd a1 (pos + sd_length sd) true ix bq
                   = alleles_iadd a1 pos true ix bq).
      { rewrite <- La, <- L1. symmetry. apply alleles_iadd_negative. lia. }
      rewrite E2.
      destruct (alleles_iadd a1 pos true ix bq) as [ a2 | ];
        [ | reflexivity ].
      cbn [rbind]. unfold np_iadd. rewrite Em. reflexivity.
  - intros Hpos. split.
    + unfold low_mapping_quality, np_iadd. rewrite Hsd. cbn [rbind].
      destruct (Z.leb_spec (sd_length sd) pos); [ lia | ].
      rewrite np_index_below by lia. reflexivity.
    + unfold bad_read, np_iadd. rewrite Hsd. cbn [rbind].
      rewrite np_index_below by lia. reflexivity.
Qed.

Lemma negative_position_counts_from_end_witness :
  (exists cd' sd',
     low_mapping_quality sample_call_data "contig1" (-1) = Ok (cd', []) /\
     scaffolds_data cd' !! "contig1"%string = Some sd' /\
     sd_lowmq_count sd' = [0; 1]) /\
  low_mapping_quality sample_call_data "contig1" (-3) = Raise IndexError.
Proof.
  destruct (negative_position_counts_from_end sample_call_data "contig1"
              (new_scaffold "contig1" 2) (-1) Allele.A 30 60 false
              eq_refl (new_scaffold_ok _ _))
    as [ Hneg _ ].
  destruct (negative_position_counts_from_end sample_call_data "contig1"
              (new_scaffold "contig1" 2) (-3) Allele.A 30 60 false
              eq_refl (new_scaffold_ok _ _))
    as [ _ Hlow ].
  split.
  - destruct (Hneg ltac:(cbn; lia)) as (Heq & (cd' & Hok) & _).
    exists cd'.
    assert (E : low_mapping_quality sample_call_data "contig1" 1
                = Ok (cd', [])).
    { rewrite <- Hok. symmetry. exact Heq. }
    vm_compute in E. injection E as <-.
    eexists. split; [ exact Hok | ]. split; reflexivity.
  - apply Hlow. cbn. lia.
Defined.

(** ** What a good read adds *)

Lemma np_index_in_range (len : nat) (i : Z) :
  0 <= i < Z.of_nat len -> np_index len i = Ok (Z.to_nat i).
Proof.
  intros H. unfold np_index.
  destruct (Z.leb_spec 0 i); [ | lia ].
  destruct (Z.ltb_spec i (Z.of_nat len)); [ | lia ].
  reflexivity.
Qed.

Lemma np_get_in_range {A} (a : list A) (i : Z) x :
  0 <= i -> a !! Z.to_nat i = Some x -> np_get a i = Ok x.
Proof.
  intros Hi Hx. unfold np_get.
  pose proof (lookup_lt_Some _ _ _ Hx) as Hlt.
  rewrite np_index_in_range by lia. cbn [rbind]. rewrite Hx. reflexivity.
Qed.

Lemma ALLELE_INDEX_spec (a : Allele.t) (ix : nat) :
  ALLELE_INDEX a = Ok ix <-> ALLELE_MASKS !! ix = Some a.
Proof.
  unfold ALLELE_INDEX, ALLELE_MASKS, Allele.members,
    Allele.A, Allele.C, Allele.G, Allele.T, Allele.INS, Allele.DEL.
  split.
  - repeat match goal with
           | |- context [ ?x =? ?y ] => destruct (Z.eqb_spec x y)
           end; intros [= <-]; subst; reflexivity.
  - intros H.
    do 6 (destruct ix as [ | ix ]; [ injection H as <-; reflexivity | ]).
    discriminate H.
Qed.

Lemma np_sum_alter (f : Z -> Z) (l : list Z) (i : nat) x :
  l !! i = Some x -> np_sum (alter f i l) = np_sum l - x + f x.
Proof.
  unfold np_sum. revert i. induction l as [ | y l IH ]; intros i H.
  - discriminate H.
  - destruct i as [ | i ]; cbn in *.
    + injection H as ->. lia.
    + rewrite (IH i H). lia.
Qed.

(** [good_read] written out for a position and an allele in range. *)
Lemma good_read_in_range cd scaffold sd pos allele bq mq (rc : bool) ix cell :
  get_scaffold cd scaffold = Ok sd ->
  scaffold_ok sd ->
  0 <= pos < sd_length sd ->
  ALLELE_INDEX (if rc then Allele.rc allele else allele) = Ok ix ->
  sd_alleles sd !! Z.to_nat pos = Some cell ->
  good_read cd scaffold pos allele bq mq rc =
  Ok (set_scaffold cd scaffold
        (set_mq_sum
           (set_alleles sd
              (<[Z.to_nat pos :=
                   mkCell (alter (fun x => wrap32 (x + 1)) ix (counts cell))
                          (alter (fun x => wrap32 (x + bq)) ix (quals cell))]>
                 (sd_alleles sd)))
           (alter (fun x => wrap32 (x + mq)) (Z.to_nat pos) (sd_mq_sum sd)))).
Proof.
  intros Hsd (Hlen & _ & La & _ & _ & Lm & Hcells & _) Hpos Hix Hcell.
  rewrite Forall_forall in Hcells.
  destruct (Hcells cell (list_elem_of_lookup_2 _ _ _ Hcell))
    as [ [ Lc Lq ] _ ].
  assert (Hlt : (ix < 6)%nat).
  { apply ALLELE_INDEX_spec in Hix. apply lookup_lt_Some in Hix.
    exact Hix. }
  unfold good_read. rewrite Hix. cbn [rbind]. rewrite Hsd. cbn [rbind].
  unfold alleles_iadd at 1.
  rewrite np_index_in_range by lia. cbn [rbind]. rewrite Hcell.
  unfold np_iadd at 1. rewrite Lc, np_index_in_range by lia.
  cbn [rbind]. rewrite Nat2Z.id.
  unfold alleles_iadd. rewrite length_insert.
  rewrite np_index_in_range by lia. cbn [rbind].
  rewrite list_lookup_insert_eq by (apply lookup_lt_Some in Hcell; exact Hcell).
  cbn [quals counts].
  unfold np_iadd at 1. rewrite Lq, np_index_in_range by lia.
  cbn [rbind]. rewrite Nat2Z.id.
  rewrite list_insert_insert_eq.
  unfold np_iadd. rewrite np_index_in_range by lia. cbn [rbind].
  reflexivity.
Qed.

(** X7. On a well-formed scaffold, [good_read] at a position inside the
    scaffold with one of the six alleles returns, and afterwards the
    allele's count has grown by one, its quality sum and [qual_total] by
    the base quality, [depth] by one and [mq_sum] by the mapping quality
    (each as long as the 32-bit cell does not overflow; the cell itself
    always holds the sum modulo 2^32), while [depth] and [qual_total] at
    every other position are what they were. With [rc] set it is the
    reverse-complement allele that is counted. *)
Theorem good_read_adds_one
    cd scaffold sd pos allele bq mq (rc : bool) base :
  get_scaffold cd scaffold = Ok sd ->
  scaffold_ok sd ->
  0 <= pos < sd_length sd ->
  base = (if rc then Allele.rc allele else allele) ->
  base ∈ Allele.members ->
  exists cd' sd' c q d t m,
    good_read cd scaffold pos allele bq mq rc = Ok cd' /\
    get_scaffold cd' scaffold = Ok sd' /\
    allele_count sd pos base = Ok c /\
    allele_qual sd pos base = Ok q /\
    depth sd pos = Ok d /\ qual_total sd pos = Ok t /\
    np_get (sd_mq_sum sd) pos = Ok m /\
    allele_count sd' pos base = Ok (wrap32 (c + 1)) /\
    allele_qual sd' pos base = Ok (wrap32 (q + bq)) /\
    np_get (sd_mq_sum sd') pos = Ok (wrap32 (m + mq)) /\
    (c + 1 < 2 ^ 32 ->
     allele_count sd' pos base = Ok (c + 1) /\ depth sd' pos = Ok (d + 1)) /\
    (0 <= bq -> q + bq < 2 ^ 32 ->
     allele_qual sd' pos base = Ok (q + bq) /\
     qual_total sd' pos = Ok (t + bq)) /\
    (forall pos', 0 <= pos' < sd_length sd -> pos' <> pos ->
       depth sd' pos' = depth sd pos' /\
       qual_total sd' pos' = qual_total sd pos').
Proof.
  intros Hsd Hok Hpos -> Hmem.
  pose proof Hok as (Hlen & _ & La & _ & _ & Lm & Hcells & _ & _ & Hmq).
  destruct (lookup_lt_is_Some_2 (sd_alleles sd) (Z.to_nat pos) ltac:(lia))
    as [ cell Hcell ].
  destruct (lookup_lt_is_Some_2 (sd_mq_sum sd) (Z.to_nat pos) ltac:(lia))
    as [ m Hm ].
  rewrite Forall_forall in Hcells.
  destruct (Hcells cell (list_elem_of_lookup_2 _ _ _ Hcell))
    as [ [ Lc Lq ] [ Uc Uq ] ].
  apply list_elem_of_lookup in Hmem as [ ix Hix ].
  pose proof (lookup_lt_Some _ _ _ Hix) as Hlt. cbn in Hlt.
  change (Allele.members !! ix = Some (if rc then Allele.rc allele else allele))
    with (ALLELE_MASKS !! ix = Some (if rc then Allele.rc allele else allele))
    in Hix.
  apply ALLELE_INDEX_spec in Hix.
  destruct (lookup_lt_is_Some_2 (counts cell) ix ltac:(lia)) as [ c Hc ].
  destruct (lookup_lt_is_Some_2 (quals cell) ix ltac:(lia)) as [ q Hq ].
  assert (Hcu : u32 c).
  { rewrite Forall_forall in Uc. apply Uc.
    eapply list_elem_of_lookup_2. exact Hc. }
  assert (Hqu : u32 q).
  { rewrite Forall_forall in Uq. apply Uq.
    eapply list_elem_of_lookup_2. exact Hq. }
  eexists _, _, c, q, (np_sum (counts cell)), (np_sum (quals cell)), m.
  split; [ exact (good_read_in_range _ _ _ _ _ bq mq rc ix cell
                    Hsd Hok Hpos Hix Hcell) | ].
  split; [ unfold get_scaffold, set_scaffold; cbn;
           rewrite lookup_insert_eq; reflexivity | ].
  assert (Hins : forall (new : pileup_cell),
            <[Z.to_nat pos := new]> (sd_alleles sd) !! Z.to_nat pos
            = Some new).
  { intros new. apply list_lookup_insert_eq.
    apply lookup_lt_Some in Hcell. exact Hcell. }
  unfold allele_count, allele_qual, depth, qual_total.
  rewrite Hix. cbn [rbind sd_alleles set_mq_sum set_alleles sd_mq_sum].
  rewrite !(np_get_in_range _ pos _ ltac:(lia) Hcell).
  rewrite !(np_get_in_range _ pos _ ltac:(lia) (Hins _)).
  cbn [rbind counts quals].
  rewrite !(np_get_in_range (counts cell) (Z.of_nat ix) c ltac:(lia))
    by (rewrite Nat2Z.id; exact Hc).
  rewrite !(np_get_in_range (quals cell) (Z.of_nat ix) q ltac:(lia))
    by (rewrite Nat2Z.id; exact Hq).
  rewrite (np_get_in_range (sd_mq_sum sd) pos m ltac:(lia) Hm).
  assert (Hc' : alter (fun x => wrap32 (x + 1)) ix (counts cell)
                  !! Z.to_nat (Z.of_nat ix) = Some (wrap32 (c + 1))).
  { rewrite Nat2Z.id, list_lookup_alter_eq, Hc. reflexivity. }
  assert (Hq' : alter (fun x => wrap32 (x + bq)) ix (quals cell)
                  !! Z.to_nat (Z.of_nat ix) = Some (wrap32 (q + bq))).
  { rewrite Nat2Z.id, list_lookup_alter_eq, Hq. reflexivity. }
  assert (Hm' : alter (fun x => wrap32 (x + mq)) (Z.to_nat pos)
                  (sd_mq_sum sd) !! Z.to_nat pos = Some (wrap32 (m + mq))).
  { rewrite list_lookup_alter_eq, Hm. reflexivity. }
  rewrite !(np_get_in_range _ (Z.of_nat ix) _ ltac:(lia) Hc').
  rewrite !(np_get_in_range _ (Z.of_nat ix) _ ltac:(lia) Hq').
  rewrite (np_get_in_range _ pos _ ltac:(lia) Hm').
  repeat (split; [ reflexivity | ]).
  rewrite (np_sum_alter _ _ _ _ Hc), (np_sum_alter _ _ _ _ Hq).
  unfold u32 in Hcu, Hqu.
  split; [ | split ].
  - intros Hno. unfold wrap32. rewrite Z.mod_small by lia.
    split; f_equal; lia.
  - intros Hbq Hno. unfold wrap32. rewrite Z.mod_small by lia.
    split; f_equal; lia.
  - intros pos' Hpos' Hne.
    destruct (lookup_lt_is_Some_2 (sd_alleles sd) (Z.to_nat pos')
                ltac:(lia)) as [ cell' Hcell' ].
    assert (Hother : forall new,
              <[Z.to_nat pos := new]> (sd_alleles sd) !! Z.to_nat pos'
              = Some cell').
    { intros new. rewrite list_lookup_insert_ne by lia. exact Hcell'. }
    rewrite !(np_get_in_range _ pos' _ ltac:(lia) (Hother _)).
    rewrite !(np_get_in_range _ pos' _ ltac:(lia) Hcell').
    split; reflexivity.
Qed.

Lemma good_read_adds_one_witness :
  exists cd' sd',
    good_read sample_call_data "contig1" 1 Allele.A 30 60 true = Ok cd' /\
    get_scaffold cd' "contig1" = Ok sd' /\
    allele_count sd' 1 Allele.T = Ok 1 /\
    allele_count sd' 1 Allele.A = Ok 0 /\
    depth sd' 1 = Ok 1 /\ qual_total sd' 1 = Ok 30 /\
    depth sd' 0 = Ok 0.
Proof.
  destruct (good_read_adds_one sample_call_data "contig1"
              (new_scaffold "contig1" 2) 1 Allele.A 30 60 true Allele.T
              eq_refl (new_scaffold_ok _ _) ltac:(cbn; lia) eq_refl)
    as (cd' & sd' & c & q & d & t & m & Hgood & Hget & Hc & Hq & Hd & Ht
        & Hm & _ & _ & _ & Hcount & Hqual & Hother).
  { unfold Allele.members. rewrite !elem_of_cons. do 3 right. left.
    reflexivity. }
  injection Hc as <-. injection Hq as <-. injection Hd as <-.
  injection Ht as <-.
  destruct (Hcount ltac:(cbn; lia)) as [ Hc1 Hd1 ].
  destruct (Hqual ltac:(lia) ltac:(cbn; lia)) as [ _ Ht1 ].
  destruct (Hother 0 ltac:(cbn; lia) ltac:(lia)) as [ Hd0 _ ].
  exists cd', sd'.
  split; [ exact Hgood | ]. split; [ exact Hget | ].
  split; [ exact Hc1 | ].
  split; [ vm_compute in Hgood; injection Hgood as <-;
           vm_compute in Hget; injection Hget as <-; reflexivity | ].
  split; [ exact Hd1 | ]. split; [ exact Ht1 | ].
  rewrite Hd0. reflexivity.
Defined.

(** ** Which reads end up discarded *)

Lemma assess_read_discarded_exact self st scaffold refpos read st' :
  assess_read self st scaffold refpos read = Ok st' ->
  discarded_reads st' =
  (if whole_read_defect self (alignment read)
   then {[ query_name (alignment read) ]} else ∅) ∪ discarded_reads st.
Proof.
  intros H. unfold assess_read, whole_read_defect in *.
  case_bool_decide as Hin.
  - destruct (record_bad_inv _ _ _ _ H) as [ -> _ ].
    destruct (_ || _).
    + symmetry. apply subseteq_union_1_L, singleton_subseteq_l. exact Hin.
    + rewrite union_empty_l_L. reflexivity.
  - destruct (is_paired (alignment read) &&
              negb (is_proper_pair (alignment read))).
    { destruct (record_bad_inv _ _ _ _ H) as [ -> _ ]. reflexivity. }
    destruct (negb (query_alignment_length (alignment read) =?
                    query_length (alignment read))).
    { destruct (record_bad_inv _ _ _ _ H) as [ -> _ ]. reflexivity. }
    destruct (is_paired (alignment read) &&
              (Z.abs (template_length (alignment read)) <?
               query_length (alignment read))).
    { destruct (record_bad_inv _ _ _ _ H) as [ -> _ ]. reflexivity. }
    destruct ((0 <? vc_max_num_mismatches self) &&
              (vc_max_num_mismatches self <?
               default 0 (tag_NM (alignment read)))).
    { destruct (record_bad_inv _ _ _ _ H) as [ -> _ ]. reflexivity. }
    cbn [orb]. rewrite union_empty_l_L.
    repeat match type of H with
    | (if ?b then _ else _) = Ok _ => destruct b
    | (let! _ := ?m in _) = Ok _ =>
        let E := fresh "E" in
        destruct m eqn:E; cbn [rbind] in H; [ | discriminate H ]
    | record_bad _ _ _ = Ok _ =>
        let Hd := fresh "Hd" in
        destruct (record_bad_inv _ _ _ _ H) as [ Hd _ ]; exact Hd
    | Ok ?x = Ok _ =>
        assert (st' = x) as -> by (injection H; auto); reflexivity
    end.
    + unfold assess_alternative_locations in H. cbn [alignment] in H.
      destruct (mapping_quality (alignment read) <?
                vc_min_mapping_quality self).
      * destruct (alternative_locations _ _); [ | discriminate H ].
        cbn [rbind] in H.
        apply low_mapping_quality_each_discarded in H. exact H.
      * injection H as <-. reflexivity.
    + apply good_read_each_discarded in H. exact H.
Qed.

(** X8. After the pileup pass, [discarded_reads] holds exactly the names
    of the reads that appeared in some pileup entry with a pairing,
    clipping, insert-size or mismatch defect: no other name gets in, and
    a base-quality failure, an unknown base or a low mapping quality
    never puts a name there. *)
Theorem discarded_reads_exact self call columns st (name : string) :
  process_pileups self call columns = Ok st ->
  name ∈ discarded_reads st <->
  exists column read,
    column ∈ columns /\ read ∈ pileups column /\
    query_name (alignment read) = name /\
    whole_read_defect self (alignment read) = true.
Proof.
  unfold process_pileups. rewrite process_columns_entries.
  assert (Hgen : forall entries st0 st1,
    assess_entries self st0 entries = Ok st1 ->
    name ∈ discarded_reads st1 <->
    name ∈ discarded_reads st0 \/
    exists e, e ∈ entries /\ query_name (alignment e.2) = name /\
              whole_read_defect self (alignment e.2) = true).
  { induction entries as [ | [ [ scaffold refpos ] read ] entries IH ];
      intros st0 st1 H; cbn in H.
    - injection H as <-. split; [ auto | ].
      intros [ Hin | (e & He & _) ]; [ exact Hin | ].
      apply elem_of_nil in He. contradiction.
    - destruct (assess_read self st0 scaffold refpos read) as [ st2 | ] eqn:E;
        [ | discriminate H ].
      cbn [rbind] in H. rewrite (IH _ _ H).
      rewrite (assess_read_discarded_exact _ _ _ _ _ _ E).
      split.
      + intros [ Hin | (e & He & Hn & Hd) ].
        * apply elem_of_union in Hin as [ Hin | Hin ]; [ | auto ].
          right. exists (scaffold, refpos, read).
          destruct (whole_read_defect self (alignment read)) eqn:Hd.
          -- apply elem_of_singleton in Hin.
             split; [ apply list_elem_of_here | ]. cbn. auto.
          -- apply elem_of_empty in Hin. contradiction.
        * right. exists e. split; [ apply list_elem_of_further; exact He | ].
          auto.
      + intros [ Hin | (e & He & Hn & Hd) ].
        * left. apply elem_of_union. auto.
        * apply elem_of_cons in He as [ -> | He ].
          -- left. cbn in Hn, Hd. rewrite Hd. apply elem_of_union. left.
             apply elem_of_singleton. auto.
          -- right. exists e. auto. }
  intros H. rewrite (Hgen _ _ _ H). cbn [discarded_reads].
  split.
  - intros [ Hin | (e & He & Hn & Hd) ].
    + apply elem_of_empty in Hin. contradiction.
    + unfold pileup_entries in He. apply list_elem_of_In in He.
      apply in_flat_map in He as (column & Hcol & He).
      apply in_map_iff in He as (read & <- & Hread).
      exists column, read. cbn in Hn, Hd.
      split; [ apply list_elem_of_In; exact Hcol | ].
      split; [ apply list_elem_of_In; exact Hread | auto ].
  - intros (column & read & Hcol & Hread & Hn & Hd).
    right. exists (col_reference_name column, col_reference_pos column, read).
    split; [ | auto ].
    unfold pileup_entries. apply list_elem_of_In. apply in_flat_map.
    exists column. split; [ apply list_elem_of_In; exact Hcol | ].
    apply in_map_iff. exists read.
    split; [ reflexivity | apply list_elem_of_In; exact Hread ].
Qed.

Lemma discarded_reads_exact_witness :
  exists st,
    process_pileups sample_caller sample_call_data mismatched_columns
      = Ok st /\
    "read9"%string ∈ discarded_reads st /\
    ~ "read1"%string ∈ discarded_reads st.
Proof.
  destruct (process_pileups sample_caller sample_call_data
              mismatched_columns) as [ st | ] eqn:H;
    [ | discriminate H ].
  exists st. split; [ reflexivity | ]. split.
  - apply (proj2 (discarded_reads_exact sample_caller sample_call_data
                    mismatched_columns st "read9" H)).
    exists (mkColumn "contig1" 0
              [ at_offset (sample_read "read1" 0 [30; 30]) 0;
                at_offset (sample_read "read9" 5 [30; 30]) 0 ]),
           (at_offset (sample_read "read9" 5 [30; 30]) 0).
    split; [ apply list_elem_of_here | ].
    split; [ apply list_elem_of_further, list_elem_of_here | ].
    split; reflexivity.
  - intros Hin.
    apply (proj1 (discarded_reads_exact sample_caller sample_call_data
                    mismatched_columns st "read1" H)) in Hin.
    destruct Hin as (column & read & Hcol & Hread & Hn & Hd).
    apply list_elem_of_singleton in Hcol. subst column.
    cbn [pileups] in Hread.
    apply elem_of_cons in Hread as [ -> | Hread ];
      [ discriminate Hd | ].
    apply list_elem_of_singleton in Hread. subst read.
    discriminate Hn.
Defined.
(** ** Genome-wide to scaffold coordinates *)

(** The dictionary [Reference.__init__] builds files every record under
    its own id. *)
Lemma dict_set_keyed (d : list (string * Sequence)) r :
  Forall (fun kv => fst kv = metadata_id (snd kv)) d ->
  Forall (fun kv => fst kv = metadata_id (snd kv)) (dict_set d (metadata_id r) r).
Proof.
  induction 1 as [ | [ k v ] d Hk Hd IH ]; cbn.
  - constructor; [ reflexivity | constructor ].
  - case_bool_decide.
    + constructor; [ reflexivity | exact Hd ].
    + constructor; [ exact Hk | exact IH ].
Qed.

Lemma new_reference_keyed records :
  Forall (fun kv => fst kv = metadata_id (snd kv))
         (scaffolds (new_reference records)).
Proof.
  unfold new_reference. cbn [scaffolds].
  assert (Hgen : forall d,
    Forall (fun kv => fst kv = metadata_id (snd kv)) d ->
    Forall (fun kv => fst kv = metadata_id (snd kv))
           (foldl (fun d r => dict_set d (metadata_id r) r) d records)).
  { induction records as [ | r records IH ]; intros d Hd; cbn.
    - exact Hd.
    - apply IH, dict_set_keyed, Hd. }
  apply Hgen. constructor.
Qed.

(** The pairs [scaffold_coord] walks over, for a reference whose lengths
    were taken from its scaffolds. *)
Lemma zip_values_lengths (d : list (string * Sequence)) :
  zip (map snd d)
      (map (fun kv => Z.of_nat (String.length (seq_values (snd kv)))) d)
  = map (fun kv => (snd kv, Z.of_nat (String.length (seq_values (snd kv))))) d.
Proof.
  induction d as [ | kv d IH ]; cbn; [ reflexivity | ].
  f_equal. exact IH.
Qed.

Lemma lengths_total_nonneg (d : list (string * Sequence)) :
  0 <= foldr Z.add 0
         (map (fun kv => Z.of_nat (String.length (seq_values (snd kv)))) d).
Proof.
  induction d as [ | kv d IH ]; cbn; lia.
Qed.

Lemma scaffold_coord_loop_range (d : list (string * Sequence)) offset coord :
  offset <= coord ->
  let items :=
    map (fun kv => (snd kv, Z.of_nat (String.length (seq_values (snd kv)))))
        d in
  let total :=
    foldr Z.add 0
      (map (fun kv => Z.of_nat (String.length (seq_values (snd kv)))) d) in
  (offset + total <= coord -> scaffold_coord_loop items offset coord = None) /\
  (coord < offset + total ->
   exists kv c,
     kv ∈ d /\
     scaffold_coord_loop items offset coord = Some (metadata_id (snd kv), c) /\
     1 <= c <= Z.of_nat (String.length (seq_values (snd kv)))).
Proof.
  revert offset. induction d as [ | kv d IH ]; intros offset Hoff; cbn.
  - split; [ reflexivity | lia ].
  - destruct (Z.ltb_spec coord
                (offset + Z.of_nat (String.length (seq_values (snd kv)))))
      as [ Hlt | Hge ].
    + split; [ intros Hc; pose proof (lengths_total_nonneg d); lia | ].
      intros _. exists kv, (coord + 1 - offset).
      split; [ apply list_elem_of_here | ].
      split; [ reflexivity | lia ].
    + destruct (IH (offset + Z.of_nat (String.length (seq_values (snd kv))))
                  Hge) as [ Hnone Hsome ].
      split.
      * intros Hc. apply Hnone. lia.
      * intros Hc. destruct Hsome as (kv' & c & Hin & Hres & Hrange);
          [ lia | ].
        exists kv', c. split; [ apply list_elem_of_further, Hin | ].
        split; [ exact Hres | exact Hrange ].
Qed.

(** X9. [Reference.scaffold_coord] on a reference read from a file: a
    coordinate in [0, length) is answered with the id of a scaffold of
    the reference and a 1-based coordinate within that scaffold's length;
    a coordinate at or past the total length is answered with [None], not
    an exception; a negative coordinate is answered with the first
    scaffold and a coordinate below 1. *)
Theorem scaffold_coord_in_range records coord :
  (0 <= coord < ref_length (new_reference records) ->
   exists name s c,
     scaffold_coord (new_reference records) coord = Some (name, c) /\
     (name, s) ∈ scaffolds (new_reference records) /\
     1 <= c <= Z.of_nat (String.length (seq_values s))) /\
  (ref_length (new_reference records) <= coord ->
   scaffold_coord (new_reference records) coord = None) /\
  (coord < 0 ->
   scaffold_coord (new_reference records) coord =
   match scaffolds (new_reference records) with
   | [] => None
   | (name, _) :: _ => Some (name, coord + 1)
   end).
Proof.
  pose proof (new_reference_keyed records) as Hkey.
  unfold scaffold_coord.
  change (lengths (new_reference records))
    with (map (fun kv => Z.of_nat (String.length (seq_values (snd kv))))
              (scaffolds (new_reference records))) in *.
  change (ref_length (new_reference records))
    with (foldr Z.add 0
            (map (fun kv => Z.of_nat (String.length (seq_values (snd kv))))
                 (scaffolds (new_reference records)))).
  rewrite zip_values_lengths.
  set (d := scaffolds (new_reference records)) in *.
  split; [ | split ].
  - intros [ H0 Hlt ].
    destruct (scaffold_coord_loop_range d 0 coord H0) as [ _ Hsome ].
    destruct Hsome as ([ name s ] & c & Hin & Hres & Hrange); [ lia | ].
    exists name, s, c. cbn [snd] in Hres, Hrange.
    rewrite Forall_forall in Hkey. specialize (Hkey _ Hin). cbn in Hkey.
    rewrite Hkey. split; [ exact Hres | ].
    split; [ rewrite <- Hkey; exact Hin | exact Hrange ].
  - intros Hge.
    destruct (Z_lt_le_dec coord 0) as [ Hneg | H0 ].
    + assert (Hempty : d = []).
      { destruct d as [ | kv d' ]; [ reflexivity | ].
        exfalso. cbn in Hge. pose proof (lengths_total_nonneg d'). lia. }
      rewrite Hempty. reflexivity.
    + destruct (scaffold_coord_loop_range d 0 coord H0) as [ Hnone _ ].
      apply Hnone. lia.
  - intros Hneg. destruct d as [ | [ name s ] d' ] eqn:Hd; [ reflexivity | ].
    cbn. apply Forall_cons in Hkey as [ Hkey _ ]. cbn in Hkey.
    destruct (Z.ltb_spec coord (0 + Z.of_nat (String.length (seq_values s))));
      [ | lia ].
    rewrite Hkey. f_equal. f_equal. lia.
Qed.

Lemma scaffold_coord_in_range_witness :
  (exists name s c,
     scaffold_coord sample_reference 5 = Some (name, c) /\
     (name, s) ∈ scaffolds sample_reference /\
     1 <= c <= Z.of_nat (String.length (seq_values s))) /\
  scaffold_coord sample_reference 6 = None /\
  scaffold_coord sample_reference (-2) = Some ("contig1"%string, -1).
Proof.
  destruct (scaffold_coord_in_range
              [ mkSequence "contig1" "ACGT"; mkSequence "contig2" "GG" ] 5)
    as (Hin & _ & _).
  destruct (scaffold_coord_in_range
              [ mkSequence "contig1" "ACGT"; mkSequence "contig2" "GG" ] 6)
    as (_ & Hout & _).
  destruct (scaffold_coord_in_range
              [ mkSequence "contig1" "ACGT"; mkSequence "contig2" "GG" ] (-2))
    as (_ & _ & Hneg).
  split; [ apply Hin; vm_compute; split; congruence | ].
  split; [ apply Hout; vm_compute; congruence | ].
  apply Hneg. reflexivity.
Defined.

(** ** Alternative alignment locations *)

Lemma omap_length_le {A B} (f : A -> option B) (l : list A) :
  (length (omap f l) <= length l)%nat.
Proof.
  induction l as [ | x l IH ]; cbn; [ lia | ].
  destruct (f x); cbn; lia.
Qed.

(** X10. [_alternative_locations] for a read with an [XA] tag: without an
    [NM] tag it raises [KeyError], even when the tag lists no hit. With
    one, and an ungapped read looked at inside its aligned span, it
    yields at most one location per hit, each from a hit without
    clipping or indels and with no more mismatches than the read, each
    inside the span the read would cover at that hit, on the strand the
    hit and the read differ by. *)
Theorem alternative_locations_within_hit read loc xa :
  tag_XA read = Some xa ->
  (tag_NM read = None -> alternative_locations read loc = Raise KeyError) /\
  (forall nm,
     tag_NM read = Some nm ->
     reference_start read <= loc < reference_end read ->
     reference_end read - reference_start read = query_length read ->
     exists locs,
       alternative_locations read loc = Ok locs /\
       (length locs <= length xa)%nat /\
       forall scaffold coord rc,
         (scaffold, coord, rc) ∈ locs ->
         exists hit,
           hit ∈ xa /\ xa_scaffold hit = scaffold /\
           xa_nm hit <= nm /\
           str_contains "S"%char (xa_cigar hit) = false /\
           str_contains "H"%char (xa_cigar hit) = false /\
           str_contains "D"%char (xa_cigar hit) = false /\
           str_contains "I"%char (xa_cigar hit) = false /\
           Z.abs (xa_pos hit) - 1 <= coord
             < Z.abs (xa_pos hit) - 1 + query_length read /\
           rc = xorb (xa_pos hit <? 0) (is_reverse read)).
Proof.
  intros Hxa. unfold alternative_locations. rewrite Hxa.
  split.
  - intros ->. reflexivity.
  - intros nm -> Hloc Hlen.
    eexists. split; [ reflexivity | ].
    split; [ apply omap_length_le | ].
    intros scaffold coord rc Hin.
    apply list_elem_of_omap in Hin as (hit & Hhit & Hf).
    exists hit. split; [ exact Hhit | ].
    destruct (str_contains "S" (xa_cigar hit)); [ discriminate Hf | ].
    destruct (str_contains "H" (xa_cigar hit)); [ discriminate Hf | ].
    destruct (str_contains "D" (xa_cigar hit)); [ discriminate Hf | ].
    destruct (str_contains "I" (xa_cigar hit)); [ discriminate Hf | ].
    cbn [orb] in Hf.
    destruct (Z.leb_spec (xa_nm hit) nm) as [ Hnm | ]; [ | discriminate Hf ].
    injection Hf as <- <- <-.
    split; [ reflexivity | ]. split; [ exact Hnm | ].
    repeat (split; [ reflexivity | ]).
    split; [ | reflexivity ].
    destruct (xa_pos hit <? 0), (is_reverse read); lia.
Qed.

Lemma alternative_locations_within_hit_witness :
  exists locs,
    alternative_locations mirrored_read 0 = Ok locs /\
    (length locs <= 1)%nat /\
    forall scaffold coord rc,
      (scaffold, coord, rc) ∈ locs ->
      scaffold = "contig2"%string /\ 2 <= coord < 4 /\ rc = true.
Proof.
  destruct (alternative_locations_within_hit mirrored_read 0
              [mkHit "contig2" (-3) "2M" 1] eq_refl) as [ _ H ].
  destruct (H 1 eq_refl) as (locs & Hlocs & Hlen & Hall).
  - cbn. lia.
  - reflexivity.
  - exists locs. split; [ exact Hlocs | ]. split; [ exact Hlen | ].
    intros scaffold coord rc Hin.
    destruct (Hall _ _ _ Hin)
      as (hit & Hhit & Hs & _ & _ & _ & _ & _ & Hc & Hrc).
    apply list_elem_of_singleton in Hhit. subst hit. cbn in Hs, Hc, Hrc.
    split; [ congruence | ]. split; [ lia | exact Hrc ].
Defined.

(** ** What the abundance pass counts *)

Lemma count_alignment_cases self call a :
  count_alignment self call a =
  if is_counted self a
  then inc_uniquely_mapped_reads call (reference_name a)
  else Ok call.
Proof.
  unfold count_alignment, is_counted.
  destruct ((mapping_quality a <? 3) || bool_decide (is_Some (tag_XA a)));
    [ reflexivity | ].
  destruct (is_paired a && negb (is_proper_pair a)); [ reflexivity | ].
  destruct (query_alignment_length a =? query_length a); [ | reflexivity ].
  destruct (is_paired a && (Z.abs (template_length a) <? query_length a));
    [ reflexivity | ].
  cbn [negb andb].
  destruct (0 <? vc_max_num_mismatches self); [ | reflexivity ].
  cbn [andb].
  destruct (vc_max_num_mismatches self <? default 0 (tag_NM a)); reflexivity.
Qed.

Lemma read_total_insert (m : gmap string ScaffoldCallData) name sd sd' :
  m !! name = Some sd ->
  map_fold (fun _ sd acc => sd_read_count sd + acc) 0 (<[name := sd']> m) =
  map_fold (fun _ sd acc => sd_read_count sd + acc) 0 m
  + sd_read_count sd' - sd_read_count sd.
Proof.
  intros Hm.
  rewrite <- (insert_delete_id m name sd Hm) at 2.
  rewrite <- (insert_delete_eq m name sd').
  rewrite !map_fold_insert_L.
  - lia.
  - intros; lia.
  - apply lookup_delete_eq.
  - intros; lia.
  - apply lookup_delete_eq.
Qed.

Lemma filter_cons_count {A} (P : A -> Prop) `{forall x, Decision (P x)}
      (x : A) (l : list A) :
  Z.of_nat (length (filter P (x :: l))) =
  (if bool_decide (P x) then 1 else 0) + Z.of_nat (length (filter P l)).
Proof.
  rewrite filter_cons. case_bool_decide as HP.
  - destruct (decide (P x)); [ cbn [length]; lia | contradiction ].
  - destruct (decide (P x)); [ contradiction | lia ].
Qed.

Lemma inc_uniquely_mapped_reads_effect call name sd :
  scaffolds_data call !! name = Some sd ->
  exists call',
    inc_uniquely_mapped_reads call name = Ok call' /\
    uniquely_mapped_reads call' = uniquely_mapped_reads call + 1 /\
    scaffolds_data call' =
      <[name := set_read_count sd (sd_read_count sd + 1)]>
        (scaffolds_data call) /\
    read_total call' = read_total call + 1.
Proof.
  intros Hm. unfold inc_uniquely_mapped_reads, get_scaffold.
  cbn [scaffolds_data]. rewrite Hm. cbn [rbind].
  eexists. split; [ reflexivity | ].
  split; [ reflexivity | ]. split; [ reflexivity | ].
  unfold read_total. cbn [set_scaffold scaffolds_data].
  rewrite (read_total_insert _ _ sd _ Hm). cbn [set_read_count sd_read_count].
  lia.
Qed.

(** X11. The abundance pass of [process]. If every alignment that passes
    the filters names a scaffold of the call data, the pass returns:
    [uniquely_mapped_reads] has grown by the number of alignments that
    pass, each scaffold's [read_count] by the number of those aligned to
    it, and the sum of the read counts by as much as
    [uniquely_mapped_reads]. If some alignment that passes names an
    unknown scaffold, the pass raises [KeyError]. *)
Theorem abundance_counts self call alignments :
  ((forall a, a ∈ alignments -> is_counted self a = true ->
              is_Some (scaffolds_data call !! reference_name a)) ->
   exists call',
     estimate_abundance self call alignments = Ok call' /\
     uniquely_mapped_reads call' =
       uniquely_mapped_reads call
       + Z.of_nat (length (filter (fun a => is_counted self a = true)
                                  alignments)) /\
     (forall name,
        sd_read_count <$> (scaffolds_data call' !! name) =
        (fun sd =>
           sd_read_count sd
           + Z.of_nat (length (filter (fun a => is_counted self a = true /\
                                                reference_name a = name)
                                      alignments)))
          <$> (scaffolds_data call !! name)) /\
     read_total call' - uniquely_mapped_reads call' =
       read_total call - uniquely_mapped_reads call) /\
  ((exists a, a ∈ alignments /\ is_counted self a = true /\
              scaffolds_data call !! reference_name a = None) ->
   estimate_abundance self call alignments = Raise KeyError).
Proof.
  split.
  - revert call. induction alignments as [ | a alignments IH ];
      intros call Hknown.
    + exists call. cbn. split; [ reflexivity | ]. split; [ lia | ].
      split; [ | reflexivity ].
      intros name. destruct (scaffolds_data call !! name) as [ sd | ];
        cbn; [ f_equal; lia | reflexivity ].
    + cbn [estimate_abundance]. rewrite count_alignment_cases.
      rewrite filter_cons_count.
      destruct (is_counted self a) eqn:Hc.
      * destruct (Hknown a (list_elem_of_here _ _) Hc) as [ sd Hsd ].
        destruct (inc_uniquely_mapped_reads_effect call _ sd Hsd)
          as (call1 & -> & Hu & Hs & Ht).
        cbn [rbind].
        destruct (IH call1) as (call' & -> & Hu' & Hs' & Ht').
        { intros b Hb Hcb. rewrite Hs.
          destruct (decide (reference_name a = reference_name b)) as [ E | E ].
          - rewrite E, lookup_insert_eq. eauto.
          - rewrite lookup_insert_ne by exact E.
            apply Hknown; [ apply list_elem_of_further, Hb | exact Hcb ]. }
        exists call'. split; [ reflexivity | ].
        rewrite (bool_decide_eq_true_2 (true = true) eq_refl).
        split; [ lia | ]. split; [ | lia ].
        intros name. rewrite Hs', Hs, filter_cons_count, Hc.
        destruct (decide (reference_name a = name)) as [ E | E ].
        -- rewrite (bool_decide_eq_true_2 _ (conj eq_refl E)).
           rewrite E, lookup_insert_eq. rewrite <- E, Hsd. cbn.
           f_equal. lia.
        -- rewrite bool_decide_eq_false_2 by (intros [ _ E' ]; exact (E E')).
           rewrite lookup_insert_ne by exact E. reflexivity.
      * cbn [rbind].
        destruct (IH call) as (call' & -> & Hu' & Hs' & Ht').
        { intros b Hb Hcb.
          apply Hknown; [ apply list_elem_of_further, Hb | exact Hcb ]. }
        exists call'. split; [ reflexivity | ].
        rewrite bool_decide_eq_false_2 by discriminate.
        split; [ exact Hu' | ]. split; [ | exact Ht' ].
        intros name. rewrite Hs', filter_cons_count, Hc.
        rewrite bool_decide_eq_false_2
          by (intros [ E' _ ]; discriminate E').
        reflexivity.
  - revert call. induction alignments as [ | a alignments IH ];
      intros call (b & Hb & Hcb & Hnone).
    + apply elem_of_nil in Hb. contradiction.
    + cbn [estimate_abundance]. rewrite count_alignment_cases.
      destruct (is_counted self a) eqn:Hc.
      * destruct (scaffolds_data call !! reference_name a) as [ sd | ] eqn:Hsd.
        -- destruct (inc_uniquely_mapped_reads_effect call _ sd Hsd)
             as (call1 & -> & _ & Hs & _).
           cbn [rbind]. apply IH.
           apply elem_of_cons in Hb as [ -> | Hb ]; [ congruence | ].
           exists b. split; [ exact Hb | ]. split; [ exact Hcb | ].
           rewrite Hs.
           destruct (decide (reference_name a = reference_name b)) as [ E | E ].
           ++ rewrite <- E, Hsd in Hnone. discriminate Hnone.
           ++ rewrite lookup_insert_ne by exact E. exact Hnone.
        -- unfold inc_uniquely_mapped_reads, get_scaffold.
           cbn [scaffolds_data]. rewrite Hsd. reflexivity.
      * cbn [rbind]. apply IH.
        apply elem_of_cons in Hb as [ -> | Hb ]; [ congruence | ].
        exists b. auto.
Qed.

Lemma abundance_counts_witness :
  exists call',
    estimate_abundance sample_caller sample_call_data sample_alignments
      = Ok call' /\
    uniquely_mapped_reads call' = 1 /\
    sd_read_count <$> (scaffolds_data call' !! "contig1"%string) = Some 1 /\
    read_total call' = uniquely_mapped_reads call'.
Proof.
  destruct (abundance_counts sample_caller sample_call_data sample_alignments)
    as [ H _ ].
  destruct H as (call' & Hrun & Hu & Hs & Ht).
  - intros a Ha _. apply list_elem_of_singleton in Ha. subst a.
    exists (new_scaffold "contig1" 2). reflexivity.
  - exists call'. split; [ exact Hrun | ].
    split; [ rewrite Hu; reflexivity | ].
    split; [ rewrite Hs; reflexivity | ].
    assert (E : read_total sample_call_data = 0) by reflexivity.
    rewrite E in Ht. cbn in Ht. lia.
Defined.

(** ** Every pileup entry is tallied once *)

Lemma tally_in_range sd pos b l cell :
  0 <= pos ->
  sd_bad sd !! Z.to_nat pos = Some b ->
  sd_lowmq_count sd !! Z.to_nat pos = Some l ->
  sd_alleles sd !! Z.to_nat pos = Some cell ->
  tally sd pos = Ok (b + (np_sum (counts cell) + l)).
Proof.
  intros Hpos Hb Hl Hc. unfold tally, total_depth, depth.
  rewrite (np_get_in_range _ pos b Hpos Hb). cbn [rbind].
  rewrite (np_get_in_range _ pos cell Hpos Hc). cbn [rbind].
  rewrite (np_get_in_range _ pos l Hpos Hl). cbn [rbind].
  reflexivity.
Qed.

(** The three lookups a tally needs exist at every position in range. *)
Lemma tally_lookups sd pos :
  scaffold_ok sd -> 0 <= pos < sd_length sd ->
  exists b l cell,
    sd_bad sd !! Z.to_nat pos = Some b /\
    sd_lowmq_count sd !! Z.to_nat pos = Some l /\
    sd_alleles sd !! Z.to_nat pos = Some cell.
Proof.
  intros (_ & _ & La & Lb & Ll & _) Hpos.
  destruct (lookup_lt_is_Some_2 (sd_bad sd) (Z.to_nat pos)) as [ b Hb ];
    [ lia | ].
  destruct (lookup_lt_is_Some_2 (sd_lowmq_count sd) (Z.to_nat pos))
    as [ l Hl ]; [ lia | ].
  destruct (lookup_lt_is_Some_2 (sd_alleles sd) (Z.to_nat pos))
    as [ cell Hc ]; [ lia | ].
  exists b, l, cell. auto.
Qed.

Lemma wrap32_small (z : Z) : 0 <= z < 2 ^ 32 -> wrap32 z = z.
Proof. intros H. unfold wrap32. apply Z.mod_small. exact H. Qed.

(** One more read in one of the three arrays is one more read in the
    tally of that position, and no change anywhere else. *)
Lemma tally_one_more sd sd' refpos :
  scaffold_ok sd ->
  0 <= refpos < sd_length sd ->
  (forall n b l cell,
     sd_bad sd !! n = Some b -> sd_lowmq_count sd !! n = Some l ->
     sd_alleles sd !! n = Some cell ->
     exists b' l' cell',
       sd_bad sd' !! n = Some b' /\ sd_lowmq_count sd' !! n = Some l' /\
       sd_alleles sd' !! n = Some cell' /\
       b' + (np_sum (counts cell') + l') =
       b + (np_sum (counts cell) + l)
       + (if bool_decide (n = Z.to_nat refpos) then 1 else 0)) ->
  forall pos, 0 <= pos < sd_length sd ->
    exists t, tally sd pos = Ok t /\
              tally sd' pos = Ok (t + (if pos =? refpos then 1 else 0)).
Proof.
  intros Hok Href Hstep pos Hpos.
  destruct (tally_lookups sd pos Hok Hpos) as (b & l & cell & Hb & Hl & Hc).
  destruct (Hstep _ _ _ _ Hb Hl Hc) as (b' & l' & cell' & Hb' & Hl' & Hc' & E).
  exists (b + (np_sum (counts cell) + l)).
  split; [ apply tally_in_range; [ lia | assumption .. ] | ].
  rewrite (tally_in_range sd' pos b' l' cell') by (lia || assumption).
  f_equal. rewrite E.
  destruct (Z.eqb_spec pos refpos) as [ -> | Hne ].
  - rewrite bool_decide_eq_true_2 by reflexivity. reflexivity.
  - rewrite bool_decide_eq_false_2 by lia. reflexivity.
Qed.

Lemma counted_once_bad cd scaffold sd refpos bad' :
  get_scaffold cd scaffold = Ok sd ->
  scaffold_ok sd ->
  0 <= refpos < sd_length sd ->
  has_room sd refpos ->
  np_iadd (sd_bad sd) refpos 1 = Ok bad' ->
  counted_once_at cd (set_scaffold cd scaffold (set_bad sd bad'))
                  scaffold refpos.
Proof.
  intros Hsd Hok Href (b0 & _ & _ & Hb0 & _ & _ & Hroom & _) Hbad.
  pose proof Hok as (_ & _ & _ & Lb & _ & _ & _ & Ub & _).
  split.
  - intros name Hne. cbn. apply lookup_insert_ne. congruence.
  - exists sd, (set_bad sd bad').
    split; [ exact Hsd | ].
    split; [ unfold get_scaffold; cbn; rewrite lookup_insert_eq; reflexivity | ].
    split; [ reflexivity | ].
    apply tally_one_more; [ exact Hok | exact Href | ].
    intros n b l cell Hb Hl Hc.
    unfold np_iadd in Hbad. rewrite np_index_in_range in Hbad by lia.
    cbn [rbind] in Hbad. injection Hbad as <-.
    cbn [set_bad sd_bad sd_lowmq_count sd_alleles].
    case_bool_decide as Hn.
    + subst n. exists (wrap32 (b + 1)), l, cell.
      split; [ rewrite list_lookup_alter_eq, Hb; reflexivity | ].
      split; [ exact Hl | ]. split; [ exact Hc | ].
      rewrite (np_get_in_range _ refpos b) in Hb0 by (lia || exact Hb).
      injection Hb0 as <-.
      rewrite Forall_forall in Ub.
      pose proof (Ub b (list_elem_of_lookup_2 _ _ _ Hb)) as Hu.
      unfold u32 in Hu. rewrite wrap32_small by lia. lia.
    + exists b, l, cell.
      split; [ rewrite list_lookup_alter_ne by congruence; exact Hb | ].
      split; [ exact Hl | ]. split; [ exact Hc | lia ].
Qed.

Lemma counted_once_lowmq cd scaffold sd refpos :
  get_scaffold cd scaffold = Ok sd ->
  scaffold_ok sd ->
  0 <= refpos < sd_length sd ->
  has_room sd refpos ->
  exists cd',
    low_mapping_quality cd scaffold refpos = Ok (cd', []) /\
    counted_once_at cd cd' scaffold refpos.
Proof.
  intros Hsd Hok Href (_ & l0 & _ & _ & Hl0 & _ & _ & Hroom & _).
  pose proof Hok as (_ & _ & _ & _ & Ll & _ & _ & _ & Ul & _).
  unfold low_mapping_quality. rewrite Hsd. cbn [rbind].
  destruct (Z.leb_spec (sd_length sd) refpos); [ lia | ].
  unfold np_iadd. rewrite np_index_in_range by lia. cbn [rbind].
  eexists. split; [ reflexivity | ].
  split.
  - intros name Hne. cbn. apply lookup_insert_ne. congruence.
  - exists sd. eexists.
    split; [ exact Hsd | ].
    split; [ unfold get_scaffold; cbn; rewrite lookup_insert_eq; reflexivity | ].
    split; [ reflexivity | ].
    apply tally_one_more; [ exact Hok | exact Href | ].
    intros n b l cell Hb Hl Hc.
    cbn [set_lowmq_count sd_bad sd_lowmq_count sd_alleles].
    case_bool_decide as Hn.
    + subst n. exists b, (wrap32 (l + 1)), cell.
      split; [ exact Hb | ].
      split; [ rewrite list_lookup_alter_eq, Hl; reflexivity | ].
      split; [ exact Hc | ].
      rewrite (np_get_in_range _ refpos l) in Hl0 by (lia || exact Hl).
      injection Hl0 as <-.
      rewrite Forall_forall in Ul.
      pose proof (Ul l (list_elem_of_lookup_2 _ _ _ Hl)) as Hu.
      unfold u32 in Hu. rewrite wrap32_small by lia. lia.
    + exists b, l, cell.
      split; [ exact Hb | ].
      split; [ rewrite list_lookup_alter_ne by congruence; exact Hl | ].
      split; [ exact Hc | lia ].
Qed.

Lemma counted_once_good cd scaffold sd refpos allele bq mq cd' :
  get_scaffold cd scaffold = Ok sd ->
  scaffold_ok sd ->
  0 <= refpos < sd_length sd ->
  has_room sd refpos ->
  good_read cd scaffold refpos allele bq mq false = Ok cd' ->
  counted_once_at cd cd' scaffold refpos.
Proof.
  intros Hsd Hok Href (_ & _ & cell0 & _ & _ & Hc0 & _ & _ & Hroom) H.
  destruct (tally_lookups sd refpos Hok Href)
    as (_ & _ & cell1 & _ & _ & Hc1).
  rewrite (np_get_in_range _ refpos cell1) in Hc0 by (lia || exact Hc1).
  injection Hc0 as <-.
  destruct (ALLELE_INDEX allele) as [ ix | e ] eqn:Hix.
  2: { unfold good_read in H. rewrite Hix in H. discriminate H. }
  rewrite (good_read_in_range cd scaffold sd refpos allele bq mq false ix
             cell1 Hsd Hok Href Hix Hc1) in H.
  injection H as <-.
  pose proof Hok as (_ & _ & _ & _ & _ & _ & Hcells & _).
  rewrite Forall_forall in Hcells.
  destruct (Hcells cell1 (list_elem_of_lookup_2 _ _ _ Hc1))
    as [ [ Lc _ ] [ Uc _ ] ].
  assert (Hlt : (ix < 6)%nat).
  { apply ALLELE_INDEX_spec in Hix. apply lookup_lt_Some in Hix. exact Hix. }
  destruct (lookup_lt_is_Some_2 (counts cell1) ix) as [ c Hc ]; [ lia | ].
  split.
  - intros name Hne. cbn. apply lookup_insert_ne. congruence.
  - exists sd. eexists.
    split; [ exact Hsd | ].
    split; [ unfold get_scaffold; cbn; rewrite lookup_insert_eq; reflexivity | ].
    split; [ reflexivity | ].
    apply tally_one_more; [ exact Hok | exact Href | ].
    intros n b l cell Hb Hl Hcell.
    cbn [set_mq_sum set_alleles sd_bad sd_lowmq_count sd_alleles].
    case_bool_decide as Hn.
    + subst n. rewrite Hc1 in Hcell. injection Hcell as <-.
      eexists b, l, _.
      split; [ exact Hb | ]. split; [ exact Hl | ].
      split; [ apply list_lookup_insert_eq;
               apply lookup_lt_Some in Hc1; exact Hc1 | ].
      cbn [counts]. rewrite (np_sum_alter _ _ _ c Hc).
      rewrite Forall_forall in Hroom, Uc.
      pose proof (Hroom c (list_elem_of_lookup_2 _ _ _ Hc)) as Hr.
      pose proof (Uc c (list_elem_of_lookup_2 _ _ _ Hc)) as Hu.
      unfold u32 in Hu. rewrite wrap32_small by lia. lia.
    + exists b, l, cell.
      split; [ exact Hb | ]. split; [ exact Hl | ].
      split; [ rewrite list_lookup_insert_ne by congruence; exact Hcell | lia ].
Qed.

(** X12. A pileup entry of a read without an [XA] tag, at a position
    inside its scaffold whose counters have room: if [_assess_read]
    returns, the entry has been tallied exactly once. Whatever the
    filter chain decided, the sum of [bad] and [total_depth] at that
    position has grown by one, and it is unchanged at every other
    position and on every other scaffold. *)
Theorem entry_counted_once self st scaffold refpos read st' sd :
  get_scaffold (call_data st) scaffold = Ok sd ->
  scaffold_ok sd ->
  0 <= refpos < sd_length sd ->
  has_room sd refpos ->
  tag_XA (alignment read) = None ->
  assess_read self st scaffold refpos read = Ok st' ->
  counted_once_at (call_data st) (call_data st') scaffold refpos.
Proof.
  intros Hsd Hok Href Hroom Hxa H.
  assert (Hbad : forall st0,
    call_data st0 = call_data st ->
    record_bad st0 scaffold refpos = Ok st' ->
    counted_once_at (call_data st) (call_data st') scaffold refpos).
  { intros st0 E Hr.
    destruct (record_bad_inv _ _ _ _ Hr) as (_ & _ & sd0 & bad' & Hs & Hi & ->).
    rewrite E in Hs |- *.
    assert (sd0 = sd) as ->.
    { unfold get_scaffold in Hsd. rewrite Hs in Hsd. congruence. }
    apply counted_once_bad; assumption. }
  unfold assess_read in H.
  destruct (bool_decide (query_name (alignment read) ∈ discarded_reads st)).
  { apply (Hbad st eq_refl H). }
  destruct (is_paired (alignment read) &&
            negb (is_proper_pair (alignment read))).
  { apply (Hbad (discard st (query_name (alignment read))) eq_refl H). }
  destruct (negb (query_alignment_length (alignment read) =?
                  query_length (alignment read))).
  { apply (Hbad (discard st (query_name (alignment read))) eq_refl H). }
  destruct (is_paired (alignment read) &&
            (Z.abs (template_length (alignment read)) <?
             query_length (alignment read))).
  { apply (Hbad (discard st (query_name (alignment read))) eq_refl H). }
  destruct ((0 <? vc_max_num_mismatches self) &&
            (vc_max_num_mismatches self <?
             default 0 (tag_NM (alignment read)))).
  { apply (Hbad (discard st (query_name (alignment read))) eq_refl H). }
  destruct (np_get (query_qualities (alignment read))
              (query_position_or_next read)) as [ qual | ];
    [ | discriminate H ].
  cbn [rbind] in H.
  destruct (qual <? vc_min_qual self).
  { apply (Hbad st eq_refl H). }
  match type of H with
  | (let! _ := ?m in _) = Ok _ =>
      destruct m as [ base | ]; [ | discriminate H ]
  end.
  cbn [rbind] in H.
  destruct (base =? Allele.N).
  { apply (Hbad st eq_refl H). }
  destruct (mapping_quality (alignment read) <? vc_min_mapping_quality self)
    eqn:Hmq.
  - destruct (counted_once_lowmq _ _ _ _ Hsd Hok Href Hroom)
      as (cd' & Hlow & Hcount).
    rewrite Hlow in H. cbn [rbind fst snd] in H.
    unfold assess_alternative_locations, alternative_locations in H.
    cbn [alignment] in H. rewrite Hmq, Hxa in H. cbn in H.
    injection H as <-. exact Hcount.
  - destruct (good_read (call_data st) scaffold refpos base qual
                (mapping_quality (alignment read)) false)
      as [ cd' | ] eqn:Hgood; [ | discriminate H ].
    cbn [rbind] in H.
    assert (Hst : call_data st' = cd').
    { destruct (mapping_quality (alignment read) <=? 3).
      - unfold alternative_locations in H. rewrite Hxa in H. cbn in H.
        injection H as <-. reflexivity.
      - injection H as <-. reflexivity. }
    rewrite Hst. eapply counted_once_good; eassumption.
Qed.

Lemma entry_counted_once_witness :
  exists st',
    assess_read sample_caller (mkState ∅ sample_call_data []) "contig1" 0
      (at_offset (sample_read "read2" 0 [2; 30]) 0) = Ok st' /\
    counted_once_at sample_call_data (call_data st') "contig1" 0.
Proof.
  destruct (assess_read sample_caller (mkState ∅ sample_call_data [])
              "contig1" 0 (at_offset (sample_read "read2" 0 [2; 30]) 0))
    as [ st' | ] eqn:H; [ | discriminate H ].
  exists st'. split; [ reflexivity | ].
  apply (entry_counted_once sample_caller (mkState ∅ sample_call_data [])
           "contig1" 0 (at_offset (sample_read "read2" 0 [2; 30]) 0) st'
           (new_scaffold "contig1" 2)).
  - reflexivity.
  - apply new_scaffold_ok.
  - cbn. lia.
  - exists 0, 0, (mkCell (replicate 6 0) (replicate 6 0)).
    split; [ reflexivity | ]. split; [ reflexivity | ].
    split; [ reflexivity | ]. split; [ lia | ]. split; [ lia | ].
    cbn. repeat constructor.
  - reflexivity.
  - exact H.
Defined.
(** ** High coverage and gaps *)

(** X13. A position whose coverage is above the cutoff of
    [calculate_coverage] has its weak call removed by [call_alleles], so
    the covered array of [find_gaps] holds for it only the
    low-mapping-quality test: with no more low-mapping-quality reads than
    good ones the position counts as not covered, however many good
    reads it has. *)
Theorem high_coverage_counts_as_uncovered
    ppf garbage mpq mqf sd s1 s2 (i : nat) c l :
  scaffold_ok sd ->
  calculate_coverage ppf sd = Ok s1 ->
  call_alleles garbage mpq mqf s1 = Ok s2 ->
  sd_alleles sd !! i = Some c ->
  sd_lowmq_count sd !! i = Some l ->
  (sd_coverage_cutoff s1 < inject_Z (np_sum (counts c) + l))%Q ->
  exists lowmq covered,
    covered_array s2 = Ok (lowmq, covered) /\
    covered !! i = Some ((1 <? l) && (np_sum (counts c) <? l)) /\
    (l <= np_sum (counts c) -> covered !! i = Some false).
Proof.
  intros Hok H1 H2 Hc Hl Hhigh.
  pose proof Hok as (_ & _ & La & _ & Ll & _).
  assert (Lla : length (sd_lowmq_count sd) = length (sd_alleles sd)) by lia.
  destruct (calculate_coverage_cutoff_returned ppf sd s1 Lla H1)
    as (cov & hc & mu & _ & Hhc & _ & _ & Hcov & Hmask & _).
  destruct (calculate_coverage_fields ppf sd s1 H1) as (Ea1 & El1 & _).
  destruct (call_alleles_fields garbage mpq mqf s1 s2 H2)
    as (Ea2 & El2 & _).
  destruct (Hmask i _ (Hcov i c l Hc Hl)) as (h & Hh & Hiff).
  assert (h = true) as -> by (apply Hiff; exact Hhigh).
  assert (Lhc : length hc = length (sd_alleles sd)).
  { destruct (calculate_coverage_fields ppf sd s1 H1)
      as (_ & _ & cov' & _ & Hadd & _ & _ & Hhc').
    rewrite Hhc in Hhc'. injection Hhc' as ->.
    unfold np_add in Hadd. rewrite length_map, <- Lla, Nat.eqb_refl in Hadd.
    injection Hadd as <-.
    rewrite length_map, length_zip_with, length_map. lia. }
  assert (Hweak : exists weak,
            sd_weak s2 = Some weak /\ length weak = length (sd_alleles sd) /\
            weak !! i = Some 0).
  { unfold call_alleles in H2. rewrite Hhc in H2. unfold np_mask_zero in H2.
    rewrite length_map, length_imap, Ea1, Lhc, Nat.eqb_refl in H2.
    cbn [rbind] in H2. injection H2 as <-. cbn [sd_weak].
    eexists. split; [ reflexivity | ].
    split; [ rewrite length_zip_with, length_map; lia | ].
    rewrite lookup_zip_with, Hh. cbn.
    rewrite list_lookup_fmap, Hc. reflexivity. }
  destruct Hweak as (weak & Hweak & Lw & Hw).
  destruct (covered_array_lookup s2 weak Hweak) as (lowmq & covered & Hca & Hat).
  { rewrite Ea2, Ea1. exact Lw. }
  { rewrite Ea2, El2, Ea1, El1. exact Lla. }
  exists lowmq, covered. split; [ exact Hca | ].
  assert (E : covered !! i = Some ((1 <? l) && (np_sum (counts c) <? l))).
  { rewrite Hat. unfold covered_at.
    rewrite Hweak, Hw, El2, El1, Hl, Ea2, Ea1, Hc. reflexivity. }
  split; [ exact E | ].
  intros Hle. rewrite E.
  destruct (Z.ltb_spec (np_sum (counts c)) l); [ lia | ].
  rewrite andb_false_r. reflexivity.
Qed.

Lemma high_coverage_counts_as_uncovered_witness :
  exists s1 s2 lowmq covered,
    calculate_coverage sample_ppf sample_raw_scaffold = Ok s1 /\
    call_alleles sample_garbage 50 (float_ratio 1 10) s1 = Ok s2 /\
    depth sample_raw_scaffold 0 = Ok 40 /\
    covered_array s2 = Ok (lowmq, covered) /\
    covered !! 0%nat = Some false.
Proof.
  destruct (calculate_coverage sample_ppf sample_raw_scaffold)
    as [ s1 | ] eqn:H1; [ | discriminate H1 ].
  destruct (call_alleles sample_garbage 50 (float_ratio 1 10) s1) as [ s2 | ] eqn:H2;
    [ | vm_compute in H1; injection H1 as <-; discriminate H2 ].
  destruct (high_coverage_counts_as_uncovered sample_ppf sample_garbage 50
              (float_ratio 1 10) sample_raw_scaffold s1 s2 0
              (mkCell [0; 0; 0; 40; 0; 0] [0; 0; 0; 800; 0; 0]) 0)
    as (lowmq & covered & Hca & _ & Hun).
  - repeat split; cbn; try lia; repeat constructor; cbn; lia.
  - exact H1.
  - exact H2.
  - reflexivity.
  - reflexivity.
  - vm_compute in H1. injection H1 as <-. reflexivity.
  - exists s1, s2, lowmq, covered.
    split; [ reflexivity | ]. split; [ exact H2 | ].
    split; [ reflexivity | ]. split; [ exact Hca | ].
    apply Hun. cbn. lia.
Defined.

(** ** The reference mask and the accessors that read it *)

Lemma list_ascii_length (s : string) :
  length (String.list_ascii_of_string s) = String.length s.
Proof. induction s as [ | c s IH ]; cbn; [ reflexivity | f_equal; exact IH ]. Qed.

Lemma set_refmask_same sd : set_refmask sd (sd_refmask sd) = sd.
Proof. destruct sd. reflexivity. Qed.

(** One scaffold's turn in [build_refmask]: the four assignments go
    through, and touch nothing but that scaffold's mask. *)
Lemma mark_bases_effect pairs cd name values sd :
  scaffolds_data cd !! name = Some sd ->
  length (sd_refmask sd) = String.length values ->
  exists cd' refmask,
    mark_bases cd name values pairs = Ok cd' /\
    scaffolds_data cd' =
      <[name := set_refmask sd refmask]> (scaffolds_data cd) /\
    min_gap_size cd' = min_gap_size cd /\
    reference_length cd' = reference_length cd /\
    uniquely_mapped_reads cd' = uniquely_mapped_reads cd /\
    length refmask = length (sd_refmask sd) /\
    forall (i : nat) ch (r : Z),
      String.list_ascii_of_string values !! i = Some ch ->
      sd_refmask sd !! i = Some r ->
      refmask !! i =
      Some (foldl (fun (r : Z) (p : ascii * Allele.t) =>
                     if Ascii.eqb ch (fst p) then snd p else r) r pairs).
Proof.
  revert cd sd. induction pairs as [ | [ base allele ] pairs IH ];
    intros cd sd Hsd Hlen.
  - exists cd, (sd_refmask sd). cbn.
    split; [ reflexivity | ].
    split; [ rewrite set_refmask_same, insert_id by exact Hsd; reflexivity | ].
    repeat (split; [ reflexivity | ]). auto.
  - cbn [mark_bases]. unfold get_scaffold. rewrite Hsd. cbn [rbind].
    unfold np_mask_set, values_eq.
    rewrite length_map, list_ascii_length, Hlen, Nat.eqb_refl. cbn [rbind].
    set (r1 := zip_with _ _ _).
    destruct (IH (set_scaffold cd name (set_refmask sd r1))
                 (set_refmask sd r1))
      as (cd' & refmask & Hrun & Hmap & Hg & Hr & Hu & Hl & Hat).
    { cbn. apply lookup_insert_eq. }
    { cbn. unfold r1. rewrite length_zip_with, length_map, list_ascii_length.
      lia. }
    exists cd', refmask. split; [ exact Hrun | ].
    split; [ rewrite Hmap; cbn; apply insert_insert_eq | ].
    split; [ exact Hg | ]. split; [ exact Hr | ]. split; [ exact Hu | ].
    split.
    { rewrite Hl. cbn. unfold r1.
      rewrite length_zip_with, length_map, list_ascii_length. lia. }
    intros i ch r Hch Hri. cbn [foldl fst snd].
    apply Hat; [ exact Hch | ].
    cbn [set_refmask sd_refmask]. unfold r1.
    rewrite lookup_zip_with, list_lookup_fmap, Hch.
    cbn [fmap option_fmap option_map mbind option_bind].
    rewrite Hri. reflexivity.
Qed.

Lemma build_refmask_loop_effect items cd :
  NoDup (map fst items) ->
  (forall name s, (name, s) ∈ items ->
     exists sd, scaffolds_data cd !! name = Some sd /\
                length (sd_refmask sd) = String.length (seq_values s)) ->
  exists cd',
    build_refmask_loop cd items = Ok cd' /\
    min_gap_size cd' = min_gap_size cd /\
    reference_length cd' = reference_length cd /\
    uniquely_mapped_reads cd' = uniquely_mapped_reads cd /\
    (forall name, name ∉ map fst items ->
                  scaffolds_data cd' !! name = scaffolds_data cd !! name) /\
    forall name s sd,
      (name, s) ∈ items -> scaffolds_data cd !! name = Some sd ->
      exists refmask,
        scaffolds_data cd' !! name = Some (set_refmask sd refmask) /\
        length refmask = length (sd_refmask sd) /\
        forall (i : nat) ch (r : Z),
          String.list_ascii_of_string (seq_values s) !! i = Some ch ->
          sd_refmask sd !! i = Some r ->
          refmask !! i =
          Some (foldl (fun (r : Z) (p : ascii * Allele.t) =>
                         if Ascii.eqb ch (fst p) then snd p else r)
                      r reference_bases).
Proof.
  revert cd. induction items as [ | [ n s0 ] items IH ]; intros cd Hnd Hpre.
  - exists cd. cbn.
    split; [ reflexivity | ]. split; [ reflexivity | ].
    split; [ reflexivity | ]. split; [ reflexivity | ].
    split; [ intros name _; reflexivity | ].
    intros name s sd Hin. apply elem_of_nil in Hin. contradiction.
  - cbn [map fst] in Hnd. apply NoDup_cons in Hnd as [ Hn Hnd ].
    destruct (Hpre n s0 (list_elem_of_here _ _)) as (sd0 & Hsd0 & Hlen0).
    destruct (mark_bases_effect reference_bases cd n (seq_values s0) sd0
                Hsd0 Hlen0)
      as (cd1 & r1 & Hrun1 & Hmap1 & Hg1 & Hr1 & Hu1 & Hl1 & Hat1).
    cbn [build_refmask_loop]. rewrite Hrun1. cbn [rbind].
    assert (Hother : forall name s, (name, s) ∈ items -> name <> n).
    { intros name s Hin ->. apply Hn.
      apply list_elem_of_fmap. exists (n, s). auto. }
    destruct (IH cd1 Hnd) as (cd' & Hrun & Hg & Hr & Hu & Hout & Hat).
    { intros name s Hin. rewrite Hmap1.
      rewrite lookup_insert_ne by (intros E; exact (Hother _ _ Hin (eq_sym E))).
      apply Hpre. apply list_elem_of_further, Hin. }
    exists cd'. split; [ exact Hrun | ].
    split; [ congruence | ]. split; [ congruence | ]. split; [ congruence | ].
    split.
    + intros name Hnot. cbn [map fst] in Hnot.
      apply not_elem_of_cons in Hnot as [ Hne Hnot ].
      rewrite (Hout name Hnot), Hmap1.
      apply lookup_insert_ne. congruence.
    + intros name s sd Hin Hsd.
      apply elem_of_cons in Hin as [ Heq | Hin ].
      * injection Heq as -> ->.
        rewrite Hsd0 in Hsd. injection Hsd as <-.
        exists r1. rewrite (Hout n Hn), Hmap1, lookup_insert_eq.
        split; [ reflexivity | ]. split; [ exact Hl1 | exact Hat1 ].
      * apply (Hat name s sd Hin). rewrite Hmap1.
        rewrite lookup_insert_ne
          by (intros E; exact (Hother _ _ Hin (eq_sym E))).
        exact Hsd.
Qed.

Lemma reference_bases_allele ch :
  foldl (fun (r : Z) (p : ascii * Allele.t) =>
           if Ascii.eqb ch (fst p) then snd p else r) 0 reference_bases
  = reference_allele ch.
Proof. reflexivity. Qed.

Lemma dict_set_keys {V} (d : list (string * V)) k v :
  NoDup (map fst d) ->
  NoDup (map fst (dict_set d k v)) /\
  forall k', k' ∈ map fst (dict_set d k v) -> k' = k \/ k' ∈ map fst d.
Proof.
  induction d as [ | [ k0 v0 ] d IH ]; intros Hnd; cbn.
  - split; [ apply NoDup_singleton | ].
    intros k' Hin. apply list_elem_of_singleton in Hin. auto.
  - cbn in Hnd. apply NoDup_cons in Hnd as [ Hk0 Hnd ].
    destruct (IH Hnd) as [ IHnd IHin ].
    case_bool_decide as E; cbn.
    + subst k0. split; [ apply NoDup_cons; auto | ].
      intros k' Hin. right. exact Hin.
    + split.
      * apply NoDup_cons. split; [ | exact IHnd ].
        intros Hin. apply IHin in Hin as [ -> | Hin ]; [ congruence | auto ].
      * intros k' Hin. apply elem_of_cons in Hin as [ -> | Hin ].
        -- right. apply list_elem_of_here.
        -- apply IHin in Hin as [ -> | Hin ]; [ auto | ].
           right. apply list_elem_of_further, Hin.
Qed.

Lemma new_reference_keys records :
  NoDup (map fst (scaffolds (new_reference records))).
Proof.
  unfold new_reference. cbn [scaffolds].
  assert (Hgen : forall d : list (string * Sequence),
    NoDup (map fst d) ->
    NoDup (map fst (foldl (fun d r => dict_set d (metadata_id r) r) d
                          records))).
  { induction records as [ | r records IH ]; intros d Hd; cbn.
    - exact Hd.
    - apply IH. apply dict_set_keys. exact Hd. }
  apply Hgen. constructor.
Qed.

Lemma zip_keys_lengths (d : list (string * Sequence)) :
  zip (map fst d)
      (map Z.to_nat
         (map (fun kv => Z.of_nat (String.length (seq_values (snd kv)))) d))
  = map (fun kv => (fst kv, String.length (seq_values (snd kv)))) d.
Proof.
  induction d as [ | kv d IH ]; cbn; [ reflexivity | ].
  rewrite Nat2Z.id. f_equal. exact IH.
Qed.

(** The call data [process] starts from. *)
Lemma init_call_data_effect self records :
  exists cd0,
    init_call_data self (new_reference records) = Ok cd0 /\
    call_data_ok cd0 /\
    forall name s,
      (name, s) ∈ scaffolds (new_reference records) ->
      exists sd,
        scaffolds_data cd0 !! name = Some sd /\
        sd_length sd = Z.of_nat (String.length (seq_values s)) /\
        forall (i : nat) ch,
          String.list_ascii_of_string (seq_values s) !! i = Some ch ->
          sd_refmask sd !! i = Some (reference_allele ch).
Proof.
  pose proof (new_reference_keys records) as Hnd.
  unfold init_call_data, build_refmask.
  change (lengths (new_reference records))
    with (map (fun kv => Z.of_nat (String.length (seq_values (snd kv))))
              (scaffolds (new_reference records))).
  rewrite zip_keys_lengths.
  set (d := scaffolds (new_reference records)) in *.
  set (cd := new_call_data _ _).
  assert (Hcd : forall name s, (name, s) ∈ d ->
            scaffolds_data cd !! name =
            Some (new_scaffold name (String.length (seq_values s)))).
  { intros name s Hin. unfold cd, new_call_data. cbn [scaffolds_data].
    apply elem_of_list_to_map_1.
    - assert (E : forall l : list (string * Sequence),
                (map (fun kv : string * nat =>
                        (fst kv, new_scaffold (fst kv) (snd kv)))
                     (map (fun kv : string * Sequence =>
                             (fst kv, String.length (seq_values (snd kv))))
                          l)).*1
                = map fst l).
      { induction l as [ | kv l IHl ]; cbn; [ reflexivity | ].
        f_equal. exact IHl. }
      rewrite E. exact Hnd.
    - apply list_elem_of_fmap.
      exists (name, String.length (seq_values s)). split; [ reflexivity | ].
      apply list_elem_of_fmap. exists (name, s). auto. }
  destruct (build_refmask_loop_effect d cd Hnd)
    as (cd' & Hrun & _ & _ & _ & Hout & Hat).
  { intros name s Hin. eexists. split; [ apply (Hcd _ _ Hin) | ].
    cbn. apply length_replicate. }
  exists cd'. split; [ exact Hrun | ].
  split.
  - unfold call_data_ok. intros name sd' Hsd'.
    destruct (decide (name ∈ map fst d)) as [ Hin | Hnot ].
    + apply list_elem_of_fmap in Hin as ([ n s ] & -> & Hin). cbn in Hsd'.
      destruct (Hat n s _ Hin (Hcd _ _ Hin)) as (refmask & Hl & Hlen & _).
      rewrite Hl in Hsd'. injection Hsd' as <-.
      pose proof (new_scaffold_ok n (String.length (seq_values s)))
        as (H0 & H1 & Hrest).
      split; [ exact H0 | ].
      split; [ cbn [set_refmask sd_refmask sd_length]; rewrite Hlen;
               exact H1 | exact Hrest ].
    + rewrite (Hout name Hnot) in Hsd'.
      exact (new_call_data_ok _ _ name sd' Hsd').
  - intros name s Hin.
    destruct (Hat name s _ Hin (Hcd _ _ Hin)) as (refmask & Hl & Hlen & Hch).
    eexists. split; [ exact Hl | ]. split; [ reflexivity | ].
    intros i ch Hi. cbn [set_refmask sd_refmask].
    rewrite (Hch i ch 0 Hi); [ rewrite reference_bases_allele; reflexivity | ].
    cbn. apply lookup_replicate_2.
    apply lookup_lt_Some in Hi. rewrite list_ascii_length in Hi. exact Hi.
Qed.

Lemma reference_allele_cases ch :
  reference_allele ch = 0 \/
  exists ix : nat, (ix < 6)%nat /\ ALLELE_INDEX (reference_allele ch) = Ok ix.
Proof.
  unfold reference_allele.
  destruct (Ascii.eqb ch "T"); [ right; exists 3%nat; split; [ lia | reflexivity ] | ].
  destruct (Ascii.eqb ch "G"); [ right; exists 2%nat; split; [ lia | reflexivity ] | ].
  destruct (Ascii.eqb ch "C"); [ right; exists 1%nat; split; [ lia | reflexivity ] | ].
  destruct (Ascii.eqb ch "A"); [ right; exists 0%nat; split; [ lia | reflexivity ] | ].
  left. reflexivity.
Qed.

(** The accessors that look the reference base up, at a position whose
    mask is [r]. *)
Lemma ref_accessors_at sd (i : nat) (r : Z) :
  scaffold_ok sd ->
  sd_refmask sd !! i = Some r ->
  (r = 0 ->
   ref_count sd (Z.of_nat i) = Raise KeyError /\
   ref_qual sd (Z.of_nat i) = Raise KeyError /\
   ref_fraction sd (Z.of_nat i) = Raise KeyError) /\
  (forall ix : nat, (ix < 6)%nat -> ALLELE_INDEX r = Ok ix ->
   exists c q,
     ref_count sd (Z.of_nat i) = Ok c /\
     allele_count sd (Z.of_nat i) r = Ok c /\
     ref_qual sd (Z.of_nat i) = Ok q /\
     allele_qual sd (Z.of_nat i) r = Ok q).
Proof.
  intros Hok Hr.
  pose proof Hok as (_ & Lr & La & _ & _ & _ & Hcells & _).
  pose proof (lookup_lt_Some _ _ _ Hr) as Hlt.
  assert (Hget : np_get (sd_refmask sd) (Z.of_nat i) = Ok r).
  { apply np_get_in_range; [ lia | rewrite Nat2Z.id; exact Hr ]. }
  split.
  - intros ->. unfold ref_fraction, ref_qual, ref_count, allele_count.
    rewrite Hget. cbn [rbind].
    split; [ reflexivity | ]. split; reflexivity.
  - intros ix Hix Hidx.
    destruct (lookup_lt_is_Some_2 (sd_alleles sd) i) as [ cell Hcell ];
      [ lia | ].
    rewrite Forall_forall in Hcells.
    destruct (Hcells cell (list_elem_of_lookup_2 _ _ _ Hcell))
      as [ [ Lc Lq ] _ ].
    destruct (lookup_lt_is_Some_2 (counts cell) ix) as [ c Hc ]; [ lia | ].
    destruct (lookup_lt_is_Some_2 (quals cell) ix) as [ q Hq ]; [ lia | ].
    assert (Hcellget : np_get (sd_alleles sd) (Z.of_nat i) = Ok cell).
    { apply np_get_in_range; [ lia | rewrite Nat2Z.id; exact Hcell ]. }
    assert (Hcget : np_get (counts cell) (Z.of_nat ix) = Ok c).
    { apply np_get_in_range; [ lia | rewrite Nat2Z.id; exact Hc ]. }
    assert (Hqget : np_get (quals cell) (Z.of_nat ix) = Ok q).
    { apply np_get_in_range; [ lia | rewrite Nat2Z.id; exact Hq ]. }
    exists c, q.
    unfold ref_qual, ref_count, allele_count, allele_qual.
    do 4 (rewrite ?Hget, ?Hidx, ?Hcellget, ?Hcget, ?Hqget; cbn [rbind]).
    split; [ reflexivity | ]. split; [ reflexivity | ].
    split; reflexivity.
Qed.

Lemma keeps_lookup {A} (proj : ScaffoldCallData -> A) cd cd' name sd :
  keeps proj cd cd' ->
  scaffolds_data cd !! name = Some sd ->
  exists sd', scaffolds_data cd' !! name = Some sd' /\ proj sd' = proj sd.
Proof.
  intros (_ & _ & K) Hsd. specialize (K name). rewrite Hsd in K.
  destruct (scaffolds_data cd' !! name) as [ sd' | ]; [ | discriminate K ].
  exists sd'. split; [ reflexivity | ]. cbn in K. congruence.
Qed.

(** X14. [process] up to the end of the pileup pass, on a reference read
    from a file. Building the call data and its reference mask never
    raises. When the two passes have returned, every scaffold of the
    reference has its call data, of the scaffold's length, and its mask
    holds the allele of each upper-case A, C, G or T and 0 for every
    other character. At those other positions (N, lower-case bases,
    ambiguity codes) [ref_count], [ref_qual] and [ref_fraction] raise
    [KeyError]; at the four bases [ref_count] and [ref_qual] return what
    [allele_count] and [allele_qual] return for that allele. *)
Theorem refmask_and_reference_accessors self records alignments columns :
  exists cd0,
    init_call_data self (new_reference records) = Ok cd0 /\
    forall cd1 st,
      estimate_abundance self cd0 alignments = Ok cd1 ->
      process_pileups self cd1 columns = Ok st ->
      forall name s,
        (name, s) ∈ scaffolds (new_reference records) ->
        exists sd,
          scaffolds_data (call_data st) !! name = Some sd /\
          sd_length sd = Z.of_nat (String.length (seq_values s)) /\
          forall (i : nat) ch,
            String.list_ascii_of_string (seq_values s) !! i = Some ch ->
            sd_refmask sd !! i = Some (reference_allele ch) /\
            (reference_allele ch = 0 ->
             ref_count sd (Z.of_nat i) = Raise KeyError /\
             ref_qual sd (Z.of_nat i) = Raise KeyError /\
             ref_fraction sd (Z.of_nat i) = Raise KeyError) /\
            (reference_allele ch <> 0 ->
             exists c q,
               ref_count sd (Z.of_nat i) = Ok c /\
               allele_count sd (Z.of_nat i) (reference_allele ch) = Ok c /\
               ref_qual sd (Z.of_nat i) = Ok q /\
               allele_qual sd (Z.of_nat i) (reference_allele ch) = Ok q).
Proof.
  destruct (init_call_data_effect self records) as (cd0 & Hinit & Hok0 & Hat).
  exists cd0. split; [ exact Hinit | ].
  intros cd1 st H1 H2 name s Hin.
  destruct (Hat name s Hin) as (sd0 & Hsd0 & Hlen0 & Hmask0).
  destruct (estimate_abundance_keeps _ _ _ _ H1) as [ Hok1 K1 ].
  unfold process_pileups in H2. rewrite process_columns_entries in H2.
  destruct (assess_entries_keeps _ _ _ _ H2) as (Hok2 & K2 & _).
  cbn [call_data] in Hok2, K2.
  destruct (keeps_lookup _ _ _ _ _ K1 Hsd0) as (sd1 & Hsd1 & E1).
  destruct (keeps_lookup _ _ _ _ _ K2 Hsd1) as (sd2 & Hsd2 & E2).
  unfold pileup_part in E1. unfold identity_part in E2.
  injection E1 as _ Hl1 Hr1 _ _ _ _. injection E2 as _ Hl2 _ Hr2.
  exists sd2. split; [ exact Hsd2 | ].
  split; [ congruence | ].
  intros i ch Hch.
  assert (Hr : sd_refmask sd2 !! i = Some (reference_allele ch)).
  { rewrite Hr2, Hr1. apply Hmask0. exact Hch. }
  assert (Hsok : scaffold_ok sd2).
  { exact (Hok2 (Hok1 Hok0) name sd2 Hsd2). }
  destruct (ref_accessors_at sd2 i _ Hsok Hr) as [ Hzero Hbase ].
  split; [ exact Hr | ]. split; [ exact Hzero | ].
  intros Hne.
  destruct (reference_allele_cases ch) as [ E | (ix & Hix & Hidx) ];
    [ contradiction | ].
  exact (Hbase ix Hix Hidx).
Qed.

Lemma refmask_and_reference_accessors_witness :
  exists cd0 cd1 st sd,
    init_call_data sample_caller (new_reference masked_records) = Ok cd0 /\
    estimate_abundance sample_caller cd0 sample_alignments = Ok cd1 /\
    process_pileups sample_caller cd1 sample_columns = Ok st /\
    scaffolds_data (call_data st) !! "contig1"%string = Some sd /\
    sd_refmask sd !! 0%nat = Some Allele.A /\
    (exists c, ref_count sd 0 = Ok c) /\
    sd_refmask sd !! 1%nat = Some Allele.N /\
    ref_fraction sd 1 = Raise KeyError.
Proof.
  destruct (refmask_and_reference_accessors sample_caller masked_records
              sample_alignments sample_columns) as (cd0 & Hinit & H).
  exists cd0.
  destruct (estimate_abundance sample_caller cd0 sample_alignments)
    as [ cd1 | ] eqn:H1;
    [ | vm_compute in Hinit; injection Hinit as <-; discriminate H1 ].
  exists cd1.
  destruct (process_pileups sample_caller cd1 sample_columns)
    as [ st | ] eqn:H2;
    [ | vm_compute in Hinit; injection Hinit as <-;
        vm_compute in H1; injection H1 as <-; discriminate H2 ].
  exists st.
  destruct (H cd1 st eq_refl H2 "contig1"%string (mkSequence "contig1" "AN"))
    as (sd & Hsd & _ & Hat).
  { vm_compute. apply list_elem_of_here. }
  exists sd.
  destruct (Hat 0%nat "A"%char eq_refl) as (Hm0 & _ & Hbase).
  destruct (Hat 1%nat "N"%char eq_refl) as (Hm1 & Hzero & _).
  destruct (Hbase ltac:(discriminate)) as (c & q & Hc & _).
  destruct (Hzero eq_refl) as (_ & _ & Hf).
  split; [ exact Hinit | ]. split; [ reflexivity | ].
  split; [ reflexivity | ]. split; [ exact Hsd | ].
  split; [ exact Hm0 | ]. split; [ exists c; exact Hc | ].
  split; [ exact Hm1 | exact Hf ].
Defined.

(** ** Summary counts *)

(** The five indicators of [summarize] at one position, for a strong
    call of six bits and a reference mask of at most one base. *)
Lemma summary_indicators (s r : Z) :
  0 <= s < 64 ->
  r ∈ [0; 1; 2; 4; 8] ->
  let callable := if s =? 0 then 0 else 1 in
  let confirmed := if Z.land s r =? 0 then 0 else 1 in
  let snp := if Z.land s (255 - r) =? 0 then 0 else 1 in
  let multi := if 0 <? Z.land s (s - 1) then 1 else 0 in
  let single_other :=
    if bool_decide (s ∈ Allele.members) && negb (s =? r) then 1 else 0 in
  let same := if negb (s =? 0) && (s =? r) then 1 else 0 in
  snp - multi = single_other /\
  multi <= snp /\ snp <= callable /\
  confirmed <= callable /\ callable <= confirmed + snp /\
  callable = single_other + multi + same.
Proof.
  intros Hs Hr.
  assert (Hn : exists n : nat, (n < 64)%nat /\ s = Z.of_nat n).
  { exists (Z.to_nat s). split; lia. }
  destruct Hn as (n & Hn & ->). clear Hs.
  repeat (apply elem_of_cons in Hr as [ -> | Hr ]);
    [ .. | apply elem_of_nil in Hr; contradiction ].
  all: do 64 (destruct n as [ | n ]; [ vm_compute; repeat split; congruence | ]).
  all: lia.
Qed.

Lemma summary_sums (strong refmask : list Z) :
  length strong = length refmask ->
  Forall (fun s => 0 <= s < 64) strong ->
  Forall (fun r => r ∈ [0; 1; 2; 4; 8]) refmask ->
  let callable := count_nonzero strong in
  let confirmed := count_nonzero (zip_with Z.land strong refmask) in
  let snps := count_nonzero (zip_with Z.land strong (np_invert8 refmask)) in
  let multi := count_true (map (fun s => 0 <? Z.land s (s - 1)) strong) in
  let single_other :=
    count_true (zip_with (fun s r => bool_decide (s ∈ Allele.members)
                                     && negb (s =? r)) strong refmask) in
  let same :=
    count_true (zip_with (fun s r => negb (s =? 0) && (s =? r))
                         strong refmask) in
  snps - multi = single_other /\
  multi <= snps /\ snps <= callable /\
  confirmed <= callable /\ callable <= confirmed + snps /\
  callable = single_other + multi + same /\
  0 <= single_other.
Proof.
  intros Hlen Hs. revert refmask Hlen.
  induction Hs as [ | s strong Hs _ IH ]; intros refmask Hlen Hr.
  - cbn. lia.
  - destruct refmask as [ | r refmask ]; [ discriminate Hlen | ].
    apply Forall_cons in Hr as [ Hr Hrs ].
    injection Hlen as Hlen.
    specialize (IH refmask Hlen Hrs). cbn zeta in IH.
    pose proof (summary_indicators s r Hs Hr) as Hp. cbn zeta in Hp.
    unfold count_nonzero, count_true, np_invert8, np_sum in *.
    cbn [map zip_with foldr].
    destruct (bool_decide (s ∈ Allele.members) && negb (s =? r));
      destruct (negb (s =? 0) && (s =? r));
      destruct (0 <? Z.land s (s - 1));
      destruct (Z.land s (255 - r) =? 0);
      destruct (Z.land s r =? 0);
      destruct (s =? 0); lia.
Qed.

(** X15. The allele counts [summarize] reports for a scaffold whose
    strong calls have six bits and whose reference mask has at most one
    base per position (what [call_alleles] and [build_refmask] leave):
    [pureSnps] is not negative and counts exactly the positions with one
    strong allele that is not the reference base; every position with
    several strong alleles is counted as an SNP; confirmed and SNP
    positions are both callable and together cover the callable ones;
    and the callable positions are the pure SNPs, the multi-allele
    positions and those whose one strong allele is the reference base. *)
Theorem summarize_counts_consistent sd strong :
  sd_strong sd = Some strong ->
  length strong = length (sd_refmask sd) ->
  Forall (fun s => 0 <= s < 64) strong ->
  Forall (fun r => r ∈ [0; 1; 2; 4; 8]) (sd_refmask sd) ->
  exists c,
    summarize_counts sd = Ok c /\
    0 <= pure_snps c /\
    pure_snps c =
      count_true (zip_with (fun s r => bool_decide (s ∈ Allele.members)
                                       && negb (s =? r))
                           strong (sd_refmask sd)) /\
    num_multi c <= num_snps c /\ num_snps c <= num_callable c /\
    num_confirmed c <= num_callable c /\
    num_callable c <= num_confirmed c + num_snps c /\
    num_callable c =
      pure_snps c + num_multi c
      + count_true (zip_with (fun s r => negb (s =? 0) && (s =? r))
                             strong (sd_refmask sd)).
Proof.
  intros Hstrong Hlen Hs Hr.
  unfold summarize_counts. rewrite Hstrong.
  rewrite np_broadcast2_same by exact Hlen. cbn [rbind].
  rewrite np_broadcast2_same
    by (unfold np_invert8; rewrite length_map; exact Hlen).
  cbn [rbind]. eexists. split; [ reflexivity | ].
  cbn [pure_snps num_multi num_snps num_callable num_confirmed].
  pose proof (summary_sums strong (sd_refmask sd) Hlen Hs Hr) as Hsum.
  cbn zeta in Hsum. lia.
Qed.

Lemma summarize_counts_consistent_witness :
  exists c,
    summarize_counts called_scaffold = Ok c /\
    num_callable c = 4 /\ num_confirmed c = 2 /\ num_snps c = 3 /\
    num_multi c = 1 /\ pure_snps c = 2.
Proof.
  destruct (summarize_counts_consistent called_scaffold
              [Allele.A; Allele.G; Z.lor Allele.A Allele.T; 0; Allele.DEL]
              eq_refl eq_refl)
    as (c & Hc & _).
  - apply Forall_forall. intros x Hx.
    repeat (apply elem_of_cons in Hx as [ -> | Hx ]);
      [ .. | apply elem_of_nil in Hx; contradiction ];
      vm_compute; split; congruence.
  - apply Forall_forall. intros x Hx.
    repeat (apply elem_of_cons in Hx as [ -> | Hx ]);
      [ .. | apply elem_of_nil in Hx; contradiction ];
      repeat first [ apply list_elem_of_here | apply list_elem_of_further ].
  - exists c. split; [ exact Hc | ].
    vm_compute in Hc. injection Hc as <-. repeat split; reflexivity.
Defined.

(** ** Where allele counts can change *)

Lemma low_mapping_quality_each_keeps_good locs st st' :
  low_mapping_quality_each st locs = Ok st' ->
  keeps good_part (call_data st) (call_data st').
Proof.
  revert st. induction locs as [ | [ [ scaffold pos ] rc ] locs IH ];
    intros st H; cbn in H.
  - injection H as <-. apply keeps_refl.
  - destruct (low_mapping_quality _ _ _) as [ [ cd w ] | ] eqn:E;
      [ | discriminate H ].
    cbn [rbind] in H. apply IH in H. cbn in H.
    destruct (low_mapping_quality_keeps good_part _ _ _ _ _
                ltac:(reflexivity) E) as [ K _ ].
    exact (keeps_trans _ _ _ _ K H).
Qed.

(** What [keeps good_part] says of the entry's own scaffold and of the
    others. *)
Lemma keeps_good_part_untouched cd cd' scaffold :
  keeps good_part cd cd' ->
  (forall name, name <> scaffold ->
     good_part <$> (scaffolds_data cd' !! name) =
     good_part <$> (scaffolds_data cd !! name)) /\
  (forall sd sd',
     scaffolds_data cd !! scaffold = Some sd ->
     scaffolds_data cd' !! scaffold = Some sd' ->
     forall i : nat,
       sd_alleles sd' !! i = sd_alleles sd !! i /\
       sd_mq_sum sd' !! i = sd_mq_sum sd !! i).
Proof.
  intros (_ & _ & K). split.
  - intros name _. apply K.
  - intros sd sd' Hsd Hsd' i. specialize (K scaffold).
    rewrite Hsd, Hsd' in K. cbn in K. unfold good_part in K.
    injection K as -> ->. auto.
Qed.

Lemma good_read_elsewhere cd scaffold refpos allele bq mq (rc : bool) cd' :
  0 <= refpos ->
  good_read cd scaffold refpos allele bq mq rc = Ok cd' ->
  (forall name, name <> scaffold ->
     scaffolds_data cd' !! name = scaffolds_data cd !! name) /\
  (forall sd sd',
     scaffolds_data cd !! scaffold = Some sd ->
     scaffolds_data cd' !! scaffold = Some sd' ->
     forall i : nat, i <> Z.to_nat refpos ->
       sd_alleles sd' !! i = sd_alleles sd !! i /\
       sd_mq_sum sd' !! i = sd_mq_sum sd !! i).
Proof.
  intros Hpos H. unfold good_read, get_scaffold in H.
  destruct (ALLELE_INDEX _) as [ ix | ]; [ | discriminate H ].
  cbn [rbind] in H.
  destruct (scaffolds_data cd !! scaffold) as [ sd0 | ] eqn:Hsd0;
    [ | discriminate H ].
  cbn [rbind] in H.
  assert (Hidx : forall len k, np_index len refpos = Ok k -> k = Z.to_nat refpos).
  { intros len k Hk. unfold np_index in Hk.
    destruct ((0 <=? refpos) && (refpos <? Z.of_nat len));
      [ injection Hk as <-; reflexivity | ].
    destruct (Z.ltb_spec refpos 0); [ lia | ].
    rewrite andb_false_r in Hk. discriminate Hk. }
  assert (Halleles : forall a a' row v,
            alleles_iadd a refpos row ix v = Ok a' ->
            forall i : nat, i <> Z.to_nat refpos -> a' !! i = a !! i).
  { intros a a' row v Ha i Hi. unfold alleles_iadd in Ha.
    destruct (np_index (length a) refpos) as [ k | ] eqn:Hk;
      [ | discriminate Ha ].
    apply Hidx in Hk. subst k. cbn [rbind] in Ha.
    destruct (a !! Z.to_nat refpos) as [ cell | ]; [ | discriminate Ha ].
    destruct row.
    - destruct (np_iadd (quals cell) (Z.of_nat ix) v) as [ q | ];
        [ | discriminate Ha ].
      cbn [rbind] in Ha. injection Ha as <-.
      apply list_lookup_insert_ne. congruence.
    - destruct (np_iadd (counts cell) (Z.of_nat ix) v) as [ c | ];
        [ | discriminate Ha ].
      cbn [rbind] in Ha. injection Ha as <-.
      apply list_lookup_insert_ne. congruence. }
  destruct (alleles_iadd (sd_alleles sd0) refpos false ix 1) as [ a1 | ] eqn:H1;
    [ | discriminate H ].
  cbn [rbind] in H.
  destruct (alleles_iadd a1 refpos true ix bq) as [ a2 | ] eqn:H2;
    [ | discriminate H ].
  cbn [rbind] in H.
  unfold np_iadd in H.
  destruct (np_index (length (sd_mq_sum sd0)) refpos) as [ k | ] eqn:Hk;
    [ | discriminate H ].
  apply Hidx in Hk. subst k. cbn [rbind] in H. injection H as <-.
  split.
  - intros name Hne. cbn. apply lookup_insert_ne. congruence.
  - intros sd sd' Hsd Hsd' i Hi. cbn in Hsd'.
    rewrite lookup_insert_eq in Hsd'. injection Hsd' as <-.
    injection Hsd as <-. cbn [set_mq_sum set_alleles sd_alleles sd_mq_sum].
    split.
    + rewrite (Halleles _ _ _ _ H2 i Hi). exact (Halleles _ _ _ _ H1 i Hi).
    + apply list_lookup_alter_ne. congruence.
Qed.

(** X16. With a minimum mapping quality above 3 (the command line's
    default is 5), a pileup entry changes allele counts, quality sums
    and [mq_sum] nowhere but at its own position: on every other
    scaffold and at every other position of its own scaffold the
    [alleles] and [mq_sum] arrays are what they were. The alternative
    locations of its read reach [lowmq_count] only. *)
Theorem allele_counts_change_at_own_position
    self st scaffold refpos read st' :
  3 < vc_min_mapping_quality self ->
  0 <= refpos ->
  assess_read self st scaffold refpos read = Ok st' ->
  (forall name, name <> scaffold ->
     good_part <$> (scaffolds_data (call_data st') !! name) =
     good_part <$> (scaffolds_data (call_data st) !! name)) /\
  (forall sd sd',
     scaffolds_data (call_data st) !! scaffold = Some sd ->
     scaffolds_data (call_data st') !! scaffold = Some sd' ->
     forall i : nat, i <> Z.to_nat refpos ->
       sd_alleles sd' !! i = sd_alleles sd !! i /\
       sd_mq_sum sd' !! i = sd_mq_sum sd !! i).
Proof.
  intros Hmin Hpos H.
  assert (Hkeep : keeps good_part (call_data st) (call_data st') ->
    (forall name, name <> scaffold ->
       good_part <$> (scaffolds_data (call_data st') !! name) =
       good_part <$> (scaffolds_data (call_data st) !! name)) /\
    (forall sd sd',
       scaffolds_data (call_data st) !! scaffold = Some sd ->
       scaffolds_data (call_data st') !! scaffold = Some sd' ->
       forall i : nat, i <> Z.to_nat refpos ->
         sd_alleles sd' !! i = sd_alleles sd !! i /\
         sd_mq_sum sd' !! i = sd_mq_sum sd !! i)).
  { intros K.
    destruct (keeps_good_part_untouched _ _ scaffold K) as [ K1 K2 ].
    split; [ exact K1 | ].
    intros sd sd' Hsd Hsd' i _. exact (K2 sd sd' Hsd Hsd' i). }
  assert (Hbad : forall st0,
    call_data st0 = call_data st ->
    record_bad st0 scaffold refpos = Ok st' ->
    keeps good_part (call_data st) (call_data st')).
  { intros st0 E Hr. unfold record_bad in Hr.
    destruct (bad_read (call_data st0) scaffold refpos) as [ cd | ] eqn:Eb;
      [ | discriminate Hr ].
    cbn [rbind] in Hr. injection Hr as <-. cbn [call_data].
    rewrite <- E.
    apply (bad_read_keeps good_part _ _ _ _ ltac:(reflexivity) Eb). }
  unfold assess_read in H.
  destruct (bool_decide (query_name (alignment read) ∈ discarded_reads st)).
  { apply Hkeep, (Hbad st eq_refl H). }
  destruct (is_paired (alignment read) &&
            negb (is_proper_pair (alignment read))).
  { apply Hkeep,
      (Hbad (discard st (query_name (alignment read))) eq_refl H). }
  destruct (negb (query_alignment_length (alignment read) =?
                  query_length (alignment read))).
  { apply Hkeep,
      (Hbad (discard st (query_name (alignment read))) eq_refl H). }
  destruct (is_paired (alignment read) &&
            (Z.abs (template_length (alignment read)) <?
             query_length (alignment read))).
  { apply Hkeep,
      (Hbad (discard st (query_name (alignment read))) eq_refl H). }
  destruct ((0 <? vc_max_num_mismatches self) &&
            (vc_max_num_mismatches self <?
             default 0 (tag_NM (alignment read)))).
  { apply Hkeep,
      (Hbad (discard st (query_name (alignment read))) eq_refl H). }
  destruct (np_get (query_qualities (alignment read))
              (query_position_or_next read)) as [ qual | ];
    [ | discriminate H ].
  cbn [rbind] in H.
  destruct (qual <? vc_min_qual self).
  { apply Hkeep, (Hbad st eq_refl H). }
  match type of H with
  | (let! _ := ?m in _) = Ok _ =>
      destruct m as [ base | ]; [ | discriminate H ]
  end.
  cbn [rbind] in H.
  destruct (base =? Allele.N).
  { apply Hkeep, (Hbad st eq_refl H). }
  destruct (Z.ltb_spec (mapping_quality (alignment read))
              (vc_min_mapping_quality self)) as [ Hlow | Hhigh ].
  - apply Hkeep.
    destruct (low_mapping_quality (call_data st) scaffold refpos)
      as [ [ cd w ] | ] eqn:El; [ | discriminate H ].
    cbn [rbind fst snd] in H.
    destruct (low_mapping_quality_keeps good_part _ _ _ _ _
                ltac:(reflexivity) El) as [ K1 _ ].
    unfold assess_alternative_locations in H. cbn [alignment] in H.
    destruct (mapping_quality (alignment read) <? vc_min_mapping_quality self).
    + destruct (alternative_locations _ _) as [ locs | ]; [ | discriminate H ].
      cbn [rbind] in H.
      apply low_mapping_quality_each_keeps_good in H. cbn [call_data] in H.
      exact (keeps_trans _ _ _ _ K1 H).
    + injection H as <-. exact K1.
  - destruct (good_read (call_data st) scaffold refpos base qual
                (mapping_quality (alignment read)) false)
      as [ cd' | ] eqn:Hgood; [ | discriminate H ].
    cbn [rbind] in H.
    destruct (Z.leb_spec (mapping_quality (alignment read)) 3); [ lia | ].
    injection H as <-. cbn [call_data].
    destruct (good_read_elsewhere _ _ _ _ _ _ _ _ Hpos Hgood) as [ G1 G2 ].
    split; [ | exact G2 ].
    intros name Hne. rewrite (G1 name Hne). reflexivity.
Qed.

Lemma allele_counts_change_at_own_position_witness :
  exists st',
    assess_read sample_caller (mkState ∅ sample_call_data []) "contig1" 0
      (at_offset (sample_read "read1" 0 [30; 30]) 0) = Ok st' /\
    forall sd',
      scaffolds_data (call_data st') !! "contig1"%string = Some sd' ->
      sd_alleles sd' !! 1%nat
        = Some (mkCell (replicate 6 0) (replicate 6 0)) /\
      sd_mq_sum sd' !! 1%nat = Some 0.
Proof.
  destruct (assess_read sample_caller (mkState ∅ sample_call_data [])
              "contig1" 0 (at_offset (sample_read "read1" 0 [30; 30]) 0))
    as [ st' | ] eqn:H; [ | discriminate H ].
  exists st'. split; [ reflexivity | ].
  intros sd' Hsd'.
  destruct (allele_counts_change_at_own_position sample_caller
              (mkState ∅ sample_call_data []) "contig1" 0
              (at_offset (sample_read "read1" 0 [30; 30]) 0) st')
    as [ _ Hown ].
  - cbn. lia.
  - lia.
  - exact H.
  - destruct (Hown (new_scaffold "contig1" 2) sd' eq_refl Hsd' 1%nat)
      as [ Ha Hm ]; [ discriminate | ].
    rewrite Ha, Hm. split; reflexivity.
Defined.

(** ** The pileup pass returns *)

Lemma str_get_in_range (s : string) (i : Z) :
  0 <= i < Z.of_nat (String.length s) -> exists ch, str_get s i = Ok ch.
Proof.
  intros Hi. unfold str_get. rewrite np_index_in_range by exact Hi.
  cbn [rbind].
  assert (Hget : forall (t : string) (k : nat),
            (k < String.length t)%nat -> exists c, String.get k t = Some c).
  { induction t as [ | c t IH ]; intros k Hk; cbn in Hk; [ lia | ].
    destruct k as [ | k ]; cbn; [ eauto | ]. apply IH. lia. }
  destruct (Hget s (Z.to_nat i)) as [ c -> ]; [ lia | ]. eauto.
Qed.

(** Every allele but [N] has its row in the pileup arrays. *)
Lemma from_str_index (ch : string) :
  (Allele.from_str ch =? Allele.N) = false ->
  exists ix, ALLELE_INDEX (Allele.from_str ch) = Ok ix.
Proof.
  unfold Allele.from_str.
  repeat match goal with
         | |- context [ decide ?P ] => destruct (decide P)
         end; intros H; try discriminate H; eexists; reflexivity.
Qed.

Lemma bad_read_returns cd scaffold sd pos :
  get_scaffold cd scaffold = Ok sd ->
  scaffold_ok sd ->
  0 <= pos < sd_length sd ->
  exists cd', bad_read cd scaffold pos = Ok cd'.
Proof.
  intros Hsd (_ & _ & _ & Lb & _) Hpos. unfold bad_read, np_iadd.
  rewrite Hsd. cbn [rbind]. rewrite np_index_in_range by lia.
  cbn [rbind]. eauto.
Qed.

Lemma low_mapping_quality_returns cd scaffold sd pos :
  get_scaffold cd scaffold = Ok sd ->
  scaffold_ok sd ->
  0 <= pos < sd_length sd ->
  exists cd', low_mapping_quality cd scaffold pos = Ok (cd', []).
Proof.
  intros Hsd (_ & _ & _ & _ & Ll & _) Hpos.
  unfold low_mapping_quality, np_iadd. rewrite Hsd. cbn [rbind].
  destruct (Z.leb_spec (sd_length sd) pos); [ lia | ].
  rewrite np_index_in_range by lia. cbn [rbind]. eauto.
Qed.

(** One entry: with its scaffold known, its position inside it, its
    query position inside the read and no alternative hits, the filter
    chain runs to one of its ends. *)
Lemma assess_read_returns self st scaffold refpos read sd :
  get_scaffold (call_data st) scaffold = Ok sd ->
  scaffold_ok sd ->
  0 <= refpos < sd_length sd ->
  tag_XA (alignment read) = None ->
  0 <= query_position_or_next read
    < Z.of_nat (length (query_qualities (alignment read))) ->
  query_position_or_next read
    < Z.of_nat (String.length (query_sequence (alignment read))) ->
  exists st', assess_read self st scaffold refpos read = Ok st'.
Proof.
  intros Hsd Hok Href Hxa Hq Hs.
  assert (Hbad : forall st0, call_data st0 = call_data st ->
            exists st', record_bad st0 scaffold refpos = Ok st').
  { intros st0 E. unfold record_bad. rewrite E.
    destruct (bad_read_returns _ _ _ _ Hsd Hok Href) as [ cd' -> ].
    cbn [rbind]. eauto. }
  unfold assess_read.
  destruct (bool_decide (query_name (alignment read) ∈ discarded_reads st)).
  { apply (Hbad st eq_refl). }
  destruct (is_paired (alignment read) &&
            negb (is_proper_pair (alignment read))).
  { apply (Hbad (discard st (query_name (alignment read))) eq_refl). }
  destruct (negb (query_alignment_length (alignment read) =?
                  query_length (alignment read))).
  { apply (Hbad (discard st (query_name (alignment read))) eq_refl). }
  destruct (is_paired (alignment read) &&
            (Z.abs (template_length (alignment read)) <?
             query_length (alignment read))).
  { apply (Hbad (discard st (query_name (alignment read))) eq_refl). }
  destruct ((0 <? vc_max_num_mismatches self) &&
            (vc_max_num_mismatches self <?
             default 0 (tag_NM (alignment read)))).
  { apply (Hbad (discard st (query_name (alignment read))) eq_refl). }
  destruct (lookup_lt_is_Some_2 (query_qualities (alignment read))
              (Z.to_nat (query_position_or_next read))) as [ qual Hqual ];
    [ lia | ].
  rewrite (np_get_in_range _ (query_position_or_next read) qual)
    by (lia || exact Hqual).
  cbn [rbind].
  destruct (qual <? vc_min_qual self).
  { apply (Hbad st eq_refl). }
  assert (Hbase : exists base,
            (if is_del read then Ok Allele.DEL
             else if 0 <? indel read then Ok Allele.INS
             else let! ch := str_get (query_sequence (alignment read))
                               (query_position_or_next read) in
                  Ok (Allele.from_str ch)) = Ok base /\
            ((base =? Allele.N) = false ->
             exists ix, ALLELE_INDEX base = Ok ix)).
  { destruct (is_del read).
    - exists Allele.DEL. split; [ reflexivity | ].
      intros _. exists 5%nat. reflexivity.
    - destruct (0 <? indel read).
      + exists Allele.INS. split; [ reflexivity | ].
        intros _. exists 4%nat. reflexivity.
      + destruct (str_get_in_range (query_sequence (alignment read))
                    (query_position_or_next read)) as [ ch -> ]; [ lia | ].
        cbn [rbind]. exists (Allele.from_str ch).
        split; [ reflexivity | apply from_str_index ]. }
  destruct Hbase as (base & -> & Hix). cbn [rbind].
  destruct (base =? Allele.N) eqn:HN.
  { apply (Hbad st eq_refl). }
  destruct (Hix eq_refl) as [ ix Hidx ].
  destruct (mapping_quality (alignment read) <? vc_min_mapping_quality self)
    eqn:Hmq.
  - destruct (low_mapping_quality_returns _ _ _ _ Hsd Hok Href)
      as [ cd' -> ].
    cbn [rbind fst snd].
    unfold assess_alternative_locations, alternative_locations.
    cbn [alignment]. rewrite Hmq, Hxa. cbn. eauto.
  - pose proof Hok as (_ & _ & La & _).
    destruct (lookup_lt_is_Some_2 (sd_alleles sd) (Z.to_nat refpos))
      as [ cell Hcell ]; [ lia | ].
    rewrite (good_read_in_range _ _ sd refpos base qual _ false ix cell
               Hsd Hok Href Hidx Hcell).
    cbn [rbind].
    destruct (mapping_quality (alignment read) <=? 3); [ | eauto ].
    unfold alternative_locations. rewrite Hxa. cbn. eauto.
Qed.

(** X17. The pileup pass on well-formed call data returns when every
    column names a scaffold of the call data and a position inside it,
    and every read in it has no [XA] tag and a query position inside its
    base qualities and its sequence. *)
Theorem pileup_pass_returns self call columns :
  call_data_ok call ->
  (forall column, column ∈ columns ->
     exists sd,
       scaffolds_data call !! col_reference_name column = Some sd /\
       0 <= col_reference_pos column < sd_length sd /\
       forall read, read ∈ pileups column ->
         tag_XA (alignment read) = None /\
         0 <= query_position_or_next read
           < Z.of_nat (length (query_qualities (alignment read))) /\
         query_position_or_next read
           < Z.of_nat (String.length (query_sequence (alignment read)))) ->
  exists st, process_pileups self call columns = Ok st.
Proof.
  intros Hok Hcols. unfold process_pileups.
  rewrite process_columns_entries.
  assert (Hentries : forall scaffold refpos read,
            (scaffold, refpos, read) ∈ pileup_entries columns ->
            (exists sd,
               scaffolds_data call !! scaffold = Some sd /\
               0 <= refpos < sd_length sd) /\
            tag_XA (alignment read) = None /\
            0 <= query_position_or_next read
              < Z.of_nat (length (query_qualities (alignment read))) /\
            query_position_or_next read
              < Z.of_nat (String.length (query_sequence (alignment read)))).
  { intros scaffold refpos read Hin. unfold pileup_entries in Hin.
    apply list_elem_of_In in Hin.
    apply in_flat_map in Hin as (column & Hcol & Hin).
    apply in_map_iff in Hin as (read' & E & Hread).
    injection E as <- <- <-.
    apply list_elem_of_In in Hcol. apply list_elem_of_In in Hread.
    destruct (Hcols column Hcol) as (sd & Hsd & Hpos & Hreads).
    split; [ exists sd; auto | apply Hreads; exact Hread ]. }
  clear Hcols.
  set (st0 := mkState ∅ call []).
  assert (Hok0 : call_data_ok (call_data st0)) by exact Hok.
  assert (Hk0 : keeps identity_part call (call_data st0))
    by apply keeps_refl.
  clearbody st0. revert st0 Hok0 Hk0.
  induction (pileup_entries columns)
    as [ | [ [ scaffold refpos ] read ] entries IH ]; intros st Hokst Hk.
  - exists st. reflexivity.
  - destruct (Hentries scaffold refpos read (list_elem_of_here _ _))
      as ((sd & Hsd & Hpos) & Hxa & Hq & Hs).
    destruct (keeps_lookup _ _ _ _ _ Hk Hsd) as (sd' & Hsd' & E).
    assert (Hlen : sd_length sd' = sd_length sd).
    { unfold identity_part in E. congruence. }
    assert (Hget : get_scaffold (call_data st) scaffold = Ok sd').
    { unfold get_scaffold. rewrite Hsd'. reflexivity. }
    destruct (assess_read_returns self st scaffold refpos read sd' Hget)
      as [ st1 H1 ]; try assumption.
    { exact (Hokst scaffold sd' Hsd'). }
    { lia. }
    cbn [assess_entries]. rewrite H1. cbn [rbind].
    apply IH.
    + intros s p r Hin. apply Hentries. apply list_elem_of_further, Hin.
    + exact (assess_read_ok _ _ _ _ _ _ Hokst H1).
    + destruct (assess_read_keeps _ _ _ _ _ _ H1) as [ K _ ].
      exact (keeps_trans _ _ _ _ Hk K).
Qed.

Lemma pileup_pass_returns_witness :
  exists st, process_pileups sample_caller sample_call_data sample_columns
             = Ok st.
Proof.
  apply (pileup_pass_returns sample_caller sample_call_data sample_columns).
  - apply new_call_data_ok.
  - intros column Hcol. exists (new_scaffold "contig1" 2).
    repeat (apply elem_of_cons in Hcol as [ -> | Hcol ]);
      [ .. | apply elem_of_nil in Hcol; contradiction ].
    + split; [ reflexivity | ]. split; [ cbn; lia | ].
      intros read Hread. cbn [pileups] in Hread.
      repeat (apply elem_of_cons in Hread as [ -> | Hread ]);
        [ .. | apply elem_of_nil in Hread; contradiction ].
      * split; [ reflexivity | cbn; lia ].
      * split; [ reflexivity | cbn; lia ].
    + split; [ reflexivity | ]. split; [ cbn; lia | ].
      intros read Hread. cbn [pileups] in Hread.
      repeat (apply elem_of_cons in Hread as [ -> | Hread ]);
        [ .. | apply elem_of_nil in Hread; contradiction ].
      split; [ reflexivity | cbn; lia ].
Defined.
